(** * SmartRenameDownloads: slugifier, PDF preview extractor, rate limiter
      and rename flows, embedded from the JavaScript sources.

    Strings are sequences of UTF-16 code units ([list N]), as JavaScript
    has them.  Built-ins of the host platform whose behaviour is not part of
    the repository ([String.prototype.toLowerCase], [DecompressionStream],
    the UTF-8 and UTF-16BE [TextDecoder]s, [fetch], the remote model) are
    parameters of the definitions that call them. *)

From stdpp Require Import base gmap list strings pretty.
From Stdlib Require Import NArith ZArith QArith Qround Lia.

Close Scope Q_scope.

(** ** JavaScript strings and the string methods the sources use *)

Module Js.

Definition str := list N.

(** A string literal of the source, as code units. *)
Definition lit (s : string) : str :=
  map Ascii.N_of_ascii (String.list_ascii_of_string s).

Definition in_range (lo hi c : N) : bool := (lo <=? c)%N && (c <=? hi)%N.

Definition is_digit (c : N) : bool := in_range 48 57 c.
Definition is_lower (c : N) : bool := in_range 97 122 c.
Definition is_upper (c : N) : bool := in_range 65 90 c.
Definition is_alnum (c : N) : bool := is_upper c || is_lower c || is_digit c.

(** [\w] without the [u] flag: [[A-Za-z0-9_]]. *)
Definition is_word (c : N) : bool := is_alnum c || (c =? 95)%N.

(** [\s]: the WhiteSpace and LineTerminator code units of ECMAScript. *)
Definition is_space (c : N) : bool :=
  in_range 9 13 c || (c =? 32)%N || (c =? 160)%N || (c =? 5760)%N
  || in_range 8192 8202 c || (c =? 8232)%N || (c =? 8233)%N
  || (c =? 8239)%N || (c =? 8287)%N || (c =? 12288)%N || (c =? 65279)%N.

Definition hyphen : N := 45.
Definition is_hyphen (c : N) : bool := (c =? hyphen)%N.

(** [[a-z0-9]] *)
Definition is_lower_alnum (c : N) : bool := is_lower c || is_digit c.

Definition str_eqb (a b : str) : bool :=
  bool_decide (a = b).

Fixpoint drop_while (p : N -> bool) (s : str) : str :=
  match s with
  | [] => []
  | c :: t => if p c then drop_while p t else s
  end.

(** Removes the run of [p] code units at the end of the string. *)
Fixpoint drop_while_end (p : N -> bool) (s : str) : str :=
  match s with
  | [] => []
  | c :: t =>
      match drop_while_end p t with
      | [] => if p c then [] else [c]
      | r => c :: r
      end
  end.

(** [s.trim()] *)
Definition trim (s : str) : str := drop_while_end is_space (drop_while is_space s).

(** [s.replace(/[^class]/g, '')]: only the units of the class stay. *)
Definition keep_only (p : N -> bool) (s : str) : str := List.filter p s.

(** [s.replace(/[class]+/g, r)]: every maximal run of [p] code units is
    replaced by [r]; [in_run] tells that the unit before was in a run. *)
Fixpoint replace_runs_go (p : N -> bool) (r : str) (in_run : bool) (s : str) : str :=
  match s with
  | [] => []
  | c :: t =>
      if p c then
        if in_run then replace_runs_go p r true t
        else r ++ replace_runs_go p r true t
      else c :: replace_runs_go p r false t
  end.

Definition replace_runs (p : N -> bool) (r : str) (s : str) : str :=
  replace_runs_go p r false s.

(** [s.split(sep)] for a one-unit separator: never the empty array. *)
Fixpoint split_on (sep : N) (s : str) : list str :=
  match s with
  | [] => [[]]
  | c :: t =>
      if (c =? sep)%N then [] :: split_on sep t
      else match split_on sep t with
           | w :: ws => (c :: w) :: ws
           | [] => [[c]]
           end
  end.

(** [a.join(sep)] *)
Fixpoint join (sep : str) (ws : list str) : str :=
  match ws with
  | [] => []
  | [w] => w
  | w :: ws' => w ++ sep ++ join sep ws'
  end.

(** [a.slice(0, e)]: a negative [e] counts from the end. *)
Definition slice0 {A} (l : list A) (e : Z) : list A :=
  if (e <? 0)%Z then firstn (Z.to_nat (Z.max 0 (Z.of_nat (length l) + e))) l
  else firstn (Z.to_nat e) l.

(** [s] starts with [w]; the rest of [s] after it. *)
Fixpoint strip_prefix (eqc : N -> N -> bool) (w s : str) : option str :=
  match w, s with
  | [], _ => Some s
  | a :: w', c :: s' => if eqc a c then strip_prefix eqc w' s' else None
  | _ :: _, [] => None
  end.

(** Case-insensitive comparison of a pattern letter with a code unit, as
    the [i] flag does it without the [u] flag: a code unit above 127 is
    never equal to an ASCII letter. *)
Definition eq_ci (a c : N) : bool :=
  (a =? c)%N
  || (is_lower a && (c =? a - 32)%N)
  || (is_upper a && (c =? a + 32)%N).

(** [\s+] at the head of [s], greedy: the rest after the whole run. *)
Definition spaces1 (s : str) : option str :=
  match s with
  | c :: t => if is_space c then Some (drop_while is_space t) else None
  | [] => None
  end.

(** [(w1|w2|...)] followed by the rest [k] of the pattern, at the head of
    [s]: the alternatives are tried in order, and one whose continuation
    fails is given up for the next. *)
Fixpoint alt_then (eqc : N -> N -> bool) (ws : list str)
    (k : str -> option str) (s : str) : option str :=
  match ws with
  | [] => None
  | w :: ws' =>
      match strip_prefix eqc w s with
      | Some r => match k r with
                  | Some r' => Some r'
                  | None => alt_then eqc ws' k s
                  end
      | None => alt_then eqc ws' k s
      end
  end.

(** A matcher is a regular expression tried at one position: it sees the
    code unit before the position ([None] at the start of the string) and
    the text from the position on, and gives the text after the match. *)
Definition matcher := option N -> str -> option str.

(** [s.replace(re, repl)] for a global [re] that matches no empty string:
    the leftmost match is replaced and the scan goes on after it. *)
Fixpoint replace_go (m : matcher) (repl : str) (prev : option N) (s : str)
    (skip : nat) : str :=
  match s with
  | [] => []
  | c :: t =>
      match skip with
      | S k => replace_go m repl (Some c) t k
      | O =>
          match m prev s with
          | Some r =>
              match (length s - length r)%nat with
              | S n => repl ++ replace_go m repl (Some c) t n
              | O => c :: replace_go m repl (Some c) t 0
              end
          | None => c :: replace_go m repl (Some c) t 0
          end
      end
  end.

Definition replace_all (m : matcher) (repl : str) (s : str) : str :=
  replace_go m repl None s 0.

(** [String.prototype.toLowerCase] on the ASCII range. *)
Definition lower_unit (c : N) : N := if is_upper c then (c + 32)%N else c.

Definition is_ascii (c : N) : bool := (c <? 128)%N.

(** What the sources rely on from the platform's [toLowerCase]: on a
    string of ASCII code units it lowers [A-Z] and keeps the rest. *)
Definition lowers_ascii (toLowerCase : str -> str) : Prop :=
  forall s, forallb is_ascii s = true -> toLowerCase s = map lower_unit s.

(** What holds of the platform's [toLowerCase] on every string: no code
    unit of [A-Z] is left in the result. *)
Definition leaves_no_capital (toLowerCase : str -> str) : Prop :=
  forall s, forallb (fun c => negb (is_upper c)) (toLowerCase s) = true.

Definition is_empty (s : str) : bool :=
  match s with [] => true | _ => false end.

(** [a || b] on strings: [b] when [a] is empty. *)
Definition or_else (a b : str) : str := if is_empty a then b else a.

(** [a.length === 0] *)
Definition is_empty_list {A} (l : list A) : bool :=
  match l with [] => true | _ => false end.

(** [[a-z0-9]+] *)
Definition token (w : str) : bool :=
  negb (is_empty w) && forallb is_lower_alnum w.

(** The string matches [^[a-z0-9]+(-[a-z0-9]+)*$]: cut at its hyphens, it
    is one or more pieces, each a non-empty run of [[a-z0-9]]. *)
Definition slug_shape (s : str) : bool := forallb token (split_on hyphen s).

End Js.

(** ** Settings (CONFIG.DEFAULTS of config.js) *)

Module Config.
Import Js.

(** A JavaScript number as [Number.isFinite] sees it: a finite value, or
    anything else (NaN, an infinity, a value that is not a number). *)
Inductive number :=
| Finite (q : Q)
| NotFinite.

Record Settings := {
  hfToken : str;
  model : str;
  maxImageSize : Z;
  minImageSize : Z;
  skipSmallImages : bool;
  cleanCaptions : bool;
  addDateSuffix : bool;
  maxWords : option Z;          (* an integer, or NaN / undefined *)
  enablePdfRenaming : bool;
  pdfMaxChars : option number;  (* [None]: undefined *)
  pdfMaxStreams : option number;
  enableNotifications : bool;
  debug : bool
}.

Definition DEFAULTS : Settings := {|
  hfToken := [];
  model := lit "Qwen/Qwen3-VL-8B-Instruct:fastest";
  maxImageSize := 5 * 1024 * 1024;
  minImageSize := 50 * 1024;
  skipSmallImages := false;
  cleanCaptions := true;
  addDateSuffix := false;
  maxWords := Some 5%Z;
  enablePdfRenaming := true;
  pdfMaxChars := Some (Finite 2500);
  pdfMaxStreams := Some (Finite 12);
  enableNotifications := true;
  debug := false
|}.

(** CONFIG.RATE_LIMIT.maxPerMinute *)
Definition maxPerMinute : Z := 30.

(** CONFIG.IMAGE_TYPES has the keys jpg, jpeg, png, webp and gif. *)
Definition IMAGE_TYPES : list str :=
  [lit "jpg"; lit "jpeg"; lit "png"; lit "webp"; lit "gif"].

End Config.

(** ** captionToFilename of the image-only hf-api.js (src/unnamed/part_002) *)

Module ImageApi.
Import Js Config.

(** [/^(a|an|the)\s+/gi]: only at the start of the string. *)
Definition leading_article : matcher := fun prev s =>
  match prev with
  | Some _ => None
  | None => alt_then eq_ci [lit "a"; lit "an"; lit "the"] spaces1 s
  end.

(** [/\s+(on|in|at|with|by|of)\s+/gi].  The runs of [\s+] are greedy, and
    giving units back never helps: the unit after the first run has to be
    a letter, the one after the second is free. *)
Definition preposition : matcher := fun _ s =>
  match spaces1 s with
  | Some r =>
      alt_then eq_ci
        [lit "on"; lit "in"; lit "at"; lit "with"; lit "by"; lit "of"] spaces1 r
  | None => None
  end.

(** [/\s+(the)\s+/gi] *)
Definition inner_the : matcher := fun _ s =>
  match spaces1 s with
  | Some r => alt_then eq_ci [lit "the"] spaces1 r
  | None => None
  end.

(** [/^-|-$/g] *)
Definition edge_hyphen : matcher := fun prev s =>
  match s with
  | c :: t =>
      if is_hyphen c then
        match prev, t with
        | None, _ => Some t
        | _, [] => Some t
        | _, _ => None
        end
      else None
  | [] => None
  end.

(** The steps of [captionToFilename], in the order of the source; each
    takes the value of [filename] before it and gives the one after. *)

(** Remove common articles if enabled *)
Definition removeArticle (settings : Settings) (filename : str) : str :=
  if cleanCaptions settings then replace_all leading_article [] filename
  else filename.

(** Remove extra words (prepositions, etc) *)
Definition removeExtraWords (filename : str) : str :=
  replace_all inner_the (lit " ")
    (replace_all preposition (lit " ") filename).

(** Convert to kebab-case *)
Definition kebabCase (filename : str) : str :=
  replace_all edge_hyphen []
    (replace_runs is_hyphen (lit "-")
      (replace_runs is_space (lit "-")
        (keep_only (fun c => is_lower_alnum c || is_space c || is_hyphen c)
           filename))).

(** Limit words *)
Definition limitWords (settings : Settings) (filename : str) : str :=
  match maxWords settings with
  | Some n =>
      if (0 <? n)%Z then
        let words := split_on hyphen filename in
        if (n <? Z.of_nat (length words))%Z
        then join (lit "-") (slice0 words n)
        else filename
      else filename
  | None => filename
  end.

(** Limit length *)
Definition limitLength (filename : str) : str :=
  if (60 <? length filename)%nat
  then drop_while_end is_hyphen (firstn 60 filename)
  else filename.

(** Ensure we have something *)
Definition ensureSomething (filename : str) : str :=
  if (length filename <? 2)%nat then lit "image" else filename.

Section Platform.
(** [String.prototype.toLowerCase] *)
Variable toLowerCase : str -> str.
(** [new Date().toISOString().split('T')[0]] at the time of the call. *)
Variable today : str.

(** The value of [filename] just before "Ensure we have something". *)
Definition slugified (caption : str) (settings : Settings) : str :=
  limitLength
    (limitWords settings
      (kebabCase
        (removeExtraWords
          (removeArticle settings (toLowerCase caption))))).

Definition captionToFilename (caption : str) (settings : Settings) : str :=
  let filename := ensureSomething (slugified caption settings) in
  (* Add date suffix if enabled *)
  if addDateSuffix settings then filename ++ lit "-" ++ today
  else filename.

End Platform.

End ImageApi.

(** ** captionToFilename of src/extension/hf-api.js *)

Module HfApi.
Import Js Config.

(** [/\b(a|an|the)\b/g]: the unit before is no word unit, the one after
    the article is none either. *)
Definition article : matcher := fun prev s =>
  if match prev with Some p => is_word p | None => false end then None
  else
    alt_then N.eqb [lit "a"; lit "an"; lit "the"]
      (fun r => match r with
                | c :: _ => if is_word c then None else Some r
                | [] => Some r
                end) s.

(** [settings.maxWords || 5] *)
Definition wordLimit (settings : Settings) : Z :=
  match maxWords settings with
  | Some n => if (n =? 0)%Z then 5%Z else n
  | None => 5%Z
  end.

Section Platform.
(** [String.prototype.toLowerCase] *)
Variable toLowerCase : str -> str.
(** [new Date().toISOString().split('T')[0]] at the time of the call. *)
Variable today : str.

(** The value of [words]. *)
Definition words (caption : str) (settings : Settings) : list str :=
  let text :=
    trim (replace_runs is_space (lit " ")
      (keep_only (fun c => is_word c || is_space c || is_hyphen c)
         (toLowerCase caption))) in
  (* Remove articles if enabled *)
  let text :=
    if cleanCaptions settings
    then trim (replace_runs is_space (lit " ") (replace_all article [] text))
    else text in
  (* Limit words *)
  List.filter (fun w => negb (is_empty w)) (split_on 32 text).

(** The value of [limited]. *)
Definition limited (caption : str) (settings : Settings) : str :=
  join (lit "-") (slice0 (words caption settings) (wordLimit settings)).

Definition captionToFilename (caption : str) (settings : Settings) : str :=
  let limited := limited caption settings in
  (* Add date if enabled *)
  if addDateSuffix settings then limited ++ lit "-" ++ today
  else if is_empty limited then lit "download" else limited.

End Platform.

End HfApi.

(** ** src/extension/pdf-extract.js *)

Module PdfExtract.
Import Js Config.

(** What the extractor uses of the platform.  [DecompressionStream] is
    [None] where the platform has none; the function it holds gives [None]
    when the stream throws or rejects (data that is no zlib stream).  The
    decoders give [None] when they throw. *)
Record Platform := {
  DecompressionStream : option (list N -> option (list N));
  utf8_decode : list N -> option str;
  utf16be_decode : list N -> option str
}.

(** [opts] of [extractPdfPreviewText]; [None] is an absent field. *)
Record Options := {
  maxChars : option number;
  maxStreams : option number
}.

Record Preview := {
  title : str;
  excerpt : str
}.

(** [new TextDecoder('latin1')]: the label selects windows-1252, one code
    unit per byte. *)
Definition windows1252 (b : N) : N :=
  match b with
  | 128 => 8364 | 130 => 8218 | 131 => 402 | 132 => 8222 | 133 => 8230
  | 134 => 8224 | 135 => 8225 | 136 => 710 | 137 => 8240 | 138 => 352
  | 139 => 8249 | 140 => 338 | 142 => 381 | 145 => 8216 | 146 => 8217
  | 147 => 8220 | 148 => 8221 | 149 => 8226 | 150 => 8211 | 151 => 8212
  | 152 => 732 | 153 => 8482 | 154 => 353 | 155 => 8250 | 156 => 339
  | 158 => 382 | 159 => 376
  | _ => b
  end%N.

Definition latin1_decode (bytes : list N) : str := map windows1252 bytes.

(** [s.slice(a, b)] for [0 <= a] and [0 <= b]. *)
Definition slice {A} (l : list A) (a b : nat) : list A :=
  firstn (b - a) (skipn a l).

(** The first [n] elements, [n] a binary number. *)
Fixpoint take_N {A} (n : N) (l : list A) : list A :=
  match l with
  | [] => []
  | x :: t => if (n =? 0)%N then [] else x :: take_N (N.pred n) t
  end.

(** [s] is the text from index [pos] on: the index of the first [pat] in it. *)
Fixpoint find_from (pat s : str) (pos : nat) : option nat :=
  match strip_prefix N.eqb pat s with
  | Some _ => Some pos
  | None =>
      match s with
      | [] => None
      | _ :: t => find_from pat t (S pos)
      end
  end.

(** [s.indexOf(pat, from)], [None] for -1. *)
Definition indexOf (pat s : str) (from : nat) : option nat :=
  find_from pat (skipn from s) from.

(** [s.includes(pat)] *)
Definition includes (pat s : str) : bool :=
  match find_from pat s 0 with Some _ => true | None => false end.

(** The longest prefix of at most [n] units of the class [p], and the rest. *)
Fixpoint span_upto (n : nat) (p : N -> bool) (s : str) : str * str :=
  match n, s with
  | S k, c :: t =>
      if p c then let (a, r) := span_upto k p t in (c :: a, r) else ([], s)
  | _, _ => ([], s)
  end.

(** The leftmost position of [s] where [f] matches. *)
Fixpoint first_match {A} (f : str -> option A) (s : str) : option A :=
  match f s with
  | Some a => Some a
  | None =>
      match s with
      | [] => None
      | _ :: t => first_match f t
      end
  end.

Definition clampInt (n : number) (min max : Z) : Z :=
  let x := match n with
           | Finite q => Qfloor q
           | NotFinite => min
           end in
  Z.max min (Z.min max x).

(** [v ?? d] *)
Definition nullish (v : option number) (d : number) : number :=
  match v with
  | Some n => n
  | None => d
  end.

Definition is_control (c : N) : bool := (c <=? 31)%N.

Definition cleanupText (s : str) : str :=
  trim (replace_runs is_control (lit " ") (replace_runs is_space (lit " ") s)).

Definition isOctalDigit (ch : option N) : bool :=
  match ch with
  | Some c => in_range 48 55 c
  | None => false
  end.

(** [parseInt(oct, 8)] for a string of octal digits. *)
Definition parseOctal (oct : str) : N :=
  fold_left (fun acc d => (acc * 8 + (d - 48))%N) oct 0%N.

(** The loop of [decodePdfLiteralString]: [skip] units are passed over
    first ([i] was moved on by an escape). *)
Fixpoint decodeLiteral_go (skip : nat) (s : str) : str :=
  match s with
  | [] => []
  | ch :: t =>
      match skip with
      | S k => decodeLiteral_go k t
      | O =>
          if negb (ch =? 92)%N then ch :: decodeLiteral_go 0 t
          else
            match t with
            | [] => []
            | next :: t' =>
                if (next =? 110)%N then 10%N :: decodeLiteral_go 1 t
                else if (next =? 114)%N then 13%N :: decodeLiteral_go 1 t
                else if (next =? 116)%N then 9%N :: decodeLiteral_go 1 t
                else if (next =? 98)%N then 8%N :: decodeLiteral_go 1 t
                else if (next =? 102)%N then 12%N :: decodeLiteral_go 1 t
                else if (next =? 92)%N then 92%N :: decodeLiteral_go 1 t
                else if (next =? 40)%N then 40%N :: decodeLiteral_go 1 t
                else if (next =? 41)%N then 41%N :: decodeLiteral_go 1 t
                else if (next =? 10)%N then decodeLiteral_go 1 t
                else if (next =? 13)%N then
                  match t' with
                  | 10%N :: _ => decodeLiteral_go 2 t
                  | _ => decodeLiteral_go 1 t
                  end
                else if isOctalDigit (Some next) then
                  let d2 := match t' with
                            | c2 :: _ => if isOctalDigit (Some c2) then [c2] else []
                            | [] => []
                            end in
                  let d3 := match t' with
                            | _ :: c3 :: _ => if isOctalDigit (Some c3) then [c3] else []
                            | _ => []
                            end in
                  let oct := next :: d2 ++ d3 in
                  parseOctal oct :: decodeLiteral_go (length oct) t
                else next :: decodeLiteral_go 1 t
            end
      end
  end.

Definition decodePdfLiteralString (s : str) : str := decodeLiteral_go 0 s.

Definition is_hex (c : N) : bool :=
  is_digit c || in_range 65 70 c || in_range 97 102 c.

Definition hex_value (c : N) : N :=
  if is_digit c then (c - 48)%N
  else if in_range 65 70 c then (c - 55)%N
  else (c - 87)%N.

(** The bytes of a string of hex digits of even length, a pair each. *)
Fixpoint hex_pairs (hex : str) : list N :=
  match hex with
  | a :: b :: t => (hex_value a * 16 + hex_value b)%N :: hex_pairs t
  | _ => []
  end.

Definition decodePdfHexString (P : Platform) (hex : str) : str :=
  let hex := if Nat.odd (length hex) then hex ++ lit "0" else hex in
  let bytes := hex_pairs hex in
  let utf8_or_latin1 :=
    match utf8_decode P bytes with
    | Some txt =>
        if negb (is_empty txt) && existsb is_alnum txt then txt
        else latin1_decode bytes
    | None => latin1_decode bytes
    end in
  match bytes with
  | 254%N :: 255%N :: rest =>
      match utf16be_decode P rest with
      | Some txt => txt
      | None => utf8_or_latin1
      end
  | _ => utf8_or_latin1
  end.

(** [/^[A-Z]{1,4}\+?[A-Za-z0-9]{2,10}$/.test(s)]: some split of [s] into
    one to four capitals, an optional plus sign, and two to ten letters or
    digits. *)
Definition font_tail (r : str) : bool :=
  (2 <=? length r)%nat && (length r <=? 10)%nat && forallb is_alnum r.

Definition looks_like_font_name (s : str) : bool :=
  existsb
    (fun k =>
       (k <=? length s)%nat && forallb is_upper (firstn k s)
       && (font_tail (skipn k s)
           || match skipn k s with
              | 43%N :: r => font_tail r
              | _ => false
              end))
    [1; 2; 3; 4]%nat.

Definition isUsefulText (s : str) : bool :=
  if is_empty s then false
  else if (length s <? 6)%nat then false
  else
    let alnum := length (List.filter is_alnum s) in
    if (alnum <? Nat.min 6 (length s / 4))%nat then false
    else if looks_like_font_name s then false
    else true.

Definition is_line_terminator (c : N) : bool :=
  (c =? 10)%N || (c =? 13)%N || (c =? 8232)%N || (c =? 8233)%N.

(** [(?:\\.|[^\\()]){0,n}], greedy, at the head of [s]: the units taken,
    how many times the group matched, and the rest.  A backslash starts
    the first alternative only and any other unit the second only, so no
    other way to match exists. *)
Fixpoint literal_items (n : nat) (s : str) : str * nat * str :=
  match n with
  | O => ([], O, s)
  | S k =>
      match s with
      | 92%N :: c :: t =>
          if is_line_terminator c then ([], O, s)
          else let '(a, m, r) := literal_items k t in (92%N :: c :: a, S m, r)
      | c :: t =>
          if (c =? 92)%N || (c =? 40)%N || (c =? 41)%N then ([], O, s)
          else let '(a, m, r) := literal_items k t in (c :: a, S m, r)
      | [] => ([], O, s)
      end
  end.

(** [/\((?:\\.|[^\\()]){3,400}\)/] at the head of [s]: the text between
    the parentheses and the length of the match. *)
Definition literal_at (s : str) : option (str * nat) :=
  match s with
  | 40%N :: r =>
      let '(raw, m, rest) := literal_items 400 r in
      match rest with
      | 41%N :: _ => if (3 <=? m)%nat then Some (raw, (length raw + 2)%nat) else None
      | _ => None
      end
  | _ => None
  end.

(** [/<([0-9A-Fa-f]{8,800})>/] at the head of [s]. *)
Definition hex_at (s : str) : option (str * nat) :=
  match s with
  | 60%N :: r =>
      let (hex, rest) := span_upto 800 is_hex r in
      match rest with
      | 62%N :: _ => if (8 <=? length hex)%nat then Some (hex, (length hex + 2)%nat) else None
      | _ => None
      end
  | _ => None
  end.

(** One [while ((m = re.exec(slice)))] loop of [extractLiteralStrings]:
    [tok] is the expression at one position, [decode] what is done with
    its group.  The loop stops when the results joined are longer than
    3500 units. *)
Fixpoint collect (tok : str -> option (str * nat)) (decode : str -> str)
    (rest : str) (skip : nat) (results : list str) : list str :=
  match rest with
  | [] => results
  | _ :: t =>
      match skip with
      | S k => collect tok decode t k results
      | O =>
          match tok rest with
          | Some (raw, len) =>
              let decoded := cleanupText (decode raw) in
              let results :=
                if isUsefulText decoded then results ++ [decoded] else results in
              if (3500 <? length (join (lit " ") results))%nat then results
              else collect tok decode t (len - 1) results
          | None => collect tok decode t 0 results
          end
      end
  end.

Definition extractLiteralStrings (P : Platform) (streamText : str) : list str :=
  let slice := take_N 400000 streamText in
  let results := collect literal_at decodePdfLiteralString slice 0 [] in
  collect hex_at (decodePdfHexString P) slice 0 results.

(** [/\/Title\s*\(([^)]{1,300})\)/] at the head of [s]: the group. *)
Definition info_title_at (s : str) : option str :=
  match strip_prefix N.eqb (lit "/Title") s with
  | Some r =>
      match drop_while is_space r with
      | 40%N :: r' =>
          let (group, rest) := span_upto 300 (fun c => negb (c =? 41)%N) r' in
          match group, rest with
          | _ :: _, 41%N :: _ => Some group
          | _, _ => None
          end
      | _ => None
      end
  | None => None
  end.

Definition extractInfoTitle (pdfLatin : str) : str :=
  match first_match info_title_at pdfLatin with
  | Some group => decodePdfLiteralString group
  | None => []
  end.

(** The text of [s] before the first [pat], letters compared without case. *)
Fixpoint until_ci (pat s : str) : option str :=
  match strip_prefix eq_ci pat s with
  | Some _ => Some []
  | None =>
      match s with
      | [] => None
      | c :: t => option_map (cons c) (until_ci pat t)
      end
  end.

(** [/<rdf:li[^>]*>([\s\S]*?)<\/rdf:li>/i] at the head of [s]: the group. *)
Definition rdf_li_at (s : str) : option str :=
  match strip_prefix eq_ci (lit "<rdf:li") s with
  | Some r =>
      match drop_while (fun c => negb (c =? 62)%N) r with
      | 62%N :: body => until_ci (lit "</rdf:li>") body
      | _ => None
      end
  | None => None
  end.

(** [/<[^>]*>/g] *)
Definition xml_tag : matcher := fun _ s =>
  match s with
  | 60%N :: r =>
      match drop_while (fun c => negb (c =? 62)%N) r with
      | 62%N :: rest => Some rest
      | _ => None
      end
  | _ => None
  end.

Definition stripXmlTags (xml : str) : str := replace_all xml_tag (lit " ") xml.

(** A global expression that is one literal string. *)
Definition literally (pat : str) : matcher := fun _ s => strip_prefix N.eqb pat s.

Definition decodeHtmlEntities (s : str) : str :=
  replace_all (literally (lit "&#39;")) [39%N]
    (replace_all (literally (lit "&quot;")) [34%N]
      (replace_all (literally (lit "&gt;")) (lit ">")
        (replace_all (literally (lit "&lt;")) (lit "<")
          (replace_all (literally (lit "&amp;")) (lit "&") s)))).

Definition extractXmpTitle (pdfLatin : str) : str :=
  match indexOf (lit "<dc:title") pdfLatin 0 with
  | None => []
  | Some start =>
      match indexOf (lit "</dc:title>") pdfLatin start with
      | None => []
      | Some stop =>
          let snippet := slice pdfLatin start (stop + length (lit "</dc:title>")) in
          let raw := match first_match rdf_li_at snippet with
                     | Some group => group
                     | None => snippet
                     end in
          trim (decodeHtmlEntities (stripXmlTags raw))
      end
  end.

(** [/stream\r?\n/] at the head of [s]: the length of the match. *)
Definition stream_keyword (s : str) : option nat :=
  match strip_prefix N.eqb (lit "stream") s with
  | Some (13%N :: 10%N :: _) => Some 8%nat
  | Some (10%N :: _) => Some 7%nat
  | _ => None
  end.

(** The variables of the loop of [extractTextFromEarlyStreams]. *)
Record Scan := {
  out : list str;
  total : Z;
  streamsSeen : Z
}.

Definition seen (st : Scan) : Scan :=
  {| out := out st; total := total st; streamsSeen := streamsSeen st + 1 |}.

Section Streams.
Variable P : Platform.
Variable bytes : list N.
Variable pdfLatin : str.
Variable maxChars maxStreams : Z.

(** [inflateFlate]: [null] when the platform has no [DecompressionStream]
    or when it fails. *)
Definition inflateFlate (u8 : list N) : option (list N) :=
  match DecompressionStream P with
  | None => None
  | Some inflate => inflate u8
  end.

(** The body of the loop for the keyword at [streamKeywordIdx], matched
    over [len] units, its [endstream] at [endstreamIdx]. *)
Definition readStream (streamKeywordIdx len endstreamIdx : nat) (st : Scan) : Scan :=
  let dataStart := (streamKeywordIdx + len)%nat in
  let dictStart := (streamKeywordIdx - 2500)%nat in
  let dictChunk := slice pdfLatin dictStart streamKeywordIdx in
  let isFlate := includes (lit "/FlateDecode") dictChunk in
  let rawStreamBytes := slice bytes dataStart endstreamIdx in
  let decodedBytes :=
    if isFlate then
      match inflateFlate rawStreamBytes with
      | Some (b :: inflated) => Some (b :: inflated)
      | _ => None
      end
    else Some rawStreamBytes in
  match decodedBytes with
  | None => seen st
  | Some decodedBytes =>
      let streamText := latin1_decode decodedBytes in
      let strings := extractLiteralStrings P streamText in
      let joined := join (lit " ") strings in
      if negb (is_empty_list strings) && (30 <? length joined)%nat
      then seen {| out := out st ++ [joined];
                   total := total st + Z.of_nat (length joined) + 1;
                   streamsSeen := streamsSeen st |}
      else seen st
  end.

(** The loop: [rest] is the text from index [pos] on, [skip] the units of
    the last match still to pass. *)
Fixpoint scanStreams (rest : str) (pos skip : nat) (st : Scan) : Scan :=
  match rest with
  | [] => st
  | _ :: t =>
      match skip with
      | S k => scanStreams t (S pos) k st
      | O =>
          match stream_keyword rest with
          | None => scanStreams t (S pos) 0 st
          | Some len =>
              if (streamsSeen st <? maxStreams)%Z && (total st <? maxChars)%Z then
                match indexOf (lit "endstream") pdfLatin (pos + len) with
                | None => st
                | Some endstreamIdx =>
                    scanStreams t (S pos) (len - 1)
                      (readStream pos len endstreamIdx st)
                end
              else st
          end
      end
  end.

Definition extractTextFromEarlyStreams : str :=
  join (lit " ")
    (out (scanStreams pdfLatin 0 0 {| out := []; total := 0; streamsSeen := 0 |})).

End Streams.

Definition effectiveMaxChars (opts : Options) : Z :=
  clampInt (nullish (maxChars opts) (Finite 2500)) 200 12000.

Definition effectiveMaxStreams (opts : Options) : Z :=
  clampInt (nullish (maxStreams opts) (Finite 12)) 1 100.

Definition extractPdfPreviewText (P : Platform) (pdfArrayBuffer : list N)
    (opts : Options) : Preview :=
  let maxChars := effectiveMaxChars opts in
  let maxStreams := effectiveMaxStreams opts in
  let bytes := pdfArrayBuffer in
  let latin := latin1_decode bytes in
  let title :=
    firstn 200
      (cleanupText (or_else (extractXmpTitle latin) (extractInfoTitle latin))) in
  let excerpt :=
    firstn (Z.to_nat maxChars)
      (extractTextFromEarlyStreams P bytes latin maxChars maxStreams) in
  {| title := title; excerpt := cleanupText excerpt |}.

End PdfExtract.

(** ** The background service worker (src/unnamed/part_005) *)

Module Background.
Import Js Config.
Local Open Scope Z_scope.

(** The errors thrown in the worker, by the place that throws them. *)
Inductive Error :=
| TokenNotConfigured
| RateLimitReached (seconds : Z)
| FetchFailed (status : Z)
| FileTooLarge (byteLength maxSize : Z)
| Thrown (message : str).

Inductive Result (A : Type) :=
| Ok (a : A)
| Err (e : Error).
Arguments Ok {A} a.
Arguments Err {A} e.

Record DownloadItem := {
  filename : str;
  url : str;
  finalUrl : str;
  mime : str
}.

Inductive FileType := image | pdf.

(** What a flow hands to [addToHistory]; [None] is a key the object does
    not have.  The key [filename] of a failure is [failedFilename] here. *)
Record Entry := {
  success : bool;
  original : option str;
  renamed : option str;
  caption : option str;
  error : option Error;
  failedFilename : option str;
  fileType : option FileType;
  pdfTitle : option str;
  source : str
}.

(** An entry as stored: [{...entry, id: Date.now(), timestamp: Date.now()}]. *)
Record HistoryEntry := {
  entry : Entry;
  id : Z;
  timestamp : Z
}.

Record Stats := {
  totalRenames : Z;
  successful : Z;
  failed : Z;
  bySource : gmap string Z
}.

(** The text of a notification: a string, or the message of an error. *)
Inductive Message :=
| Text (s : str)
| ErrorMessage (e : Error).

(** What a flow does to the world outside the worker, call by call. *)
Inductive Effect :=
| StorageSetHistory (entries : list HistoryEntry)
| StorageSetStats (stats : Stats)
| SetBadgeText (text : str)
| SetBadgeBackgroundColor (color : str)
| ClearBadgeLater
| CreateNotification (title : str) (message : Message)
| FetchFile (url : str)
| PrepareImage
| CaptionImage (imageBase64 : str)
| NameFromText (prompt : str).

(** The two module variables of the rate limiter. *)
Record RateLimiter := {
  requestCount : Z;
  requestTimestamp : Z
}.

(** The state the flows read and write: the limiter, the two keys of
    chrome.storage.local, and the calls made so far, the oldest first. *)
Record State := {
  limiter : RateLimiter;
  history : list HistoryEntry;
  stats : option Stats;
  effects : list Effect
}.

(** The answer of [fetch(url)]: it throws, or gives a response. *)
Inductive FetchResult :=
| FetchThrows (message : str)
| Response (ok : bool) (status : Z) (body : list N).

(** What one rename gets from outside: the stored settings, the clock, and
    the collaborators' answers. *)
Record World := {
  settings : Settings;
  now : Z;          (* Date.now() when the rate limit is checked *)
  writeTime : Z;    (* Date.now() when the history entry is made *)
  today : str;      (* new Date().toISOString().split('T')[0] *)
  toLowerCase : str -> str;
  fetch : str -> FetchResult;
  prepareImageForAPI : list N -> Result str;
  captionImage : str -> Settings -> Result str;
  nameFromText : str -> Settings -> Result str;
  hostname : str -> option str;
  pdfPlatform : PdfExtract.Platform
}.

(** *** The rate limiter *)

(** [Math.ceil(waitTime / 1000)] *)
Definition ceil_seconds (waitTime : Z) : Z := - ((- waitTime) / 1000).

Definition checkRateLimit (now : Z) (l : RateLimiter) : Result unit * RateLimiter :=
  let elapsed := now - requestTimestamp l in
  (* Reset counter every minute *)
  let l := if 60000 <? elapsed
           then {| requestCount := 0; requestTimestamp := now |}
           else l in
  (* Check limit *)
  if maxPerMinute <=? requestCount l then
    let waitTime := 60000 - elapsed in
    (Err (RateLimitReached (ceil_seconds waitTime)), l)
  else
    (Ok tt, {| requestCount := requestCount l + 1;
               requestTimestamp := requestTimestamp l |}).

(** *** Computations in the worker: a state, and a result or an error *)

Definition M (A : Type) : Type := State -> Result A * State.

Definition ret {A} (a : A) : M A := fun st => (Ok a, st).

Definition throw {A} (e : Error) : M A := fun st => (Err e, st).

Definition bind {A B} (c : M A) (k : A -> M B) : M B :=
  fun st =>
    match c st with
    | (Ok a, st') => k a st'
    | (Err e, st') => (Err e, st')
    end.

(** [try { body } catch (error) { handler }] *)
Definition try_catch {A} (body : M A) (handler : Error -> M A) : M A :=
  fun st =>
    match body st with
    | (Ok a, st') => (Ok a, st')
    | (Err e, st') => handler e st'
    end.

Definition emit (e : Effect) : M unit :=
  fun st =>
    (Ok tt, {| limiter := limiter st; history := history st; stats := stats st;
               effects := effects st ++ [e] |}).

Definition lift {A} (r : Result A) : M A := fun st => (r, st).

Notation "'do' x <- c ; k" := (bind c (fun x => k))
  (at level 10, x name, c at level 100, k at level 200).

Section Worker.
Variable W : World.

Definition addToHistory (entry : Entry) : M unit :=
  fun st =>
    let stored :=
      {| entry := entry; id := writeTime W; timestamp := writeTime W |} in
    (* Keep last 100 *)
    let trimmed := firstn 100 (stored :: history st) in
    emit (StorageSetHistory trimmed)
      {| limiter := limiter st; history := trimmed; stats := stats st;
         effects := effects st |}.

(** [bySource] is a plain object read as a map from method names to
    counts.  The workers pass the names 'hf-api', 'hf-api-image',
    'hf-api-pdf' and 'error';
    a name that [Object.prototype] defines, such as 'constructor', would
    read the inherited member in place of a count, which the map leaves
    out. *)
Definition updateStats (success : bool) (method : string) : M unit :=
  fun st =>
    let s := match stats st with
             | Some s => s
             | None => {| totalRenames := 0; successful := 0; failed := 0;
                          bySource := ∅ |}
             end in
    let s := {| totalRenames := totalRenames s + 1;
                successful := if success then successful s + 1 else successful s;
                failed := if success then failed s else failed s + 1;
                bySource := <[method := default 0 (bySource s !! method) + 1]>
                              (bySource s) |} in
    emit (StorageSetStats s)
      {| limiter := limiter st; history := history st; stats := Some s;
         effects := effects st |}.

(** [CONFIG.IMAGE_TYPES[ext]] is truthy: for the five keys of the table, and
    for the two lower-case names every object inherits. *)
Definition isImageType (ext : str) : bool :=
  existsb (str_eqb ext) (IMAGE_TYPES ++ [lit "constructor"; lit "__proto__"]).

(** [a.pop()] of a split: its last piece. *)
Definition pop (pieces : list str) : str := List.last pieces [].

Definition getImageExtension (downloadItem : DownloadItem) : str :=
  let name := toLowerCase W (filename downloadItem) in
  let ext := pop (split_on 46 name) in
  if isImageType ext then ext
  else
    (* Fallback to MIME *)
    let mime := toLowerCase W (mime downloadItem) in
    if str_eqb mime (lit "image/jpeg") then lit "jpg"
    else if str_eqb mime (lit "image/png") then lit "png"
    else if str_eqb mime (lit "image/webp") then lit "webp"
    else if str_eqb mime (lit "image/gif") then lit "gif"
    else lit "jpg".

Definition consumeRateLimit : M unit :=
  fun st =>
    let (r, l) := checkRateLimit (now W) (limiter st) in
    (r, {| limiter := l; history := history st; stats := stats st;
           effects := effects st |}).

Definition fetchFile (url : str) (maxSize : Z) : M (list N) :=
  do _ <- emit (FetchFile url);
  match fetch W url with
  | FetchThrows message => throw (Thrown message)
  | Response ok status body =>
      if negb ok then throw (FetchFailed status)
      else if maxSize <? Z.of_nat (length body)
           then throw (FileTooLarge (Z.of_nat (length body)) maxSize)
      else ret body
  end.

Definition notify (title : str) (message : Message) : M unit :=
  if enableNotifications (settings W) then emit (CreateNotification title message)
  else ret tt.

Definition updateBadge (text color : str) : M unit :=
  do _ <- emit (SetBadgeText text);
  do _ <- (if is_empty color then ret tt else emit (SetBadgeBackgroundColor color));
  if is_empty text then ret tt else emit ClearBadgeLater.

Definition safeHostname (url : str) : str :=
  if is_empty url then lit "unknown"
  else match hostname W url with
       | Some h => h
       | None => lit "unknown"
       end.

(** [downloadItem.finalUrl || downloadItem.url] *)
Definition itemUrl (downloadItem : DownloadItem) : str :=
  if is_empty (finalUrl downloadItem) then url downloadItem
  else finalUrl downloadItem.

(** The signs of the badge and of the notification titles, as the file
    holds them: the UTF-8 bytes of U+2713, U+2717 and U+26A0 read as
    windows-1252, three code units each. *)
Definition check_mark : str := [226; 339; 8220]%N.
Definition cross_mark : str := [226; 339; 8212]%N.
Definition warning_sign : str := [226; 353; 160]%N.

Definition failureEntry (e : Error) (downloadItem : DownloadItem) (t : FileType)
    : Entry :=
  {| success := false; original := None; renamed := None; caption := None;
     error := Some e; failedFilename := Some (filename downloadItem);
     fileType := Some t; pdfTitle := None;
     source := safeHostname (itemUrl downloadItem) |}.

(** The [catch] block of both flows. *)
Definition recordFailure (e : Error) (downloadItem : DownloadItem) (t : FileType)
    : M (option str) :=
  do _ <- addToHistory (failureEntry e downloadItem t);
  do _ <- updateStats false "error";
  do _ <- updateBadge cross_mark (lit "#CC0000");
  do _ <- notify (warning_sign ++ lit " Rename Failed") (ErrorMessage e);
  ret None.

(** [captionToFilename] as imported from ./hf-api.js, the one of
    src/extension that exports [nameFromText] too. *)
Definition captionToFilename : str -> Settings -> str :=
  HfApi.captionToFilename (toLowerCase W) (today W).

(** *** The image flow *)

Definition renameImage (downloadItem : DownloadItem) : M (option str) :=
  let settings := settings W in
  let url := itemUrl downloadItem in
  let ext := getImageExtension downloadItem in
  try_catch
    (do _ <- (if is_empty (hfToken settings) then throw TokenNotConfigured
              else ret tt);
     do _ <- consumeRateLimit;
     do _ <- updateBadge (lit "...") (lit "#0066CC");
     (* Fetch image *)
     do imageBuffer <- fetchFile url (maxImageSize settings);
     (* Check minimum size *)
     if skipSmallImages settings
        && (Z.of_nat (length imageBuffer) <? minImageSize settings)
     then ret None
     else
       (* Prepare for API (resize, optimize) *)
       do _ <- emit PrepareImage;
       do imageBase64 <- lift (prepareImageForAPI W imageBuffer);
       (* Call AI *)
       do _ <- emit (CaptionImage imageBase64);
       do caption <- lift (captionImage W imageBase64 settings);
       (* Convert to filename *)
       let basename := captionToFilename caption settings in
       let finalName := basename ++ lit "." ++ ext in
       (* Save to history *)
       do _ <- addToHistory
                 {| success := true; original := Some (filename downloadItem);
                    renamed := Some finalName; caption := Some caption;
                    error := None; failedFilename := None;
                    fileType := Some image;
                    pdfTitle := None; source := safeHostname url |};
       do _ <- updateStats true "hf-api-image";
       do _ <- updateBadge check_mark (lit "#00AA00");
       do _ <- notify (check_mark ++ lit " Image Renamed")
                 (Text (basename ++ [10%N] ++ lit "(" ++ caption ++ lit ")"));
       ret (Some finalName))
    (fun e => recordFailure e downloadItem image).

(** *** The PDF flow *)

(** [name.split(/[\\/]/).pop() || name] *)
Fixpoint afterLastSeparator_go (s : str) (acc : str) : str :=
  match s with
  | [] => acc
  | c :: t =>
      if (c =? 92)%N || (c =? 47)%N then afterLastSeparator_go t []
      else afterLastSeparator_go t (acc ++ [c])
  end.

(** [base.replace(/\.[^.]+$/, '')] *)
Fixpoint dropExtension (s : str) : str :=
  match s with
  | [] => []
  | c :: t =>
      if (c =? 46)%N && negb (is_empty t) && forallb (fun d => negb (d =? 46)%N) t
      then []
      else c :: dropExtension t
  end.

Definition stripExtension (name : str) : str :=
  let base := or_else (afterLastSeparator_go name []) name in
  dropExtension base.

Definition decimal (z : Z) : str := lit (pretty.pretty z).

Definition buildPdfPrompt (title excerpt originalFilename : str) (maxWords : Z) : str :=
  let safeTitle := firstn 200 title in
  let safeExcerpt := firstn 2500 excerpt in
  let nl := [10%N] in
  let quote := [34%N] in
  trim
    (nl ++ lit "Create a short, descriptive filename for a PDF." ++ nl
     ++ lit "Rules:" ++ nl
     ++ lit "- Output ONLY the filename words (no extension, no quotes, no extra text)." ++ nl
     ++ lit "- " ++ decimal (maxWords - 1) ++ lit " to " ++ decimal (maxWords + 2)
     ++ lit " words is OK; keep it short." ++ nl
     ++ lit "- Prefer document title, topic, company name, invoice/reference numbers, and dates if present." ++ nl
     ++ lit "- Avoid generic words like " ++ quote ++ lit "document" ++ quote ++ lit ", "
     ++ quote ++ lit "file" ++ quote ++ lit ", " ++ quote ++ lit "scan" ++ quote
     ++ lit " unless nothing else exists." ++ nl
     ++ lit "- Use plain English words. No emojis." ++ nl
     ++ nl
     ++ lit "Original filename (hint): " ++ originalFilename ++ nl
     ++ nl
     ++ lit "Title (if available): " ++ safeTitle ++ nl
     ++ nl
     ++ lit "Extracted text excerpt (from the beginning): " ++ safeExcerpt ++ nl).

Definition renamePdf (downloadItem : DownloadItem) : M (option str) :=
  let settings := settings W in
  let url := itemUrl downloadItem in
  try_catch
    (if negb (enablePdfRenaming settings) then ret None
     else
       do _ <- (if is_empty (hfToken settings) then throw TokenNotConfigured
                else ret tt);
       do _ <- consumeRateLimit;
       do _ <- updateBadge (lit "PDF") (lit "#6A1B9A");
       (* Fetch PDF (respect 5MB limit) *)
       do pdfBuffer <- fetchFile url (maxImageSize settings);
       (* Extract text locally (no PDF upload) *)
       let preview :=
         PdfExtract.extractPdfPreviewText (pdfPlatform W) pdfBuffer
           {| PdfExtract.maxChars := pdfMaxChars settings;
              PdfExtract.maxStreams := pdfMaxStreams settings |} in
       let title := PdfExtract.title preview in
       let excerpt := PdfExtract.excerpt preview in
       let originalBase :=
         stripExtension (or_else (filename downloadItem) (lit "document")) in
       let prompt :=
         buildPdfPrompt title excerpt originalBase (HfApi.wordLimit settings) in
       do _ <- emit (NameFromText prompt);
       do suggestion <- lift (nameFromText W prompt settings);
       let basename := captionToFilename suggestion settings in
       let finalName := basename ++ lit ".pdf" in
       do _ <- addToHistory
                 {| success := true; original := Some (filename downloadItem);
                    renamed := Some finalName; caption := Some suggestion;
                    error := None; failedFilename := None;
                    fileType := Some pdf;
                    pdfTitle := Some title; source := safeHostname url |};
       do _ <- updateStats true "hf-api-pdf";
       do _ <- updateBadge check_mark (lit "#00AA00");
       do _ <- notify (check_mark ++ lit " PDF Renamed")
                 (Text (basename ++ [10%N] ++ lit "("
                        ++ or_else title (lit "PDF") ++ lit ")"));
       ret (Some finalName))
    (fun e => recordFailure e downloadItem pdf).

End Worker.

End Background.

(** ** The image-only service worker (src/unnamed/part_006)

    Its helpers [addToHistory], [updateStats], [checkRateLimit], [notify]
    and [updateBadge] are those of the worker above, word for word; its
    [captionToFilename] is the one of the image-only hf-api.js. *)

Module ImageBackground.
Import Js Config Background.
Local Open Scope Z_scope.

Section Worker.
Variable W : World.

Definition captionToFilename : str -> Settings -> str :=
  ImageApi.captionToFilename (toLowerCase W) (today W).

(** The signs of the badge and of the notification titles: U+2713, U+2717
    and U+26A0. *)
Definition check_mark : str := [10003%N].
Definition cross_mark : str := [10007%N].
Definition warning_sign : str := [9888%N].

(** [new URL(url).hostname], which throws on a string that is no URL. *)
Definition urlHostname (url : str) : M str :=
  match hostname W url with
  | Some h => ret h
  | None => throw (Thrown (lit "Invalid URL"))
  end.

Definition renameImage (downloadItem : DownloadItem) : M (option str) :=
  let settings := settings W in
  let url := itemUrl downloadItem in
  let ext := getImageExtension W downloadItem in
  try_catch
    (* Check if token configured *)
    (do _ <- (if is_empty (hfToken settings) then throw TokenNotConfigured
              else ret tt);
     (* Check rate limit *)
     do _ <- consumeRateLimit W;
     (* Show processing *)
     do _ <- updateBadge (lit "...") (lit "#0066CC");
     (* Fetch image *)
     do imageBuffer <- fetchFile W url (maxImageSize settings);
     (* Check minimum size *)
     if skipSmallImages settings
        && (Z.of_nat (length imageBuffer) <? minImageSize settings)
     then ret None
     else
       do _ <- emit PrepareImage;
       do imageBase64 <- lift (prepareImageForAPI W imageBuffer);
       do _ <- emit (CaptionImage imageBase64);
       do caption <- lift (captionImage W imageBase64 settings);
       (* Convert to filename *)
       let basename := captionToFilename caption settings in
       let finalName := basename ++ lit "." ++ ext in
       (* Save to history *)
       do host <- urlHostname url;
       do _ <- addToHistory W
                 {| success := true; original := Some (filename downloadItem);
                    renamed := Some finalName; caption := Some caption;
                    error := None; failedFilename := None; fileType := None;
                    pdfTitle := None; source := host |};
       (* Update stats *)
       do _ <- updateStats true "hf-api";
       (* Show success *)
       do _ <- updateBadge check_mark (lit "#00AA00");
       do _ <- notify W (check_mark ++ lit " Image Renamed")
                 (Text (basename ++ [10%N] ++ lit "(" ++ caption ++ lit ")"));
       ret (Some finalName))
    (fun e =>
       do host <- (if is_empty url then ret (lit "unknown") else urlHostname url);
       do _ <- addToHistory W
                 {| success := false; original := None; renamed := None;
                    caption := None; error := Some e;
                    failedFilename := Some (filename downloadItem);
                    fileType := None; pdfTitle := None; source := host |};
       do _ <- updateStats false "error";
       do _ <- updateBadge cross_mark (lit "#CC0000");
       do _ <- notify W (warning_sign ++ lit " Rename Failed") (ErrorMessage e);
       ret None).

End Worker.

End ImageBackground.

(** ** Automata used in the proofs about slugs *)

Module SlugAutomaton.
Import Js.

(** Reads [s] as the rest of a slug; [need] tells that a unit of
    [[a-z0-9]] has to come next (at the start, and after a hyphen). *)
Fixpoint accepts (need : bool) (s : str) : bool :=
  match s with
  | [] => negb need
  | c :: t =>
      if is_hyphen c then negb need && accepts true t
      else is_lower_alnum c && accepts false t
  end.

(** The same without the condition at the end: [s] may stop on a hyphen. *)
Fixpoint prefix_ok (need : bool) (s : str) : bool :=
  match s with
  | [] => true
  | c :: t =>
      if is_hyphen c then negb need && prefix_ok true t
      else is_lower_alnum c && prefix_ok false t
  end.

(** The pieces between hyphens, read with the first piece already begun
    ([need = false]) or not. *)
Definition pieces_ok (need : bool) (ws : list str) : bool :=
  match ws with
  | w :: ws' => (if need then token w else forallb is_lower_alnum w)
                && forallb token ws'
  | [] => false
  end.

(** The units kept by the kebab-case step, and those left after it. *)
Definition kebab_unit (c : N) : bool :=
  is_lower_alnum c || is_space c || is_hyphen c.

Definition slug_unit (c : N) : bool := is_lower_alnum c || is_hyphen c.

(** Empty, or of the shape of a slug. *)
Definition blank_or_slug (s : str) : Prop := s = [] \/ slug_shape s = true.

(** The code units that can stay in the result of extension/hf-api.js:
    [[A-Za-z0-9_-]]. *)
Definition hf_unit (c : N) : bool := is_word c || is_hyphen c.

Definition hf_unit_or_blank (c : N) : bool := hf_unit c || (c =? 32)%N.

(** Those of them that are no capitals: [[a-z0-9_-]]. *)
Definition hf_lower_unit (c : N) : bool :=
  is_lower_alnum c || (c =? 95)%N || is_hyphen c.

(** Neither a hyphen nor an underscore. *)
Definition no_joiner (c : N) : bool := negb (is_hyphen c || (c =? 95)%N).

(** The code units of [[a-z0-9]], one by one. *)
Definition lower_alnums : list N :=
  map N.of_nat (seq 48 10 ++ seq 97 26).

(** The text behind the first word of a caption: a space before each
    of the words. *)
Definition spaced (ws : list str) : str := flat_map (fun w => 32%N :: w) ws.

(** A word that extension/hf-api.js leaves as it is: lower-case letters
    and digits, and none of the articles. *)
Definition plain_word (w : str) : bool :=
  token w && negb (existsb (str_eqb w) [lit "a"; lit "an"; lit "the"]).

End SlugAutomaton.

(** ** What the claims are stated with *)

Module Observe.
Import Js Config Background.
Local Open Scope Z_scope.

Definition isHistoryWrite (e : Effect) : bool :=
  match e with StorageSetHistory _ => true | _ => false end.

Definition isStatsWrite (e : Effect) : bool :=
  match e with StorageSetStats _ => true | _ => false end.

(** How many times the history, and the stats, were stored by the calls [es]. *)
Definition historyWrites (es : list Effect) : nat :=
  length (List.filter isHistoryWrite es).

Definition statsWrites (es : list Effect) : nat :=
  length (List.filter isStatsWrite es).

(** From [st] to [st'] calls were made that store neither the history
    nor the stats, and both are as they were. *)
Definition quietly (st st' : State) : Prop :=
  exists calls,
    effects st' = effects st ++ calls /\
    historyWrites calls = 0%nat /\ statsWrites calls = 0%nat /\
    history st' = history st /\ stats st' = stats st.

(** From [st] to [st'] the history was stored once and the stats once, and
    the new entry, the first of the history kept, has [success = ok]; a
    successful one holds the name [name]. *)
Definition once (ok : bool) (name : option str) (st st' : State) : Prop :=
  exists calls e,
    effects st' = effects st ++ calls /\
    historyWrites calls = 1%nat /\ statsWrites calls = 1%nat /\
    history st' = firstn 100 (e :: history st) /\
    success (entry e) = ok /\ (ok = true -> renamed (entry e) = name).

(** One rename, from [st] with the result and the state [run], recorded
    its outcome once: a returned name with an entry of [success: true], and
    [null] with an entry of [success: false].  Only where [may_skip] holds,
    [null] may also come with nothing recorded.  The rename never rejects. *)
Definition recordedOnce (may_skip : bool) (st : State)
    (run : Result (option str) * State) : Prop :=
  match run with
  | (Ok (Some name), st') => once true (Some name) st st'
  | (Ok None, st') =>
      once false None st st' \/ (may_skip = true /\ quietly st st')
  | (Err _, _) => False
  end.

(** The image flow for [downloadItem] from [st] comes to the check of the
    minimum size and skips the image there: a token is set, the rate
    limiter lets the call pass, the file is fetched within the size limit,
    [skipSmallImages] is on and the file has fewer bytes than
    [minImageSize]. *)
Definition skipsSmallImage (W : World) (st : State) (downloadItem : DownloadItem)
    : bool :=
  negb (is_empty (hfToken (settings W)))
  && match fst (checkRateLimit (now W) (limiter st)) with
     | Ok _ => true
     | Err _ => false
     end
  && match fetch W (itemUrl downloadItem) with
     | Response true _ body =>
         negb (maxImageSize (settings W) <? Z.of_nat (length body))
         && skipSmallImages (settings W)
         && (Z.of_nat (length body) <? minImageSize (settings W))
     | _ => false
     end.

(** One rename, from [st] with the result and the state [run], where
    [skip] tells whether the flow takes its skip: if it does, [null] is
    returned and nothing is recorded; if it does not, the outcome is
    recorded once, a returned name with an entry of [success: true] under
    that name and [null] with an entry of [success: false].  The rename
    never rejects. *)
Definition recordedExactly (skip : bool) (st : State)
    (run : Result (option str) * State) : Prop :=
  match run with
  | (Ok (Some name), st') => skip = false /\ once true (Some name) st st'
  | (Ok None, st') => if skip then quietly st st' else once false None st st'
  | (Err _, _) => False
  end.

(** The body of the [try] under the same reading: an error leaves nothing
    recorded yet, and is no skip. *)
Definition bodyExactly (skip : bool) (st : State)
    (run : Result (option str) * State) : Prop :=
  match run with
  | (Ok (Some name), st') => skip = false /\ once true (Some name) st st'
  | (Ok None, st') => skip = true /\ quietly st st'
  | (Err _, st') => skip = false /\ quietly st st'
  end.

(** The same for the body of the [try]: an error leaves nothing recorded
    yet. *)
Definition bodyOutcome (may_skip : bool) (st : State)
    (run : Result (option str) * State) : Prop :=
  match run with
  | (Ok (Some name), st') => once true (Some name) st st'
  | (Ok None, st') => may_skip = true /\ quietly st st'
  | (Err _, st') => quietly st st'
  end.

(** A computation that stores nothing, from any state. *)
Definition quiet {A} (c : M A) : Prop := forall st, quietly st (snd (c st)).

(** [checkRateLimit] called at each of [times] in turn: whether every call
    passed, and the limiter after the last. *)
Fixpoint callsAt (times : list Z) (l : RateLimiter) : bool * RateLimiter :=
  match times with
  | [] => (true, l)
  | t :: times' =>
      match checkRateLimit t l with
      | (Ok _, l') => callsAt times' l'
      | (Err _, l') => (false, l')
      end
  end.

(** The method names the workers pass to [updateStats]. *)
Definition methods : list string :=
  ["hf-api"; "hf-api-image"; "hf-api-pdf"; "error"]%string.

(** The stats as [updateStats] reads them: zero where none are stored. *)
Definition currentStats (st : State) : Stats :=
  match stats st with
  | Some s => s
  | None => {| totalRenames := 0; successful := 0; failed := 0; bySource := ∅ |}
  end.

(** The hyphen-separated words of a slug. *)
Definition wordCount (slug : str) : nat := length (split_on hyphen slug).

(** The image flow for [downloadItem] gets as far as the model, and the
    model answers [caption]: a token is set, the rate limiter lets the call
    pass, the file is fetched within the size limit and is not skipped as
    small, and the image is prepared. *)
Definition modelAnswers (W : World) (st : State) (downloadItem : DownloadItem)
    (caption : str) : Prop :=
  hfToken (settings W) <> [] /\
  fst (checkRateLimit (now W) (limiter st)) = Ok tt /\
  exists status body imageBase64,
    fetch W (itemUrl downloadItem) = Response true status body /\
    (maxImageSize (settings W) <? Z.of_nat (length body)) = false /\
    skipSmallImages (settings W)
      && (Z.of_nat (length body) <? minImageSize (settings W)) = false /\
    prepareImageForAPI W body = Ok imageBase64 /\
    captionImage W imageBase64 (settings W) = Ok caption.


End Observe.

(** ** Inputs of the examples *)

Module Examples.
Import Js Config Background.
Local Open Scope Z_scope.

(** A [toLowerCase] that lowers [A-Z] and keeps every other code unit. *)
Definition ascii_toLowerCase : str -> str := map lower_unit.

(** The defaults with a token and [{cleanCaptions: true, maxWords: 4}]. *)
Definition test_settings : Settings := {|
  hfToken := lit "hf_token";
  model := model DEFAULTS;
  maxImageSize := maxImageSize DEFAULTS;
  minImageSize := minImageSize DEFAULTS;
  skipSmallImages := false;
  cleanCaptions := true;
  addDateSuffix := false;
  maxWords := Some 4;
  enablePdfRenaming := true;
  pdfMaxChars := pdfMaxChars DEFAULTS;
  pdfMaxStreams := pdfMaxStreams DEFAULTS;
  enableNotifications := true;
  debug := false
|}.

(** The defaults with [addDateSuffix] on. *)
Definition dated_settings : Settings := {|
  hfToken := lit "hf_token";
  model := model DEFAULTS;
  maxImageSize := maxImageSize DEFAULTS;
  minImageSize := minImageSize DEFAULTS;
  skipSmallImages := false;
  cleanCaptions := true;
  addDateSuffix := true;
  maxWords := Some 5;
  enablePdfRenaming := true;
  pdfMaxChars := pdfMaxChars DEFAULTS;
  pdfMaxStreams := pdfMaxStreams DEFAULTS;
  enableNotifications := true;
  debug := false
|}.

(** The same with [skipSmallImages] on. *)
Definition skipping_settings : Settings := {|
  hfToken := lit "hf_token";
  model := model DEFAULTS;
  maxImageSize := maxImageSize DEFAULTS;
  minImageSize := minImageSize DEFAULTS;
  skipSmallImages := true;
  cleanCaptions := true;
  addDateSuffix := false;
  maxWords := Some 4;
  enablePdfRenaming := false;
  pdfMaxChars := pdfMaxChars DEFAULTS;
  pdfMaxStreams := pdfMaxStreams DEFAULTS;
  enableNotifications := true;
  debug := false
|}.

(** A platform with no [DecompressionStream] and decoders that throw. *)
Definition bare_platform : PdfExtract.Platform := {|
  PdfExtract.DecompressionStream := None;
  PdfExtract.utf8_decode := fun _ => None;
  PdfExtract.utf16be_decode := fun _ => None
|}.

(** A world where every collaborator answers: the file has three bytes,
    the model says [caption]. *)
Definition test_world (s : Settings) (caption : str) : World := {|
  settings := s;
  now := 1700000000000;
  writeTime := 1700000002000;
  today := lit "2024-01-01";
  toLowerCase := ascii_toLowerCase;
  fetch := fun _ => Response true 200 [255; 216; 255]%N;
  prepareImageForAPI := fun _ => Ok (lit "/9j/");
  captionImage := fun _ _ => Ok caption;
  nameFromText := fun _ _ => Ok caption;
  hostname := fun _ => Some (lit "example.com");
  pdfPlatform := bare_platform
|}.

Definition fresh_state : State := {|
  limiter := {| requestCount := 0; requestTimestamp := 1700000000000 |};
  history := [];
  stats := None;
  effects := []
|}.

Definition photo : DownloadItem := {|
  filename := lit "photo123.jpg";
  url := lit "https://example.com/photo123.jpg";
  finalUrl := [];
  mime := lit "image/jpeg"
|}.

Definition report : DownloadItem := {|
  filename := lit "report.pdf";
  url := lit "https://example.com/report.pdf";
  finalUrl := [];
  mime := lit "application/pdf"
|}.

(** The lines of a file, each ended by a line feed. *)
Definition lines (ls : list string) : str :=
  flat_map (fun l => lit l ++ [10%N]) ls.

(** A PDF with one plain content stream that holds [(Hello World)Tj] only. *)
Definition hello_pdf : list N :=
  lines ["%PDF-1.4"; "1 0 obj"; "<< /Length 22 >>"; "stream";
         "BT (Hello World)Tj ET";
         "endstream"; "endobj"; "%%EOF"]%string.

(** The same with a second string in the stream. *)
Definition hello_prose_pdf : list N :=
  lines ["%PDF-1.4"; "1 0 obj"; "<< /Length 57 >>"; "stream";
         "BT (Hello World)Tj (This is a sample document body)Tj ET";
         "endstream"; "endobj"; "%%EOF"]%string.



Definition default_options : PdfExtract.Options :=
  {| PdfExtract.maxChars := None; PdfExtract.maxStreams := None |}.

(** The end of the line of the keyword [stream]: a line feed, or a
    carriage return and a line feed. *)
Definition line_end (cr : bool) : list N := if cr then [13; 10]%N else [10%N].

(** A buffer with one stream: [header], the keyword and the end of its
    line, the data [body] of the stream, the keyword that ends it, and
    [trailer]. *)
Definition streamPdf (header : list N) (cr : bool) (body trailer : list N)
    : list N :=
  header ++ lit "stream" ++ line_end cr ++ body ++ lit "endstream" ++ trailer.

(** The parts of [hello_prose_pdf]. *)
Definition pdf_header : list N :=
  lines ["%PDF-1.4"; "1 0 obj"; "<< /Length 57 >>"]%string.

Definition prose_stream : list N :=
  lit "BT (Hello World)Tj (This is a sample document body)Tj ET" ++ [10%N].

Definition pdf_trailer : list N :=
  [10%N] ++ lines ["endobj"; "%%EOF"]%string.

(** The same header with a comment that names the filter. *)
Definition commented_header : list N :=
  lines ["%PDF-1.4"; "% /FlateDecode"; "1 0 obj"; "<< /Length 57 >>"]%string.

(** The text of its stream: the strings kept from [body], joined. *)
Definition streamText (P : PdfExtract.Platform) (body : list N) : str :=
  join (lit " ")
    (PdfExtract.extractLiteralStrings P (PdfExtract.latin1_decode body)).

(** The last 2500 code units of the text before the keyword, where the
    extractor looks for the filter of the stream. *)
Definition dictChunk (header : list N) : str :=
  skipn (length header - 2500) (PdfExtract.latin1_decode header).

End Examples.

(** ** The event hook of the service worker (src/unnamed/part_005) *)

Module Listener.
Import Js Config Background.


Section Hook.
Variable W : World.

(** [new URL(url).pathname]; [None] where the constructor throws. *)
Variable pathname : str -> option str.

Definition extFromName (downloadItem : DownloadItem) : str :=
  pop (split_on 46 (toLowerCase W (filename downloadItem))).

Definition extFromUrl (downloadItem : DownloadItem) : str :=
  let url := toLowerCase W (itemUrl downloadItem) in
  match pathname url with
  | Some p =>
      let last := pop (split_on 47 p) in
      if PdfExtract.includes (lit ".") last then pop (split_on 46 last) else []
  | None => []
  end.

Definition isImage (downloadItem : DownloadItem) : bool :=
  isImageType (extFromName downloadItem) || isImageType (extFromUrl downloadItem).

Definition isPdf (downloadItem : DownloadItem) : bool :=
  if str_eqb (extFromName downloadItem) (lit "pdf")
     || str_eqb (extFromUrl downloadItem) (lit "pdf")
  then true
  else str_eqb (toLowerCase W (mime downloadItem)) (lit "application/pdf").

(** ['image'], ['pdf'], or [None] for ['other']. *)
Definition handle (downloadItem : DownloadItem) : option FileType :=
  if isImage downloadItem then Some image
  else if isPdf downloadItem then Some pdf
  else None.



End Hook.

End Listener.

(** ** The popup (src/unnamed/part_003) *)

Module Popup.
Import Js Config Background.

Definition shortenName (name : str) : str :=
  if (length name <=? 35)%nat then name
  else
    let ext := pop (split_on 46 name) in
    let base := firstn (length name - (length ext + 1)) name in
    firstn 30 base ++ lit "..." ++ ext.

End Popup.

(** ** What the proofs observe of a run *)

Module Trace.
Import Js Config Background.
Local Open Scope Z_scope.

Definition isFetch (e : Effect) : bool :=
  match e with FetchFile _ => true | _ => false end.

(** A request to the model: the image flow's or the PDF flow's. *)
Definition isModelCall (e : Effect) : bool :=
  match e with CaptionImage _ | NameFromText _ => true | _ => false end.

Definition count (f : Effect -> bool) (es : list Effect) : nat :=
  length (List.filter f es).

(** From [st] to [st'] calls were made, at most [n] of them of the kind [f]. *)
Definition sparing (f : Effect -> bool) (n : nat) (st st' : State) : Prop :=
  exists calls, effects st' = effects st ++ calls /\ (count f calls <= n)%nat.

(** The rate limiter is as it was. *)
Definition sameLimiter (st st' : State) : Prop := limiter st' = limiter st.

(** Every run of [c] is related to its start by [R]. *)
Definition steps (R : State -> State -> Prop) {A} (c : M A) : Prop :=
  forall st, R st (snd (c st)).

(** Every name [c] returns satisfies [Q]. *)
Definition yields (Q : str -> Prop) (c : M (option str)) : Prop :=
  forall st,
    match fst (c st) with
    | Ok (Some name) => Q name
    | _ => True
    end.

(** The counts per method added up. *)
Definition sourceTotal (m : gmap string Z) : Z :=
  map_fold (fun _ v acc => v + acc) 0 m.

(** The counters agree: every rename is a success or a failure, and is
    counted under one method. *)
Definition balanced (s : Stats) : Prop :=
  0 <= successful s /\ 0 <= failed s /\
  totalRenames s = successful s + failed s /\
  sourceTotal (bySource s) = totalRenames s.

(** What is stored is in order: at most 100 entries of history, and stats
    that agree. *)
Definition wellKept (st : State) : Prop :=
  (length (history st) <= 100)%nat /\
  match stats st with
  | Some s => balanced s
  | None => True
  end.

Definition keeps (I : State -> Prop) (st st' : State) : Prop := I st -> I st'.

(** The newest entry of the history. *)
Definition newest (st : State) : option Entry :=
  option_map entry (head (history st)).

(** A code unit that is no control character, and is U+0020 if it is
    whitespace. *)
Definition is_clean (c : N) : bool :=
  negb (PdfExtract.is_control c) && (negb (is_space c) || (c =? 32)%N).



(** No code unit of the string is whitespace. *)
Definition no_space (s : str) : bool := forallb (fun c => negb (is_space c)) s.

(** The extensions an image may be given. *)
Definition imageExtensions : list str :=
  IMAGE_TYPES ++ [lit "constructor"; lit "__proto__"].

End Trace.
(** ** More inputs of the examples *)

Module Inputs.
Import Js Config Background Examples.
Local Open Scope Z_scope.


(** A PDF whose document information holds a title. *)
Definition titled_pdf : list N :=
  lines ["%PDF-1.4"; "1 0 obj"]%string
  ++ lit "<< /Title (Annual Report 2024) /Producer (pdfTeX) >>" ++ [10%N]
  ++ lines ["endobj"; "%%EOF"]%string.

(** The limiter with the ceiling consumed in the window of [test_world]. *)
Definition spent_state : State := {|
  limiter := {| requestCount := 30; requestTimestamp := 1700000000000 |};
  history := [];
  stats := None;
  effects := []
|}.

(** [test_settings] with a size limit of two bytes. *)
Definition two_byte_settings : Settings := {|
  hfToken := lit "hf_token";
  model := model DEFAULTS;
  maxImageSize := 2;
  minImageSize := minImageSize DEFAULTS;
  skipSmallImages := false;
  cleanCaptions := true;
  addDateSuffix := false;
  maxWords := Some 4;
  enablePdfRenaming := true;
  pdfMaxChars := pdfMaxChars DEFAULTS;
  pdfMaxStreams := pdfMaxStreams DEFAULTS;
  enableNotifications := true;
  debug := false
|}.

(** An image whose name is in capitals, served without an image type. *)
Definition loud_photo : DownloadItem := {|
  filename := lit "HOLIDAY.JPG";
  url := lit "https://example.com/download?id=7";
  finalUrl := [];
  mime := lit "application/octet-stream"
|}.

(** The text before the query or the fragment of a URL. *)
Fixpoint before_query (s : str) : str :=
  match s with
  | [] => []
  | c :: t => if (c =? 63)%N || (c =? 35)%N then [] else c :: before_query t
  end.

(** [new URL(url).pathname] for the URLs of the examples. *)
Definition example_pathname (url : str) : option str :=
  option_map before_query (strip_prefix N.eqb (lit "https://example.com") url).

End Inputs.

(** * Proofs *)

Import Js Config.

(** ** Character classes *)

#[global] Arguments is_hyphen : simpl never.
#[global] Arguments is_lower_alnum : simpl never.
#[global] Arguments is_space : simpl never.
#[global] Arguments is_word : simpl never.

Lemma hyphen_not_alnum c : is_hyphen c = true -> is_lower_alnum c = false.
Proof.
  unfold is_hyphen, hyphen. intros H. apply N.eqb_eq in H. subst c. reflexivity.
Qed.

(** ** The automaton and the regular expression *)

Module SlugFacts.
Import SlugAutomaton.

Lemma split_on_cons sep s : exists w ws, split_on sep s = w :: ws.
Proof.
  destruct s as [|c t]; simpl; [eauto|].
  destruct (c =? sep)%N; [eauto|].
  destruct (split_on sep t); eauto.
Qed.

Lemma pieces_ok_accepts need s :
  pieces_ok need (split_on hyphen s) = accepts need s.
Proof.
  revert need. induction s as [|c t IH]; intros need.
  - destruct need; reflexivity.
  - simpl. fold hyphen. fold (is_hyphen c). destruct (is_hyphen c) eqn:Hc.
    + rewrite <- (IH true).
      destruct (split_on_cons hyphen t) as (w & ws & ->).
      destruct need; reflexivity.
    + rewrite <- (IH false).
      destruct (split_on_cons hyphen t) as (w & ws & ->).
      destruct need; simpl; rewrite ?andb_assoc; reflexivity.
Qed.

Lemma slug_shape_accepts s : slug_shape s = accepts true s.
Proof.
  rewrite <- pieces_ok_accepts. unfold slug_shape.
  destruct (split_on_cons hyphen s) as (w & ws & ->). reflexivity.
Qed.

Lemma accepts_prefix_ok need s : accepts need s = true -> prefix_ok need s = true.
Proof.
  revert need. induction s as [|c t IH]; intros need; simpl; [reflexivity|].
  destruct (is_hyphen c); intros H; apply andb_true_iff in H as [H1 H2];
    rewrite H1; simpl; auto.
Qed.

Lemma prefix_ok_firstn need n s :
  prefix_ok need s = true -> prefix_ok need (firstn n s) = true.
Proof.
  revert need n. induction s as [|c t IH]; intros need n; destruct n; simpl;
    try reflexivity.
  destruct (is_hyphen c); intros H; apply andb_true_iff in H as [H1 H2];
    rewrite H1; simpl; auto.
Qed.

(** A prefix of a slug, its hyphens at the end removed, is a slug again. *)
Lemma prefix_ok_drop_while_end need s :
  prefix_ok need s = true -> (need = true -> s <> []) ->
  accepts need (drop_while_end is_hyphen s) = true.
Proof.
  revert need. induction s as [|c t IH]; intros need H Hne; simpl.
  - destruct need; [exfalso; apply Hne; reflexivity | reflexivity].
  - simpl in H. destruct (is_hyphen c) eqn:Hc;
      apply andb_true_iff in H as [H1 H2].
    + destruct need; [discriminate|].
      destruct t as [|d t'].
      * reflexivity.
      * specialize (IH true H2 ltac:(intros _; discriminate)).
        destruct (drop_while_end is_hyphen (d :: t')) eqn:E.
        -- discriminate.
        -- simpl. rewrite Hc. exact IH.
    + specialize (IH false H2 ltac:(discriminate)).
      destruct (drop_while_end is_hyphen t) eqn:E.
      * simpl. rewrite Hc, H1. reflexivity.
      * simpl. rewrite Hc, H1. exact IH.
Qed.

(** Two slugs joined by a hyphen. *)
Lemma accepts_app_hyphen need a b :
  accepts need a = true ->
  accepts need (a ++ hyphen :: b) = accepts true b.
Proof.
  revert need. induction a as [|c t IH]; intros need; simpl.
  - destruct need; [discriminate | reflexivity].
  - destruct (is_hyphen c); intros H; apply andb_true_iff in H as [H1 H2];
      rewrite H1; simpl; auto.
Qed.

(** *** The kebab-case steps of the image-only captionToFilename *)

Lemma forallb_keep_only p s : forallb p (keep_only p s) = true.
Proof.
  unfold keep_only. induction s as [|c t IH]; simpl; [reflexivity|].
  destruct (p c) eqn:E; simpl; rewrite ?E; auto.
Qed.

Lemma runs_space_units in_run s :
  forallb kebab_unit s = true ->
  forallb slug_unit (replace_runs_go is_space [hyphen] in_run s) = true.
Proof.
  revert in_run. induction s as [|c t IH]; intros in_run; simpl; [reflexivity|].
  intros H. apply andb_true_iff in H as [H1 H2].
  destruct (is_space c) eqn:Hs.
  - destruct in_run; simpl; auto.
  - simpl. rewrite IH by assumption. rewrite andb_true_r.
    unfold kebab_unit in H1. rewrite Hs, orb_false_r in H1. exact H1.
Qed.

Lemma runs_hyphen_prefix_ok in_run s :
  forallb slug_unit s = true ->
  prefix_ok in_run (replace_runs_go is_hyphen [hyphen] in_run s) = true.
Proof.
  revert in_run. induction s as [|c t IH]; intros in_run; simpl; [reflexivity|].
  intros H. apply andb_true_iff in H as [H1 H2].
  destruct (is_hyphen c) eqn:Hc.
  - destruct in_run; simpl; auto.
  - simpl. rewrite Hc. unfold slug_unit in H1. rewrite Hc, orb_false_r in H1.
    rewrite H1. simpl. auto.
Qed.

Lemma edge_hyphen_tail p need s :
  prefix_ok need s = true -> (need = true -> s <> []) ->
  accepts need (replace_go ImageApi.edge_hyphen [] (Some p) s 0) = true.
Proof.
  revert p need. induction s as [|c t IH]; intros p need H Hne.
  - destruct need; [exfalso; apply Hne; reflexivity | reflexivity].
  - simpl in H. cbn [replace_go ImageApi.edge_hyphen].
    destruct (is_hyphen c) eqn:Hc; apply andb_true_iff in H as [H1 H2].
    + destruct need; [discriminate|].
      destruct t as [|d t'].
      * reflexivity.
      * cbn [accepts]. rewrite Hc. simpl.
        apply (IH c true H2). discriminate.
    + cbn [accepts]. rewrite Hc, H1. simpl.
      apply (IH c false H2). discriminate.
Qed.

Lemma edge_hyphen_all s :
  prefix_ok false s = true ->
  replace_all ImageApi.edge_hyphen [] s = []
  \/ accepts true (replace_all ImageApi.edge_hyphen [] s) = true.
Proof.
  unfold replace_all. destruct s as [|c t]; [left; reflexivity|].
  intros H. simpl in H. cbn [replace_go ImageApi.edge_hyphen].
  destruct (is_hyphen c) eqn:Hc.
  - replace (length (c :: t) - length t)%nat with 1%nat by (simpl; lia).
    simpl. destruct t as [|d t']; [left; reflexivity|].
    right. apply edge_hyphen_tail; [exact H | discriminate].
  - right. apply andb_true_iff in H as [H1 H2].
    cbn [accepts]. rewrite Hc, H1. simpl.
    apply edge_hyphen_tail; [exact H2 | discriminate].
Qed.

(** *** Cutting at the hyphens and joining again *)

Lemma split_on_piece w rest :
  forallb is_lower_alnum w = true ->
  split_on hyphen (w ++ hyphen :: rest) = w :: split_on hyphen rest.
Proof.
  induction w as [|c t IH]; simpl; [reflexivity|].
  intros H. apply andb_true_iff in H as [H1 H2].
  fold hyphen. fold (is_hyphen c).
  destruct (is_hyphen c) eqn:Hc.
  - apply hyphen_not_alnum in Hc. congruence.
  - rewrite IH by assumption. reflexivity.
Qed.

Lemma split_on_last w :
  forallb is_lower_alnum w = true -> split_on hyphen w = [w].
Proof.
  induction w as [|c t IH]; simpl; [reflexivity|].
  intros H. apply andb_true_iff in H as [H1 H2].
  fold hyphen. fold (is_hyphen c).
  destruct (is_hyphen c) eqn:Hc.
  - apply hyphen_not_alnum in Hc. congruence.
  - rewrite IH by assumption. reflexivity.
Qed.

Lemma token_units w : token w = true -> forallb is_lower_alnum w = true.
Proof. unfold token. intros H. apply andb_true_iff in H. tauto. Qed.

Lemma split_on_join ws :
  ws <> [] -> forallb token ws = true ->
  split_on hyphen (join [hyphen] ws) = ws.
Proof.
  induction ws as [|w ws IH]; [congruence|]. intros _ H.
  simpl in H. apply andb_true_iff in H as [H1 H2].
  destruct ws as [|w' ws'].
  - simpl. apply split_on_last, token_units, H1.
  - change (join [hyphen] (w :: w' :: ws'))
      with (w ++ hyphen :: join [hyphen] (w' :: ws')).
    rewrite split_on_piece by (apply token_units, H1).
    rewrite IH; [reflexivity | discriminate | exact H2].
Qed.

Lemma forallb_firstn {A} (p : A -> bool) n l :
  forallb p l = true -> forallb p (firstn n l) = true.
Proof.
  revert n. induction l as [|x l IH]; intros [|n]; simpl; auto.
  intros H. apply andb_true_iff in H as [H1 H2]. rewrite H1. simpl. auto.
Qed.

(** The first [n >= 1] pieces of a slug, joined again, are a slug. *)
Lemma first_words_slug n s :
  (0 < n)%nat -> slug_shape s = true ->
  slug_shape (join [hyphen] (firstn n (split_on hyphen s))) = true.
Proof.
  intros Hn H. unfold slug_shape in *.
  destruct (split_on_cons hyphen s) as (w & ws & E). rewrite E in *.
  rewrite split_on_join.
  - apply forallb_firstn, H.
  - destruct n; [lia | discriminate].
  - apply forallb_firstn, H.
Qed.

End SlugFacts.

(** ** The image-only captionToFilename, step by step *)

Module ImageApiFacts.
Import SlugAutomaton SlugFacts ImageApi.

Lemma kebabCase_slug x : blank_or_slug (kebabCase x).
Proof.
  unfold blank_or_slug, kebabCase, replace_runs.
  change (lit "-") with [hyphen]. rewrite slug_shape_accepts.
  apply edge_hyphen_all, runs_hyphen_prefix_ok, runs_space_units.
  exact (forallb_keep_only kebab_unit x).
Qed.

Lemma limitWords_slug settings k :
  blank_or_slug k -> blank_or_slug (limitWords settings k).
Proof.
  intros Hk. unfold limitWords.
  destruct (maxWords settings) as [n|]; [|exact Hk].
  destruct (0 <? n)%Z eqn:Hn; [|exact Hk].
  apply Z.ltb_lt in Hn.
  destruct (n <? Z.of_nat (length (split_on hyphen k)))%Z eqn:Hlt; [|exact Hk].
  destruct Hk as [-> | Hk].
  - simpl in Hlt. apply Z.ltb_lt in Hlt. lia.
  - right. change (lit "-") with [hyphen]. unfold slice0.
    replace (n <? 0)%Z with false by (symmetry; apply Z.ltb_ge; lia).
    apply first_words_slug; [lia | exact Hk].
Qed.

Lemma limitLength_slug w : blank_or_slug w -> blank_or_slug (limitLength w).
Proof.
  intros Hw. unfold limitLength.
  destruct (60 <? length w)%nat eqn:Hlen; [|exact Hw].
  apply Nat.ltb_lt in Hlen.
  destruct Hw as [-> | Hw]; [simpl in Hlen; lia|].
  right. rewrite slug_shape_accepts in *.
  apply prefix_ok_drop_while_end.
  - apply prefix_ok_firstn, accepts_prefix_ok, Hw.
  - intros _. destruct w; [simpl in Hlen; lia | discriminate].
Qed.

Lemma slugified_slug toLowerCase caption settings :
  blank_or_slug (slugified toLowerCase caption settings).
Proof.
  unfold slugified. apply limitLength_slug, limitWords_slug, kebabCase_slug.
Qed.

Lemma ensureSomething_slug c :
  blank_or_slug c -> slug_shape (ensureSomething c) = true.
Proof.
  intros Hc. unfold ensureSomething.
  destruct (length c <? 2)%nat eqn:Hlen; [reflexivity|].
  destruct Hc as [-> | Hc]; [discriminate | exact Hc].
Qed.

Lemma slug_app_hyphen a b :
  slug_shape a = true -> slug_shape b = true ->
  slug_shape (a ++ lit "-" ++ b) = true.
Proof.
  rewrite !slug_shape_accepts. intros Ha Hb.
  change (lit "-" ++ b) with (hyphen :: b).
  rewrite accepts_app_hyphen; assumption.
Qed.

Lemma captionToFilename_slug toLowerCase today caption settings :
  slug_shape today = true ->
  slug_shape (captionToFilename toLowerCase today caption settings) = true.
Proof.
  intros Ht. unfold captionToFilename.
  pose proof (ensureSomething_slug _
                (slugified_slug toLowerCase caption settings)) as H.
  destruct (addDateSuffix settings); [|exact H].
  apply slug_app_hyphen; assumption.
Qed.

(** *** Lengths *)

Lemma length_drop_while_end p s : (length (drop_while_end p s) <= length s)%nat.
Proof.
  induction s as [|c t IH]; simpl; [lia|].
  destruct (drop_while_end p t); [destruct (p c)|]; simpl in *; lia.
Qed.

Lemma length_limitLength w : (length (limitLength w) <= 60)%nat.
Proof.
  unfold limitLength. destruct (60 <? length w)%nat eqn:Hlen.
  - etransitivity; [apply length_drop_while_end|].
    rewrite length_firstn. lia.
  - apply Nat.ltb_ge in Hlen. exact Hlen.
Qed.

Lemma length_ensureSomething c :
  (length c <= 60)%nat -> (2 <= length (ensureSomething c) <= 60)%nat.
Proof.
  unfold ensureSomething. destruct (length c <? 2)%nat eqn:Hlen.
  - simpl. lia.
  - apply Nat.ltb_ge in Hlen. lia.
Qed.

(** A slug does not end with a hyphen. *)
Lemma accepts_last need s : accepts need s = true -> last s <> Some hyphen.
Proof.
  revert need. induction s as [|c t IH]; intros need H; [discriminate|].
  simpl in H. destruct t as [|d t'].
  - simpl. intros [= ->]. destruct need; discriminate.
  - change (last (c :: d :: t')) with (last (d :: t')).
    destruct (is_hyphen c); apply andb_true_iff in H as [_ H]; eauto.
Qed.

Lemma slug_shape_last s : slug_shape s = true -> last s <> Some hyphen.
Proof. rewrite slug_shape_accepts. apply accepts_last. Qed.

(** *** Words *)

Lemma wordCount_hyphens s :
  Observe.wordCount s = S (length (List.filter is_hyphen s)).
Proof.
  unfold Observe.wordCount. induction s as [|c t IH]; [reflexivity|].
  cbn [split_on List.filter]. fold (is_hyphen c).
  destruct (is_hyphen c); cbn [length].
  - rewrite IH. reflexivity.
  - destruct (split_on_cons hyphen t) as (w & ws & E). rewrite E in *.
    exact IH.
Qed.

Lemma hyphens_firstn n s :
  (length (List.filter is_hyphen (firstn n s))
   <= length (List.filter is_hyphen s))%nat.
Proof.
  revert n. induction s as [|c t IH]; intros [|n]; simpl; try lia.
  specialize (IH n). destruct (is_hyphen c); simpl; lia.
Qed.

Lemma hyphens_drop_while_end s :
  (length (List.filter is_hyphen (drop_while_end is_hyphen s))
   <= length (List.filter is_hyphen s))%nat.
Proof.
  induction s as [|c t IH]; simpl; [lia|].
  destruct (drop_while_end is_hyphen t) as [|d r] eqn:E.
  - destruct (is_hyphen c) eqn:Hc; simpl; rewrite ?Hc; simpl; lia.
  - cbn [List.filter]. destruct (is_hyphen c); simpl in *; lia.
Qed.

Lemma wordCount_limitLength w :
  (Observe.wordCount (limitLength w) <= Observe.wordCount w)%nat.
Proof.
  rewrite !wordCount_hyphens. unfold limitLength.
  destruct (60 <? length w)%nat; [|lia].
  pose proof (hyphens_drop_while_end (firstn 60 w)).
  pose proof (hyphens_firstn 60 w). lia.
Qed.

Lemma wordCount_limitWords settings k n :
  blank_or_slug k -> maxWords settings = Some n -> (0 < n)%Z ->
  (Z.of_nat (Observe.wordCount (limitWords settings k)) <= n)%Z.
Proof.
  intros Hk Hw Hn. unfold limitWords. rewrite Hw.
  replace (0 <? n)%Z with true by (symmetry; apply Z.ltb_lt; exact Hn).
  fold (Observe.wordCount k).
  destruct (n <? Z.of_nat (Observe.wordCount k))%Z eqn:Hlt.
  - apply Z.ltb_lt in Hlt.
    destruct Hk as [-> | Hk]; [cbn in Hlt; lia|].
    change (lit "-") with [hyphen]. unfold slice0, Observe.wordCount.
    replace (n <? 0)%Z with false by (symmetry; apply Z.ltb_ge; lia).
    unfold slug_shape in Hk.
    destruct (split_on_cons hyphen k) as (w & ws & E). rewrite E in *.
    rewrite split_on_join.
    + rewrite length_firstn. lia.
    + destruct (Z.to_nat n) eqn:En; [lia | discriminate].
    + apply forallb_firstn, Hk.
  - apply Z.ltb_ge in Hlt. exact Hlt.
Qed.

Lemma wordCount_slugified toLowerCase caption settings n :
  maxWords settings = Some n -> (0 < n)%Z ->
  (Z.of_nat (Observe.wordCount (slugified toLowerCase caption settings)) <= n)%Z.
Proof.
  intros Hw Hn. unfold slugified.
  pose proof (wordCount_limitLength
                (limitWords settings
                   (kebabCase (removeExtraWords
                      (removeArticle settings (toLowerCase caption)))))) as H1.
  pose proof (wordCount_limitWords settings
                (kebabCase (removeExtraWords
                   (removeArticle settings (toLowerCase caption))))
                n (kebabCase_slug _) Hw Hn) as H2.
  lia.
Qed.

(** The empty caption has the empty slug. *)
Lemma slugified_empty toLowerCase settings :
  toLowerCase [] = [] -> slugified toLowerCase [] settings = [].
Proof.
  intros H. unfold slugified. rewrite H.
  assert (Ha : removeArticle settings [] = []).
  { unfold removeArticle. destruct (cleanCaptions settings); reflexivity. }
  rewrite Ha. change (kebabCase (removeExtraWords [])) with (@nil N).
  assert (Hw : limitWords settings [] = []).
  { unfold limitWords. destruct (maxWords settings) as [n|]; [|reflexivity].
    destruct (0 <? n)%Z eqn:E; [|reflexivity].
    change (Z.of_nat (length (split_on hyphen []))) with 1%Z.
    replace (n <? 1)%Z with false
      by (symmetry; apply Z.ltb_ge; apply Z.ltb_lt in E; lia).
    reflexivity. }
  rewrite Hw. reflexivity.
Qed.

End ImageApiFacts.

(** ** The captionToFilename of extension/hf-api.js *)

Module HfApiFacts.
Import SlugAutomaton SlugFacts HfApi.

Lemma forallb_drop_while (q p : N -> bool) s :
  forallb q s = true -> forallb q (drop_while p s) = true.
Proof.
  induction s as [|c t IH]; simpl; [reflexivity|].
  intros H. destruct (p c); [|exact H].
  apply andb_true_iff in H as [_ H]. auto.
Qed.

Lemma forallb_drop_while_end (q p : N -> bool) s :
  forallb q s = true -> forallb q (drop_while_end p s) = true.
Proof.
  induction s as [|c t IH]; simpl; [reflexivity|].
  intros H. apply andb_true_iff in H as [H1 H2]. specialize (IH H2).
  destruct (drop_while_end p t); [destruct (p c)|]; simpl in *;
    rewrite ?H1; auto.
Qed.

Lemma forallb_trim (q : N -> bool) s :
  forallb q s = true -> forallb q (trim s) = true.
Proof. intros H. apply forallb_drop_while_end, forallb_drop_while, H. Qed.

Lemma forallb_replace_runs_space (p q : N -> bool) in_run s :
  (forall c, p c = true -> is_space c = false -> q c = true) ->
  q 32%N = true ->
  forallb p s = true ->
  forallb q (replace_runs_go is_space [32%N] in_run s) = true.
Proof.
  intros Hpq Hq. revert in_run.
  induction s as [|c t IH]; intros in_run; simpl; [reflexivity|].
  intros H. apply andb_true_iff in H as [H1 H2].
  destruct (is_space c) eqn:Hs.
  - destruct in_run; simpl; rewrite ?Hq; simpl; auto.
  - simpl. rewrite (Hpq c H1 Hs). simpl. auto.
Qed.

Lemma forallb_replace_go (q : N -> bool) m prev s skip :
  forallb q s = true -> forallb q (replace_go m [] prev s skip) = true.
Proof.
  revert prev skip. induction s as [|c t IH]; intros prev skip; simpl;
    [reflexivity|].
  intros H. apply andb_true_iff in H as [H1 H2].
  destruct skip; [|auto].
  destruct (m prev (c :: t)) as [r|]; [|simpl; rewrite H1; simpl; auto].
  destruct (S (length t) - length r)%nat; simpl; rewrite ?H1; simpl; auto.
Qed.

Lemma forallb_split_on (r : N -> bool) sep s :
  forallb (fun c => r c || (c =? sep)%N) s = true ->
  forallb (forallb r) (split_on sep s) = true.
Proof.
  induction s as [|c t IH]; simpl; [reflexivity|].
  intros H. apply andb_true_iff in H as [H1 H2]. specialize (IH H2).
  destruct (c =? sep)%N; [exact IH|].
  rewrite orb_false_r in H1.
  destruct (split_on sep t) as [|w ws]; simpl in *; rewrite H1; auto.
Qed.

Lemma forallb_filter {A} (p q : A -> bool) l :
  forallb p l = true -> forallb p (List.filter q l) = true.
Proof.
  induction l as [|x l IH]; simpl; [reflexivity|].
  intros H. apply andb_true_iff in H as [H1 H2].
  destruct (q x); simpl; rewrite ?H1; auto.
Qed.

Lemma forallb_slice0 {A} (p : A -> bool) l e :
  forallb p l = true -> forallb p (slice0 l e) = true.
Proof. intros H. unfold slice0. destruct (e <? 0)%Z; apply forallb_firstn, H. Qed.

Lemma forallb_join (r : N -> bool) ws :
  r hyphen = true -> forallb (forallb r) ws = true ->
  forallb r (join [hyphen] ws) = true.
Proof.
  intros Hr. induction ws as [|w ws IH]; simpl; [reflexivity|].
  intros H. apply andb_true_iff in H as [H1 H2].
  destruct ws as [|w' ws']; [exact H1|].
  rewrite forallb_app, H1. simpl. rewrite Hr. auto.
Qed.

(** Only word units and hyphens are left in [limited]. *)
Lemma limited_units toLowerCase caption settings :
  forallb hf_unit (limited toLowerCase caption settings) = true.
Proof.
  unfold limited, words.
  change (lit "-") with [hyphen]. change (lit " ") with [32%N].
  apply forallb_join; [reflexivity|].
  apply forallb_slice0, forallb_filter.
  apply (forallb_split_on hf_unit 32).
  fold hf_unit_or_blank.
  assert (H0 : forallb hf_unit_or_blank
                 (trim (replace_runs is_space [32%N]
                    (keep_only (fun c => is_word c || is_space c || is_hyphen c)
                       (toLowerCase caption)))) = true).
  { apply forallb_trim.
    apply forallb_replace_runs_space
      with (p := fun c => is_word c || is_space c || is_hyphen c).
    - intros c Hc Hs. rewrite Hs, orb_false_r in Hc.
      unfold hf_unit_or_blank, hf_unit. rewrite Hc. reflexivity.
    - reflexivity.
    - apply forallb_keep_only. }
  destruct (cleanCaptions settings); [|exact H0].
  apply forallb_trim.
  apply forallb_replace_runs_space with (p := hf_unit_or_blank).
  - auto.
  - reflexivity.
  - apply forallb_replace_go, H0.
Qed.

(** The empty caption leaves nothing in [limited]. *)
Lemma limited_empty toLowerCase settings :
  toLowerCase [] = [] -> limited toLowerCase [] settings = [].
Proof.
  intros H. unfold limited, words. rewrite H.
  change (trim (replace_runs is_space (lit " ") (keep_only _ []))) with (@nil N).
  assert (Ht : (if cleanCaptions settings
                then trim (replace_runs is_space (lit " ")
                             (replace_all article [] []))
                else []) = @nil N).
  { destruct (cleanCaptions settings); reflexivity. }
  rewrite Ht.
  change (List.filter _ (split_on 32 [])) with (@nil str).
  unfold slice0. destruct (wordLimit settings <? 0)%Z; rewrite firstn_nil;
    reflexivity.
Qed.

End HfApiFacts.

(** ** The rate limiter and the two flows *)

Module BackgroundFacts.
Import Background Observe.
Local Open Scope Z_scope.

Lemma checkRateLimit_in_window now l :
  now - requestTimestamp l <= 60000 ->
  checkRateLimit now l =
    if maxPerMinute <=? requestCount l
    then (Err (RateLimitReached (ceil_seconds (60000 - (now - requestTimestamp l)))), l)
    else (Ok tt, {| requestCount := requestCount l + 1;
                    requestTimestamp := requestTimestamp l |}).
Proof.
  intros H. unfold checkRateLimit.
  replace (60000 <? now - requestTimestamp l) with false
    by (symmetry; apply Z.ltb_ge; lia).
  reflexivity.
Qed.

Lemma checkRateLimit_after_window now l :
  60000 < now - requestTimestamp l ->
  checkRateLimit now l = (Ok tt, {| requestCount := 1; requestTimestamp := now |}).
Proof.
  intros H. unfold checkRateLimit.
  replace (60000 <? now - requestTimestamp l) with true
    by (symmetry; apply Z.ltb_lt; lia).
  reflexivity.
Qed.

Lemma callsAt_in_window t0 times c :
  Forall (fun t => t - t0 <= 60000) times ->
  c + Z.of_nat (length times) <= maxPerMinute ->
  callsAt times {| requestCount := c; requestTimestamp := t0 |}
  = (true, {| requestCount := c + Z.of_nat (length times);
              requestTimestamp := t0 |}).
Proof.
  intros Hin. revert c. induction Hin as [|t times Ht Hin IH]; intros c Hc.
  - simpl. rewrite Z.add_0_r. reflexivity.
  - cbn [callsAt]. rewrite checkRateLimit_in_window by exact Ht.
    cbn [requestCount requestTimestamp].
    cbn [length] in Hc. rewrite Nat2Z.inj_succ in Hc.
    replace (maxPerMinute <=? c) with false by (symmetry; apply Z.leb_gt; lia).
    rewrite IH by lia.
    cbn [length]. rewrite Nat2Z.inj_succ. do 2 f_equal. lia.
Qed.

Lemma addToHistory_history W entry st :
  history (snd (addToHistory W entry st))
  = firstn 100
      ({| Background.entry := entry; id := writeTime W; timestamp := writeTime W |}
       :: history st).
Proof. reflexivity. Qed.

Lemma renamePdf_disabled W downloadItem st :
  enablePdfRenaming (settings W) = false ->
  renamePdf W downloadItem st = (Ok None, st).
Proof.
  intros H. unfold renamePdf, try_catch. rewrite H. reflexivity.
Qed.

Lemma historyWrites_app a b :
  historyWrites (a ++ b) = (historyWrites a + historyWrites b)%nat.
Proof. unfold historyWrites. rewrite List.filter_app, length_app. reflexivity. Qed.

Lemma statsWrites_app a b :
  statsWrites (a ++ b) = (statsWrites a + statsWrites b)%nat.
Proof. unfold statsWrites. rewrite List.filter_app, length_app. reflexivity. Qed.

(** *** Steps that store nothing *)

Lemma quietly_refl st : quietly st st.
Proof.
  exists []. rewrite app_nil_r. repeat split; reflexivity.
Qed.

Lemma quietly_trans st1 st2 st3 :
  quietly st1 st2 -> quietly st2 st3 -> quietly st1 st3.
Proof.
  intros (c1 & E1 & H1 & S1 & Hh1 & Hs1) (c2 & E2 & H2 & S2 & Hh2 & Hs2).
  exists (c1 ++ c2). rewrite E2, E1, app_assoc.
  rewrite historyWrites_app, statsWrites_app, H1, H2, S1, S2.
  repeat split; congruence.
Qed.

Lemma quietly_once ok name st1 st2 st3 :
  quietly st1 st2 -> once ok name st2 st3 -> once ok name st1 st3.
Proof.
  intros (c1 & E1 & H1 & S1 & Hh1 & Hs1) (c2 & e & E2 & H2 & S2 & Hh2 & Hok).
  exists (c1 ++ c2), e. rewrite E2, E1, app_assoc.
  rewrite historyWrites_app, statsWrites_app, H1, H2, S1, S2, Hh2, Hh1.
  repeat split; tauto.
Qed.

Lemma once_quietly ok name st1 st2 st3 :
  once ok name st1 st2 -> quietly st2 st3 -> once ok name st1 st3.
Proof.
  intros (c1 & e & E1 & H1 & S1 & Hh1 & Hok) (c2 & E2 & H2 & S2 & Hh2 & Hs2).
  exists (c1 ++ c2), e. rewrite E2, E1, app_assoc.
  rewrite historyWrites_app, statsWrites_app, H1, H2, S1, S2, Hh2, Hh1.
  repeat split; tauto.
Qed.

Lemma quiet_ret {A} (a : A) : quiet (ret a).
Proof. intros st. apply quietly_refl. Qed.

Lemma quiet_throw {A} e : quiet (@throw A e).
Proof. intros st. apply quietly_refl. Qed.

Lemma quiet_lift {A} (r : Result A) : quiet (lift r).
Proof. intros st. apply quietly_refl. Qed.

Lemma quiet_emit e :
  isHistoryWrite e = false -> isStatsWrite e = false -> quiet (emit e).
Proof.
  intros H1 H2 st. exists [e]. unfold historyWrites, statsWrites. simpl.
  rewrite H1, H2. repeat split; reflexivity.
Qed.

Lemma quiet_bind {A B} (c : M A) (k : A -> M B) :
  quiet c -> (forall a, quiet (k a)) -> quiet (bind c k).
Proof.
  intros Hc Hk st. unfold bind. specialize (Hc st).
  destruct (c st) as [[a|e] st1]; simpl in *; [|exact Hc].
  eapply quietly_trans; [exact Hc | apply Hk].
Qed.

Lemma quiet_if {A} (b : bool) (c1 c2 : M A) :
  quiet c1 -> quiet c2 -> quiet (if b then c1 else c2).
Proof. destruct b; auto. Qed.

Lemma quiet_consumeRateLimit W : quiet (consumeRateLimit W).
Proof.
  intros st. unfold consumeRateLimit.
  destruct (checkRateLimit (now W) (limiter st)) as [r l]. simpl.
  exists []. simpl. rewrite app_nil_r. repeat split; reflexivity.
Qed.

Lemma quiet_fetchFile W url maxSize : quiet (fetchFile W url maxSize).
Proof.
  unfold fetchFile. apply quiet_bind; [apply quiet_emit; reflexivity|].
  intros _. destruct (fetch W url) as [m|ok status body].
  - apply quiet_throw.
  - destruct (negb ok); [apply quiet_throw|].
    destruct (maxSize <? Z.of_nat (length body)); [apply quiet_throw|apply quiet_ret].
Qed.

Lemma quiet_updateBadge text color : quiet (updateBadge text color).
Proof.
  unfold updateBadge. apply quiet_bind; [apply quiet_emit; reflexivity|].
  intros _. apply quiet_bind.
  - apply quiet_if; [apply quiet_ret | apply quiet_emit; reflexivity].
  - intros _. apply quiet_if; [apply quiet_ret | apply quiet_emit; reflexivity].
Qed.

Lemma quiet_notify W title message : quiet (notify W title message).
Proof.
  unfold notify. apply quiet_if; [apply quiet_emit; reflexivity | apply quiet_ret].
Qed.

(** *** Steps that record *)

(** The history entry and the stats update, then steps that store nothing. *)
Lemma record_then_quiet W entry ok method (rest : M (option str)) st :
  quiet rest ->
  ok = success entry ->
  let run := bind (addToHistory W entry)
               (fun _ => bind (updateStats ok method) (fun _ => rest)) st in
  once ok (renamed entry) st (snd run) /\
  fst run = fst (rest (snd (updateStats ok method (snd (addToHistory W entry st))))).
Proof.
  intros Hrest Hok. unfold bind.
  destruct (addToHistory W entry st) as [r1 st1] eqn:E1.
  unfold addToHistory, emit in E1. injection E1 as <- <-.
  destruct (updateStats ok method _) as [r2 st2] eqn:E2.
  unfold updateStats, emit in E2. cbn [stats effects history limiter] in E2.
  injection E2 as <- <-.
  cbn [snd]. split; [|reflexivity].
  eapply once_quietly; [|apply Hrest].
  eexists [_; _], {| entry := entry; id := writeTime W; timestamp := writeTime W |}.
  cbn [effects history Background.entry]. rewrite <- app_assoc.
  repeat split; auto.
Qed.

Lemma recordFailure_once W e downloadItem t st :
  fst (recordFailure W e downloadItem t st) = Ok None /\
  once false None st (snd (recordFailure W e downloadItem t st)).
Proof.
  unfold recordFailure.
  set (rest := bind (updateBadge cross_mark (lit "#CC0000")) _).
  assert (Hq : quiet rest).
  { apply quiet_bind; [apply quiet_updateBadge|]. intros _.
    apply quiet_bind; [apply quiet_notify | intros _; apply quiet_ret]. }
  destruct (record_then_quiet W (failureEntry W e downloadItem t) false
              "error" rest st Hq eq_refl) as [H1 H2].
  split; [|exact H1].
  rewrite H2. unfold rest, bind, updateBadge, notify, emit, ret.
  cbn. destruct (enableNotifications (settings W)); reflexivity.
Qed.

(** *** The body of the [try] and its [catch] *)

Lemma bodyOutcome_bind {A} may_skip (c : M A) (k : A -> M (option str)) st :
  quiet c ->
  (forall a st1, bodyOutcome may_skip st1 (k a st1)) ->
  bodyOutcome may_skip st (bind c k st).
Proof.
  intros Hc Hk. unfold bind. specialize (Hc st).
  destruct (c st) as [[a|e] st1]; simpl in Hc; [|exact Hc].
  specialize (Hk a st1). unfold bodyOutcome in *.
  destruct (k a st1) as [[[name|]|e] st2].
  - eapply quietly_once; eassumption.
  - destruct Hk as [Hs Hk]. split; [exact Hs|]. eapply quietly_trans; eassumption.
  - eapply quietly_trans; eassumption.
Qed.

Lemma try_catch_recorded W may_skip body downloadItem t st :
  bodyOutcome may_skip st (body st) ->
  recordedOnce may_skip st
    (try_catch body (fun e => recordFailure W e downloadItem t) st).
Proof.
  unfold try_catch, bodyOutcome, recordedOnce.
  destruct (body st) as [[[name|]|e] st1]; intros H.
  - exact H.
  - right. exact H.
  - destruct (recordFailure_once W e downloadItem t st1) as [H1 H2].
    destruct (recordFailure W e downloadItem t st1) as [r st2]. simpl in *.
    subst r. left. eapply quietly_once; eassumption.
Qed.

(** The end of both flows after the model has answered. *)
Lemma success_tail_outcome W may_skip entry method title message name st :
  success entry = true -> renamed entry = Some name ->
  bodyOutcome may_skip st
    (bind (addToHistory W entry) (fun _ =>
     bind (updateStats true method) (fun _ =>
     bind (updateBadge check_mark (lit "#00AA00")) (fun _ =>
     bind (notify W title message) (fun _ => ret (Some name))))) st).
Proof.
  intros Hs Hn.
  set (rest := bind (updateBadge check_mark (lit "#00AA00")) _).
  assert (Hq : quiet rest).
  { apply quiet_bind; [apply quiet_updateBadge|]. intros _.
    apply quiet_bind; [apply quiet_notify | intros _; apply quiet_ret]. }
  destruct (record_then_quiet W entry true method rest st Hq (eq_sym Hs))
    as [H1 H2].
  destruct (bind (addToHistory W entry) _ st) as [r st2]. simpl in *.
  rewrite Hn in H1.
  assert (Hr : r = Ok (Some name)).
  { rewrite H2. unfold rest, bind, updateBadge, notify, emit, ret.
    cbn. destruct (enableNotifications (settings W)); reflexivity. }
  rewrite Hr. exact H1.
Qed.

Lemma renamePdf_recorded W downloadItem st :
  recordedOnce (negb (enablePdfRenaming (settings W))) st
    (renamePdf W downloadItem st).
Proof.
  unfold renamePdf. apply try_catch_recorded.
  destruct (enablePdfRenaming (settings W)); cbn [negb].
  - apply bodyOutcome_bind.
    { apply quiet_if; [apply quiet_throw | apply quiet_ret]. }
    intros _ st1. apply bodyOutcome_bind; [apply quiet_consumeRateLimit|].
    intros _ st2. apply bodyOutcome_bind; [apply quiet_updateBadge|].
    intros _ st3. apply bodyOutcome_bind; [apply quiet_fetchFile|].
    intros pdfBuffer st4.
    apply bodyOutcome_bind; [apply quiet_emit; reflexivity|].
    intros _ st5. apply bodyOutcome_bind; [apply quiet_lift|].
    intros suggestion st6. apply success_tail_outcome; reflexivity.
  - split; [reflexivity | apply quietly_refl].
Qed.

(** *** What a flow returns when every step succeeds *)

Lemma bind_run {A B} (c : M A) (k : A -> M B) st a st1 :
  c st = (Ok a, st1) -> bind c k st = k a st1.
Proof. unfold bind. intros ->. reflexivity. Qed.

Lemma emit_run e st : exists st1, emit e st = (Ok tt, st1).
Proof. unfold emit. eauto. Qed.

Lemma updateBadge_run text color st :
  exists st1, updateBadge text color st = (Ok tt, st1).
Proof.
  unfold updateBadge, bind, emit, ret.
  destruct (is_empty color), (is_empty text); cbn; eauto.
Qed.

Lemma notify_run W title message st :
  exists st1, notify W title message st = (Ok tt, st1).
Proof.
  unfold notify, emit, ret. destruct (enableNotifications (settings W)); eauto.
Qed.

Lemma addToHistory_run W entry st :
  exists st1, addToHistory W entry st = (Ok tt, st1).
Proof. unfold addToHistory, emit. eauto. Qed.

Lemma updateStats_run ok method st :
  exists st1, updateStats ok method st = (Ok tt, st1).
Proof. unfold updateStats, emit. eauto. Qed.

Lemma consumeRateLimit_run W st :
  fst (checkRateLimit (now W) (limiter st)) = Ok tt ->
  exists st1, consumeRateLimit W st = (Ok tt, st1).
Proof.
  unfold consumeRateLimit.
  destruct (checkRateLimit (now W) (limiter st)) as [r l]. simpl.
  intros ->. eauto.
Qed.

Lemma fetchFile_run W url maxSize status body st :
  fetch W url = Response true status body ->
  (maxSize <? Z.of_nat (length body)) = false ->
  exists st1, fetchFile W url maxSize st = (Ok body, st1).
Proof.
  intros Hf Hsize. unfold fetchFile, bind, emit, ret.
  rewrite Hf, Hsize. cbn. eauto.
Qed.

Ltac run_step H :=
  let st1 := fresh "st" in
  let E := fresh "E" in
  destruct H as [st1 E]; rewrite (bind_run _ _ _ _ _ E); clear E.

(** The four steps behind the model's answer. *)
Ltac run_tail W :=
  match goal with
  | |- context [bind (addToHistory W ?e) _ ?s] => run_step (addToHistory_run W e s)
  end;
  match goal with
  | |- context [bind (updateStats ?b ?m) _ ?s] => run_step (updateStats_run b m s)
  end;
  match goal with
  | |- context [bind (updateBadge ?t ?c) _ ?s] => run_step (updateBadge_run t c s)
  end;
  match goal with
  | |- context [bind (notify W ?t ?m) _ ?s] => run_step (notify_run W t m s)
  end;
  unfold ret.

(** The image flow of the extension returns the slug of the caption with
    the extension of the download. *)
Lemma renameImage_result W st downloadItem caption :
  modelAnswers W st downloadItem caption ->
  fst (renameImage W downloadItem st) =
  Ok (Some (captionToFilename W caption (settings W) ++ lit "."
            ++ getImageExtension W downloadItem)).
Proof.
  intros (Htoken & Hrate & status & body & b64 & Hfetch & Hsize & Hskip & Hprep & Hcap).
  unfold renameImage, try_catch.
  destruct (hfToken (settings W)) as [|tk token] eqn:Et; [congruence|].
  cbn [is_empty]. rewrite (bind_run _ _ st tt st) by reflexivity.
  run_step (consumeRateLimit_run W st Hrate).
  run_step (updateBadge_run (lit "...") (lit "#0066CC") st0).
  run_step (fetchFile_run W _ _ _ _ st1 Hfetch Hsize).
  rewrite Hskip.
  run_step (emit_run PrepareImage st2).
  rewrite (bind_run _ _ st3 b64 st3) by (unfold lift; rewrite Hprep; reflexivity).
  run_step (emit_run (CaptionImage b64) st3).
  rewrite (bind_run _ _ st4 caption st4) by (unfold lift; rewrite Hcap; reflexivity).
  cbv beta zeta.
  run_tail W. reflexivity.
Qed.


(** The image-only worker does the same with its own slug, where the URL
    of the download has a host name. *)
Lemma image_only_renameImage_result W st downloadItem caption host :
  modelAnswers W st downloadItem caption ->
  hostname W (itemUrl downloadItem) = Some host ->
  fst (ImageBackground.renameImage W downloadItem st) =
  Ok (Some (ImageBackground.captionToFilename W caption (settings W) ++ lit "."
            ++ getImageExtension W downloadItem)).
Proof.
  intros (Htoken & Hrate & status & body & b64 & Hfetch & Hsize & Hskip & Hprep & Hcap)
    Hhost.
  unfold ImageBackground.renameImage, try_catch.
  destruct (hfToken (settings W)) as [|tk token] eqn:Et; [congruence|].
  cbn [is_empty]. rewrite (bind_run _ _ st tt st) by reflexivity.
  run_step (consumeRateLimit_run W st Hrate).
  run_step (updateBadge_run (lit "...") (lit "#0066CC") st0).
  run_step (fetchFile_run W _ _ _ _ st1 Hfetch Hsize).
  rewrite Hskip.
  run_step (emit_run PrepareImage st2).
  rewrite (bind_run _ _ st3 b64 st3) by (unfold lift; rewrite Hprep; reflexivity).
  run_step (emit_run (CaptionImage b64) st3).
  rewrite (bind_run _ _ st4 caption st4) by (unfold lift; rewrite Hcap; reflexivity).
  cbv beta zeta.
  rewrite (bind_run _ _ st4 host st4)
    by (unfold ImageBackground.urlHostname; rewrite Hhost; reflexivity).
  run_tail W. reflexivity.
Qed.

End BackgroundFacts.

(** ** The PDF preview extractor *)

Module PdfFacts.
Import PdfExtract.
Local Open Scope Z_scope.

Lemma clampInt_bounds n lo hi : lo <= hi -> lo <= clampInt n lo hi <= hi.
Proof. intros H. unfold clampInt. lia. Qed.

Lemma length_drop_while p s : (length (drop_while p s) <= length s)%nat.
Proof.
  induction s as [|c t IH]; simpl; [lia|]. destruct (p c); simpl; lia.
Qed.

Lemma length_trim s : (length (trim s) <= length s)%nat.
Proof.
  unfold trim. etransitivity; [apply ImageApiFacts.length_drop_while_end|].
  apply length_drop_while.
Qed.

Lemma length_replace_runs_go p c in_run s :
  (length (replace_runs_go p [c] in_run s) <= length s)%nat.
Proof.
  revert in_run. induction s as [|d t IH]; intros in_run; simpl; [lia|].
  destruct (p d).
  - destruct in_run; simpl.
    + specialize (IH true). lia.
    + specialize (IH true). lia.
  - simpl. specialize (IH false). lia.
Qed.

Lemma length_cleanupText s : (length (cleanupText s) <= length s)%nat.
Proof.
  unfold cleanupText, replace_runs. change (lit " ") with [32%N].
  etransitivity; [apply length_trim|].
  etransitivity; [apply length_replace_runs_go|].
  apply length_replace_runs_go.
Qed.


Lemma inflateFlate_unavailable P u8 :
  DecompressionStream P = None -> inflateFlate P u8 = None.
Proof. unfold inflateFlate. intros ->. reflexivity. Qed.

(** A stream marked /FlateDecode whose bytes do not inflate only counts as
    seen: no text is added, and nothing is thrown. *)
Lemma readStream_inflate_failure P bytes pdfLatin idx len stop st :
  includes (lit "/FlateDecode") (slice pdfLatin (idx - 2500) idx) = true ->
  inflateFlate P (slice bytes (idx + len) stop) = None
  \/ inflateFlate P (slice bytes (idx + len) stop) = Some [] ->
  readStream P bytes pdfLatin idx len stop st = seen st.
Proof.
  intros Hflate Hfail. unfold readStream. rewrite Hflate.
  destruct Hfail as [-> | ->]; reflexivity.
Qed.

(** A stream that is not marked /FlateDecode adds the strings kept from
    it, joined, when they are longer than 30 units, and nothing otherwise. *)
Lemma readStream_plain P bytes pdfLatin idx len stop st :
  includes (lit "/FlateDecode") (slice pdfLatin (idx - 2500) idx) = false ->
  let joined :=
    join (lit " ")
      (extractLiteralStrings P (latin1_decode (slice bytes (idx + len) stop))) in
  readStream P bytes pdfLatin idx len stop st =
  if (30 <? length joined)%nat
  then seen {| out := out st ++ [joined];
               total := total st + Z.of_nat (length joined) + 1;
               streamsSeen := streamsSeen st |}
  else seen st.
Proof.
  intros Hplain. cbv zeta. unfold readStream. rewrite Hplain.
  destruct (extractLiteralStrings P _) as [|w ws]; reflexivity.
Qed.






End PdfFacts.

(** ** The examples of the specification, evaluated *)

Module ExampleFacts.
Import Background Observe Examples.
Local Open Scope Z_scope.

Lemma ascii_toLowerCase_lowers : lowers_ascii ascii_toLowerCase.
Proof. intros s _. reflexivity. Qed.

Lemma image_only_white_cat toLowerCase today settings :
  lowers_ascii toLowerCase ->
  cleanCaptions settings = true -> maxWords settings = Some 4 ->
  addDateSuffix settings = false ->
  ImageApi.captionToFilename toLowerCase today
    (lit "a white cat sitting on floor") settings
  = lit "white-cat-sitting-floor".
Proof.
  intros Hlow Hclean Hwords Hdate.
  unfold ImageApi.captionToFilename, ImageApi.slugified, ImageApi.removeArticle,
    ImageApi.limitWords.
  rewrite Hclean, Hwords, Hdate.
  rewrite (Hlow (lit "a white cat sitting on floor") eq_refl).
  vm_compute. reflexivity.
Qed.

Lemma extension_white_cat toLowerCase today settings :
  lowers_ascii toLowerCase ->
  cleanCaptions settings = true -> maxWords settings = Some 4 ->
  addDateSuffix settings = false ->
  HfApi.captionToFilename toLowerCase today
    (lit "a white cat sitting on floor") settings
  = lit "white-cat-sitting-on".
Proof.
  intros Hlow Hclean Hwords Hdate.
  unfold HfApi.captionToFilename, HfApi.limited, HfApi.words, HfApi.wordLimit.
  rewrite Hclean, Hwords, Hdate.
  rewrite (Hlow (lit "a white cat sitting on floor") eq_refl).
  vm_compute. reflexivity.
Qed.

Lemma extension_of_photo W downloadItem :
  lowers_ascii (toLowerCase W) ->
  filename downloadItem = lit "photo123.jpg" ->
  getImageExtension W downloadItem = lit "jpg".
Proof.
  intros Hlow Hname. unfold getImageExtension.
  rewrite Hname, (Hlow (lit "photo123.jpg") eq_refl). vm_compute. reflexivity.
Qed.


Lemma test_world_answers s caption :
  hfToken s = lit "hf_token" ->
  maxImageSize s = 5 * 1024 * 1024 ->
  skipSmallImages s = false ->
  modelAnswers (test_world s caption) fresh_state photo caption.
Proof.
  intros Ht Hm Hs. unfold modelAnswers. cbn [settings test_world].
  rewrite Ht, Hm, Hs. split; [discriminate|]. split; [reflexivity|].
  exists 200, [255; 216; 255]%N, (lit "/9j/"). repeat split; reflexivity.
Qed.

End ExampleFacts.

(** ** More on the PDF extractor *)

Module PdfTextFacts.
Import PdfExtract Trace.

Lemma forallb_replace_runs_go (p q0 q : N -> bool) r in_run s :
  forallb q r = true ->
  (forall c, q0 c = true -> p c = false -> q c = true) ->
  forallb q0 s = true ->
  forallb q (replace_runs_go p r in_run s) = true.
Proof.
  intros Hr Hq. revert in_run.
  induction s as [|c t IH]; intros in_run Hs; [reflexivity|].
  cbn [forallb] in Hs. apply andb_true_iff in Hs as [Hc Ht].
  cbn [replace_runs_go]. destruct (p c) eqn:Hp.
  - destruct in_run; [apply IH, Ht|].
    rewrite forallb_app, Hr. apply IH, Ht.
  - cbn [forallb]. rewrite (Hq c Hc Hp). apply IH, Ht.
Qed.

Lemma forallb_true {A} (l : list A) : forallb (fun _ => true) l = true.
Proof. induction l; [reflexivity | assumption]. Qed.

Lemma cleanupText_units s : forallb is_clean (cleanupText s) = true.
Proof.
  unfold cleanupText. apply HfApiFacts.forallb_trim.
  apply (forallb_replace_runs_go is_control
           (fun c => negb (is_space c) || (c =? 32)%N) is_clean).
  - reflexivity.
  - intros c Hc Hp. unfold is_clean. rewrite Hp, Hc. reflexivity.
  - apply (forallb_replace_runs_go is_space (fun _ => true)).
    + reflexivity.
    + intros c _ Hp. rewrite Hp. reflexivity.
    + apply forallb_true.
Qed.

Lemma head_drop_while p s c :
  head (drop_while p s) = Some c -> p c = false.
Proof.
  induction s as [|d t IH]; cbn [drop_while]; [discriminate|].
  destruct (p d) eqn:Hd; [exact IH|].
  cbn. intros [= <-]. exact Hd.
Qed.

Lemma drop_while_end_cons p c t :
  drop_while_end p (c :: t) = [] \/
  exists r, drop_while_end p (c :: t) = c :: r.
Proof.
  cbn [drop_while_end]. destruct (drop_while_end p t) as [|d r].
  - destruct (p c); [left | right; exists []]; reflexivity.
  - right. eexists. reflexivity.
Qed.

Lemma head_drop_while_end p s c :
  head (drop_while_end p s) = Some c -> head s = Some c.
Proof.
  destruct s as [|d t]; [discriminate|].
  destruct (drop_while_end_cons p d t) as [-> | [r ->]]; [discriminate|].
  intros H. exact H.
Qed.

Lemma last_drop_while_end p s c :
  last (drop_while_end p s) = Some c -> p c = false.
Proof.
  induction s as [|d t IH]; [discriminate|].
  cbn [drop_while_end]. destruct (drop_while_end p t) as [|e r] eqn:E.
  - destruct (p d) eqn:Hd; [discriminate|]. cbn. intros [= <-]. exact Hd.
  - rewrite last_cons_cons. exact IH.
Qed.

Lemma trim_ends s c :
  head (trim s) = Some c \/ last (trim s) = Some c -> is_space c = false.
Proof.
  unfold trim. intros [H | H].
  - apply head_drop_while_end in H. eapply head_drop_while, H.
  - eapply last_drop_while_end, H.
Qed.

(** *** Literal strings *)

Lemma decodeLiteral_plain s :
  forallb (fun c => negb (c =? 92)%N) s = true -> decodeLiteral_go 0 s = s.
Proof.
  induction s as [|c t IH]; [reflexivity|].
  cbn [forallb]. intros H. apply andb_true_iff in H as [Hc Ht].
  cbn [decodeLiteral_go]. rewrite Hc. f_equal. apply IH, Ht.
Qed.

Lemma length_decodeLiteral_go n :
  forall s skip, (length s <= n)%nat ->
  (length (decodeLiteral_go skip s) <= length s - skip)%nat.
Proof.
  induction n as [|n IH]; intros s skip Hn.
  - destruct s; [cbn; lia | cbn in Hn; lia].
  - destruct s as [|ch t]; [cbn; lia|].
    cbn [length] in Hn. assert (Ht : (length t <= n)%nat) by lia.
    destruct skip as [|k].
    + cbn [decodeLiteral_go]. destruct (negb (ch =? 92)%N).
      * cbn [length]. specialize (IH t 0%nat Ht). lia.
      * destruct t as [|next t']; [cbn; lia|].
        repeat match goal with
               | |- context [if ?b then _ else _] => destruct b
               | |- context [match ?x with _ => _ end] => destruct x
               end;
          cbn [length app];
          repeat match goal with
                 | |- context [decodeLiteral_go ?k ?u] =>
                     lazymatch goal with
                     | _ : (length (decodeLiteral_go k u) <= _)%nat |- _ => fail
                     | _ => pose proof (IH u k Ht)
                     end
                 end;
          cbn [length] in *; lia.
    + cbn [decodeLiteral_go length]. specialize (IH t k Ht). lia.
Qed.

Lemma length_decodePdfLiteralString s :
  (length (decodePdfLiteralString s) <= length s)%nat.
Proof.
  unfold decodePdfLiteralString.
  pose proof (length_decodeLiteral_go (length s) s 0 (le_n _)). lia.
Qed.

Lemma decodeLiteral_escaped s :
  decodeLiteral_go 0
    (flat_map
       (fun c => if (c =? 92)%N || (c =? 40)%N || (c =? 41)%N
                 then [92%N; c] else [c]) s)
  = s.
Proof.
  induction s as [|c t IH]; [reflexivity|].
  cbn [flat_map].
  destruct (c =? 92)%N eqn:E1; [|destruct (c =? 40)%N eqn:E2;
                                  [|destruct (c =? 41)%N eqn:E3]];
    cbn [orb app].
  - apply N.eqb_eq in E1. subst c. cbn. f_equal. exact IH.
  - apply N.eqb_eq in E2. subst c. cbn. f_equal. exact IH.
  - apply N.eqb_eq in E3. subst c. cbn. f_equal. exact IH.
  - cbn [decodeLiteral_go]. rewrite E1. cbn [negb]. f_equal. exact IH.
Qed.

(** *** The strings kept from a stream *)

Lemma isUsefulText_length r : isUsefulText r = true -> (6 <= length r)%nat.
Proof.
  unfold isUsefulText. destruct (is_empty r); [discriminate|].
  destruct (length r <? 6)%nat eqn:E; [discriminate|].
  intros _. apply Nat.ltb_ge in E. exact E.
Qed.

Lemma filter_existsb {A} (p : A -> bool) l :
  (1 <= length (List.filter p l))%nat -> existsb p l = true.
Proof.
  induction l as [|x t IH]; cbn; [lia|].
  destruct (p x); [reflexivity|]. exact IH.
Qed.

Lemma isUsefulText_alnum r : isUsefulText r = true -> existsb is_alnum r = true.
Proof.
  intros H. pose proof (isUsefulText_length r H) as Hlen.
  unfold isUsefulText in H. destruct (is_empty r); [discriminate|].
  destruct (length r <? 6)%nat; [discriminate|].
  destruct (length (List.filter is_alnum r) <? Nat.min 6 (length r / 4))%nat eqn:E;
    [discriminate|].
  apply Nat.ltb_ge in E. apply filter_existsb.
  assert (1 <= length r / 4)%nat.
  { change 1%nat with (4 / 4)%nat. apply Nat.Div0.div_le_mono. lia. }
  lia.
Qed.

Lemma collect_kept (Q : str -> Prop) tok decode rest :
  (forall raw, isUsefulText (cleanupText (decode raw)) = true ->
               Q (cleanupText (decode raw))) ->
  forall skip results,
    Forall Q results -> Forall Q (collect tok decode rest skip results).
Proof.
  intros HQ. induction rest as [|c t IH]; intros skip results Hr; [exact Hr|].
  cbn [collect]. destruct skip as [|k]; [|apply IH, Hr].
  destruct (tok (c :: t)) as [[raw len]|]; [|apply IH, Hr].
  assert (Hr' : Forall Q
                  (if isUsefulText (cleanupText (decode raw))
                   then results ++ [cleanupText (decode raw)] else results)).
  { destruct (isUsefulText (cleanupText (decode raw))) eqn:E; [|exact Hr].
    apply Forall_app. split; [exact Hr|]. constructor; [|constructor].
    apply HQ, E. }
  cbv zeta.
  destruct (3500 <? length (join (lit " ") _))%nat; [exact Hr'|].
  apply IH, Hr'.
Qed.

Lemma extractLiteralStrings_kept P streamText :
  Forall (fun r => isUsefulText r = true /\ forallb is_clean r = true)
    (extractLiteralStrings P streamText).
Proof.
  unfold extractLiteralStrings.
  apply collect_kept.
  { intros raw H. split; [exact H | apply cleanupText_units]. }
  apply collect_kept; [|constructor].
  intros raw H. split; [exact H | apply cleanupText_units].
Qed.

(** *** The scan of the streams *)




(** *** Entities *)

Lemma replace_go_literally pat repl prev prev' s skip :
  replace_go (literally pat) repl prev s skip
  = replace_go (literally pat) repl prev' s skip.
Proof.
  revert prev prev' skip. induction s as [|c t IH]; intros prev prev' skip;
    [reflexivity|].
  cbn [replace_go]. destruct skip; [|apply IH].
  unfold literally at 1 3. reflexivity.
Qed.

Lemma decodeHtmlEntities_twice s :
  strip_prefix N.eqb (lit "amp;") s = None ->
  decodeHtmlEntities (lit "&amp;" ++ s) = decodeHtmlEntities (lit "&" ++ s).
Proof.
  intros Hs. unfold decodeHtmlEntities. do 4 f_equal.
  unfold replace_all.
  change (lit "&amp;" ++ s) with (38%N :: (lit "amp;" ++ s)).
  change (lit "&" ++ s) with (38%N :: s).
  cbn [replace_go].
  assert (E1 : literally (lit "&amp;") None (38%N :: lit "amp;" ++ s) = Some s)
    by reflexivity.
  rewrite E1.
  assert (E2 : literally (lit "&amp;") None (38%N :: s) = None).
  { unfold literally. change (lit "&amp;") with (38%N :: lit "amp;").
    cbn [strip_prefix]. rewrite N.eqb_refl. exact Hs. }
  rewrite E2.
  replace (length (38%N :: lit "amp;" ++ s) - length s)%nat with 5%nat
    by (cbn [length app]; rewrite length_app; change (length (lit "amp;")) with 4%nat; lia).
  change (lit "amp;" ++ s) with (97%N :: 109%N :: 112%N :: 59%N :: s).
  cbn [replace_go]. change (lit "&") with [38%N]. cbn [app]. f_equal.
  apply replace_go_literally.
Qed.

End PdfTextFacts.

(** ** More on the helpers of the worker *)

Module WorkerFacts.
Import Background Trace.

Lemma afterLastSeparator_go_plain s acc :
  forallb (fun c => negb ((c =? 92)%N || (c =? 47)%N)) s = true ->
  afterLastSeparator_go s acc = acc ++ s.
Proof.
  revert acc. induction s as [|c t IH]; intros acc H.
  - cbn. rewrite app_nil_r. reflexivity.
  - cbn [forallb] in H. apply andb_true_iff in H as [Hc Ht].
    cbn [afterLastSeparator_go]. apply negb_true_iff in Hc. rewrite Hc.
    rewrite IH by exact Ht. rewrite <- app_assoc. reflexivity.
Qed.

Lemma afterLastSeparator_go_app dir sep s acc :
  (sep = 92 \/ sep = 47)%N ->
  forallb (fun c => negb ((c =? 92)%N || (c =? 47)%N)) s = true ->
  afterLastSeparator_go (dir ++ sep :: s) acc = s.
Proof.
  intros Hsep Hs. revert acc. induction dir as [|c t IH]; intros acc.
  - cbn [app afterLastSeparator_go].
    replace ((sep =? 92)%N || (sep =? 47)%N) with true
      by (destruct Hsep; subst sep; reflexivity).
    apply (afterLastSeparator_go_plain s [] Hs).
  - cbn [app afterLastSeparator_go]. destruct (_ || _); apply IH.
Qed.

Lemma dropExtension_app base ext :
  ext <> [] -> forallb (fun d => negb (d =? 46)%N) ext = true ->
  dropExtension (base ++ 46%N :: ext) = base.
Proof.
  intros Hne Hext. induction base as [|c t IH].
  - cbn [app dropExtension]. rewrite Hext.
    destruct ext; [congruence | reflexivity].
  - cbn [app dropExtension].
    replace (forallb (fun d => negb (d =? 46)%N) (t ++ 46%N :: ext)) with false.
    + rewrite andb_false_r. f_equal. exact IH.
    + symmetry. rewrite forallb_app. cbn. apply andb_false_r.
Qed.

Lemma dropExtension_plain s :
  forallb (fun d => negb (d =? 46)%N) s = true -> dropExtension s = s.
Proof.
  induction s as [|c t IH]; [reflexivity|].
  cbn [forallb]. intros H. apply andb_true_iff in H as [Hc Ht].
  cbn [dropExtension]. apply negb_true_iff in Hc. rewrite Hc.
  cbn [andb]. f_equal. apply IH, Ht.
Qed.

End WorkerFacts.

(** ** Runs of the flows, step by step *)

Module FlowFacts.
Import Background Observe Trace.
Local Open Scope Z_scope.

Lemma steps_ret R `{!Reflexive R} {A} (a : A) : steps R (ret a).
Proof. intros st. reflexivity. Qed.

Lemma steps_throw R `{!Reflexive R} {A} e : steps R (@throw A e).
Proof. intros st. reflexivity. Qed.

Lemma steps_lift R `{!Reflexive R} {A} (r : Result A) : steps R (lift r).
Proof. intros st. reflexivity. Qed.

Lemma steps_bind R `{!Transitive R} {A B} (c : M A) (k : A -> M B) :
  steps R c -> (forall a, steps R (k a)) -> steps R (bind c k).
Proof.
  intros Hc Hk st. unfold bind. specialize (Hc st).
  destruct (c st) as [[a|e] st1]; cbn [snd] in *; [|exact Hc].
  etransitivity; [exact Hc | apply Hk].
Qed.

Lemma steps_try_catch R `{!Transitive R} {A} (body : M A) handler :
  steps R body -> (forall e, steps R (handler e)) ->
  steps R (try_catch body handler).
Proof.
  intros Hc Hk st. unfold try_catch. specialize (Hc st).
  destruct (body st) as [[a|e] st1]; cbn [snd] in *; [exact Hc|].
  etransitivity; [exact Hc | apply Hk].
Qed.

(** Takes a computation apart down to [emit], [consumeRateLimit],
    [addToHistory] and [updateStats], which [leaf] is to solve. *)
Ltac steps_go leaf :=
  cbv zeta;
  lazymatch goal with
  | |- steps _ (bind _ _) =>
      apply steps_bind;
      [typeclasses eauto | steps_go leaf | intros; steps_go leaf]
  | |- steps _ (try_catch _ _) =>
      apply steps_try_catch;
      [typeclasses eauto | steps_go leaf | intros; steps_go leaf]
  | |- steps _ (ret _) => apply steps_ret; typeclasses eauto
  | |- steps _ (throw _) => apply steps_throw; typeclasses eauto
  | |- steps _ (lift _) => apply steps_lift; typeclasses eauto
  | |- steps _ (if ?b then _ else _) => destruct b; steps_go leaf
  | |- steps _ (match ?x with _ => _ end) => destruct x; steps_go leaf
  | |- steps _ (recordFailure _ _ _ _) => unfold recordFailure; steps_go leaf
  | |- steps _ (fetchFile _ _ _) => unfold fetchFile; steps_go leaf
  | |- steps _ (updateBadge _ _) => unfold updateBadge; steps_go leaf
  | |- steps _ (notify _ _ _) => unfold notify; steps_go leaf
  | |- steps _ (ImageBackground.urlHostname _ _) =>
      unfold ImageBackground.urlHostname; steps_go leaf
  | |- _ => leaf
  end.

(** *** Counting calls *)

Lemma count_app f a b : count f (a ++ b) = (count f a + count f b)%nat.
Proof. unfold count. rewrite List.filter_app, length_app. reflexivity. Qed.

Lemma sparing_refl f n st : sparing f n st st.
Proof. exists []. rewrite app_nil_r. split; [reflexivity | cbn; lia]. Qed.

Lemma sparing_trans f n m st1 st2 st3 :
  sparing f n st1 st2 -> sparing f m st2 st3 -> sparing f (n + m) st1 st3.
Proof.
  intros (c1 & E1 & H1) (c2 & E2 & H2). exists (c1 ++ c2). split.
  - rewrite E2, E1, app_assoc. reflexivity.
  - rewrite count_app. lia.
Qed.

Lemma sparing_le f n m st st' :
  (n <= m)%nat -> sparing f n st st' -> sparing f m st st'.
Proof. intros Hle (c & E & H). exists c. split; [exact E | lia]. Qed.

#[export] Instance sparing_zero_reflexive f : Reflexive (sparing f 0).
Proof. intros st. apply sparing_refl. Qed.

#[export] Instance sparing_zero_transitive f : Transitive (sparing f 0).
Proof. intros a b c H1 H2. apply (sparing_trans f 0 0 a b c H1 H2). Qed.

Lemma sparing_bind f n m {A B} (c : M A) (k : A -> M B) :
  steps (sparing f n) c -> (forall a, steps (sparing f m) (k a)) ->
  steps (sparing f (n + m)) (bind c k).
Proof.
  intros Hc Hk st. unfold bind. specialize (Hc st).
  destruct (c st) as [[a|e] st1]; cbn [snd] in *.
  - eapply sparing_trans; [exact Hc | apply Hk].
  - eapply sparing_le; [|exact Hc]. lia.
Qed.

Lemma sparing_try_catch f n m {A} (body : M A) handler :
  steps (sparing f n) body -> (forall e, steps (sparing f m) (handler e)) ->
  steps (sparing f (n + m)) (try_catch body handler).
Proof.
  intros Hc Hk st. unfold try_catch. specialize (Hc st).
  destruct (body st) as [[a|e] st1]; cbn [snd] in *.
  - eapply sparing_le; [|exact Hc]. lia.
  - eapply sparing_trans; [exact Hc | apply Hk].
Qed.

Lemma sparing_emit_other f e : f e = false -> steps (sparing f 0) (emit e).
Proof.
  intros Hf st. exists [e]. split; [reflexivity|].
  unfold count. cbn. rewrite Hf. cbn. lia.
Qed.

Lemma sparing_emit f e : steps (sparing f 1) (emit e).
Proof.
  intros st. exists [e]. split; [reflexivity|].
  unfold count. cbn. destruct (f e); cbn; lia.
Qed.

Lemma sparing_consumeRateLimit f W : steps (sparing f 0) (consumeRateLimit W).
Proof.
  intros st. unfold consumeRateLimit.
  destruct (checkRateLimit (now W) (limiter st)) as [r l]. cbn.
  exists []. rewrite app_nil_r. split; [reflexivity | cbn; lia].
Qed.

Lemma sparing_addToHistory f W entry :
  (forall h, f (StorageSetHistory h) = false) ->
  steps (sparing f 0) (addToHistory W entry).
Proof.
  intros Hf st. unfold addToHistory. cbn. eexists [_]. split; [reflexivity|].
  unfold count. cbn. rewrite Hf. cbn. lia.
Qed.

Lemma sparing_updateStats f ok method :
  (forall s, f (StorageSetStats s) = false) ->
  steps (sparing f 0) (updateStats ok method).
Proof.
  intros Hf st. unfold updateStats. cbn. eexists [_]. split; [reflexivity|].
  unfold count. cbn. rewrite Hf. cbn. lia.
Qed.

Ltac zero_leaf :=
  first [ apply sparing_emit_other; reflexivity
        | apply sparing_consumeRateLimit
        | apply sparing_addToHistory; reflexivity
        | apply sparing_updateStats; reflexivity ].

(** A computation that makes at most one call of the kind: what stands
    before that call, and behind it, makes none. *)
Ltac one_go :=
  cbv zeta;
  lazymatch goal with
  | |- steps (sparing ?f 1) (bind _ _) =>
      first [ apply (sparing_bind f 0 1);
              [solve [steps_go zero_leaf] | intros; one_go]
            | apply (sparing_bind f 1 0);
              [one_go | intros; solve [steps_go zero_leaf]] ]
  | |- steps (sparing ?f 1) (try_catch _ _) =>
      first [ apply (sparing_try_catch f 0 1);
              [solve [steps_go zero_leaf] | intros; one_go]
            | apply (sparing_try_catch f 1 0);
              [one_go | intros; solve [steps_go zero_leaf]] ]
  | |- steps _ (if ?b then _ else _) => destruct b; one_go
  | |- steps _ (match ?x with _ => _ end) => destruct x; one_go
  | |- steps _ (fetchFile _ _ _) => unfold fetchFile; one_go
  | |- steps _ (emit _) => apply sparing_emit
  | |- steps (sparing ?f 1) ?c =>
      let H := fresh in
      assert (H : steps (sparing f 0) c) by (steps_go zero_leaf);
      intros st; eapply sparing_le; [|apply H]; lia
  end.

Lemma renameImage_sparing W downloadItem :
  steps (sparing isFetch 1) (renameImage W downloadItem)
  /\ steps (sparing isModelCall 1) (renameImage W downloadItem).
Proof. split; unfold renameImage; one_go. Qed.

Lemma renamePdf_sparing W downloadItem :
  steps (sparing isFetch 1) (renamePdf W downloadItem)
  /\ steps (sparing isModelCall 1) (renamePdf W downloadItem).
Proof. split; unfold renamePdf; one_go. Qed.

Lemma image_only_renameImage_sparing W downloadItem :
  steps (sparing isFetch 1) (ImageBackground.renameImage W downloadItem)
  /\ steps (sparing isModelCall 1) (ImageBackground.renameImage W downloadItem).
Proof. split; unfold ImageBackground.renameImage; one_go. Qed.

(** *** The rate limiter along a flow *)

#[export] Instance sameLimiter_reflexive : Reflexive sameLimiter.
Proof. intros st. reflexivity. Qed.

#[export] Instance sameLimiter_transitive : Transitive sameLimiter.
Proof. unfold sameLimiter. intros a b c H1 H2. congruence. Qed.

Ltac same_leaf := intros ?; reflexivity.

Lemma try_catch_bind {A B} (c : M A) (k : A -> M B) handler st :
  try_catch (bind c k) handler st
  = match c st with
    | (Ok a, st1) => try_catch (k a) handler st1
    | (Err e, st1) => handler e st1
    end.
Proof. unfold try_catch, bind. destruct (c st) as [[a|e] st1]; reflexivity. Qed.

Ltac limiter_tail :=
  lazymatch goal with
  | |- limiter (snd (?c ?s)) = _ =>
      let H := fresh in
      assert (H : steps sameLimiter c) by (steps_go same_leaf);
      exact (H s)
  end.

Lemma renameImage_limiter W downloadItem st :
  limiter (snd (renameImage W downloadItem st))
  = if is_empty (hfToken (settings W)) then limiter st
    else snd (checkRateLimit (now W) (limiter st)).
Proof.
  unfold renameImage. cbv zeta. rewrite try_catch_bind.
  destruct (is_empty (hfToken (settings W))).
  - unfold throw. limiter_tail.
  - unfold ret at 1. rewrite try_catch_bind. unfold consumeRateLimit at 1.
    destruct (checkRateLimit (now W) (limiter st)) as [[[]|e] l]; cbn [snd];
      limiter_tail.
Qed.

Lemma renamePdf_limiter W downloadItem st :
  limiter (snd (renamePdf W downloadItem st))
  = if negb (enablePdfRenaming (settings W)) || is_empty (hfToken (settings W))
    then limiter st
    else snd (checkRateLimit (now W) (limiter st)).
Proof.
  unfold renamePdf. cbv zeta.
  destruct (negb (enablePdfRenaming (settings W))); [reflexivity|].
  cbn [orb]. rewrite try_catch_bind.
  destruct (is_empty (hfToken (settings W))).
  - unfold throw. limiter_tail.
  - unfold ret at 1. rewrite try_catch_bind. unfold consumeRateLimit at 1.
    destruct (checkRateLimit (now W) (limiter st)) as [[[]|e] l]; cbn [snd];
      limiter_tail.
Qed.

(** *** What is stored stays in order *)

#[export] Instance keeps_reflexive I : Reflexive (keeps I).
Proof. intros st H. exact H. Qed.

#[export] Instance keeps_transitive I : Transitive (keeps I).
Proof. unfold keeps. intros a b c H1 H2 H. auto. Qed.

Lemma sourceTotal_counted (m : gmap string Z) k :
  sourceTotal (<[k := default 0 (m !! k) + 1]> m) = sourceTotal m + 1.
Proof.
  unfold sourceTotal. destruct (m !! k) as [x|] eqn:E; cbn [from_option];
    unfold Datatypes.id.
  - rewrite <- insert_delete_eq.
    rewrite map_fold_insert_L; [| intros; lia | apply lookup_delete_eq].
    rewrite (map_fold_delete_L _ _ k x m); [lia | intros; lia | exact E].
  - rewrite map_fold_insert_L; [lia | intros; lia | exact E].
Qed.

Lemma updateStats_balanced ok method st :
  match stats st with Some s => balanced s | None => True end ->
  match stats (snd (updateStats ok method st)) with
  | Some s => balanced s
  | None => True
  end.
Proof.
  intros H. unfold updateStats, emit. cbn [snd stats].
  assert (Hb : balanced match stats st with
                        | Some s => s
                        | None => {| totalRenames := 0; successful := 0;
                                     failed := 0; bySource := ∅ |}
                        end).
  { destruct (stats st) as [s|]; [exact H|].
    repeat split; cbn; try lia. }
  destruct Hb as (H1 & H2 & H3 & H4).
  unfold balanced. cbn [totalRenames successful failed bySource].
  rewrite sourceTotal_counted. destruct ok; lia.
Qed.

Lemma keeps_emit e : steps (keeps wellKept) (emit e).
Proof. intros st H. exact H. Qed.

Lemma keeps_consumeRateLimit W : steps (keeps wellKept) (consumeRateLimit W).
Proof.
  intros st H. unfold consumeRateLimit.
  destruct (checkRateLimit (now W) (limiter st)). exact H.
Qed.

Lemma keeps_addToHistory W entry : steps (keeps wellKept) (addToHistory W entry).
Proof.
  intros st [_ H]. split; [|exact H].
  unfold addToHistory, emit. cbn [snd history]. apply firstn_le_length.
Qed.

Lemma keeps_updateStats ok method : steps (keeps wellKept) (updateStats ok method).
Proof.
  intros st [H1 H2]. split; [exact H1|].
  apply updateStats_balanced, H2.
Qed.

Ltac keeps_leaf :=
  first [ apply keeps_emit | apply keeps_consumeRateLimit
        | apply keeps_addToHistory | apply keeps_updateStats ].

Lemma flows_wellKept W downloadItem :
  steps (keeps wellKept) (renameImage W downloadItem)
  /\ steps (keeps wellKept) (renamePdf W downloadItem)
  /\ steps (keeps wellKept) (ImageBackground.renameImage W downloadItem).
Proof.
  split; [|split].
  - unfold renameImage. steps_go keeps_leaf.
  - unfold renamePdf. steps_go keeps_leaf.
  - unfold ImageBackground.renameImage. steps_go keeps_leaf.
Qed.

(** *** The names returned *)

Lemma yields_bind {A} Q (c : M A) k :
  (forall a, yields Q (k a)) -> yields Q (bind c k).
Proof.
  intros Hk st. unfold bind. destruct (c st) as [[a|e] st1]; [apply Hk | exact I].
Qed.

Lemma yields_try_catch Q body handler :
  yields Q body -> (forall e, yields Q (handler e)) ->
  yields Q (try_catch body handler).
Proof.
  intros Hb Hh st. unfold try_catch. specialize (Hb st).
  destruct (body st) as [[a|e] st1]; [exact Hb | apply Hh].
Qed.

Lemma yields_ret_some Q name : Q name -> yields Q (ret (Some name)).
Proof. intros H st. exact H. Qed.

Lemma yields_ret_none Q : yields Q (ret None).
Proof. intros st. exact I. Qed.

Lemma yields_throw Q e : yields Q (throw e).
Proof. intros st. exact I. Qed.

Ltac yields_go :=
  cbv zeta;
  lazymatch goal with
  | |- yields _ (bind _ _) => apply yields_bind; intros; yields_go
  | |- yields _ (try_catch _ _) =>
      apply yields_try_catch; [yields_go | intros; yields_go]
  | |- yields _ (ret None) => apply yields_ret_none
  | |- yields _ (ret (Some _)) => apply yields_ret_some
  | |- yields _ (throw _) => apply yields_throw
  | |- yields _ (if ?b then _ else _) => destruct b; yields_go
  | |- yields _ (recordFailure _ _ _ _) => unfold recordFailure; yields_go
  | |- yields _ (ImageBackground.urlHostname _ _) =>
      unfold ImageBackground.urlHostname; yields_go
  | |- yields _ (match ?x with _ => _ end) => destruct x; yields_go
  end.

Lemma captionToFilename_hf_units toLowerCase today caption settings :
  forallb SlugAutomaton.hf_unit today = true ->
  forallb SlugAutomaton.hf_unit
    (HfApi.captionToFilename toLowerCase today caption settings) = true.
Proof.
  intros Ht. unfold HfApi.captionToFilename. cbv zeta.
  pose proof (HfApiFacts.limited_units toLowerCase caption settings) as Hl.
  destruct (addDateSuffix settings).
  - rewrite !forallb_app, Hl, Ht. reflexivity.
  - destruct (is_empty _); [reflexivity | exact Hl].
Qed.

Lemma getImageExtension_known W downloadItem :
  In (getImageExtension W downloadItem) imageExtensions.
Proof.
  unfold getImageExtension. cbv zeta.
  destruct (isImageType _) eqn:E.
  - unfold isImageType in E. apply existsb_exists in E as (x & Hin & Hx).
    unfold str_eqb in Hx. apply bool_decide_eq_true in Hx. subst x. exact Hin.
  - unfold imageExtensions, IMAGE_TYPES.
    repeat match goal with
           | |- context [if ?b then _ else _] => destruct b
           end; cbn; tauto.
Qed.

(** *** The ways a flow fails before the model is asked *)

Lemma recordFailure_run W e downloadItem t st :
  fst (recordFailure W e downloadItem t st) = Ok None
  /\ limiter (snd (recordFailure W e downloadItem t st)) = limiter st
  /\ newest (snd (recordFailure W e downloadItem t st))
     = Some (failureEntry W e downloadItem t)
  /\ sparing isFetch 0 st (snd (recordFailure W e downloadItem t st))
  /\ sparing isModelCall 0 st (snd (recordFailure W e downloadItem t st)).
Proof.
  split; [apply BackgroundFacts.recordFailure_once|].
  split.
  { assert (H : steps sameLimiter (recordFailure W e downloadItem t))
      by (steps_go same_leaf).
    apply H. }
  split.
  { unfold newest, recordFailure, bind, addToHistory, updateStats, updateBadge,
      notify, emit, ret.
    cbn. destruct (enableNotifications (settings W)); reflexivity. }
  split.
  - assert (H : steps (sparing isFetch 0) (recordFailure W e downloadItem t))
      by (steps_go zero_leaf).
    apply H.
  - assert (H : steps (sparing isModelCall 0) (recordFailure W e downloadItem t))
      by (steps_go zero_leaf).
    apply H.
Qed.

Lemma renameImage_no_token W downloadItem st :
  hfToken (settings W) = [] ->
  renameImage W downloadItem st
  = recordFailure W TokenNotConfigured downloadItem image st.
Proof.
  intros H. unfold renameImage. cbv zeta. rewrite try_catch_bind, H.
  reflexivity.
Qed.

Lemma renamePdf_no_token W downloadItem st :
  enablePdfRenaming (settings W) = true ->
  hfToken (settings W) = [] ->
  renamePdf W downloadItem st
  = recordFailure W TokenNotConfigured downloadItem pdf st.
Proof.
  intros Hon H. unfold renamePdf. cbv zeta. rewrite Hon. cbn [negb].
  rewrite try_catch_bind, H. reflexivity.
Qed.

Lemma checkRateLimit_refused now l e :
  fst (checkRateLimit now l) = Err e ->
  snd (checkRateLimit now l) = l
  /\ exists seconds, e = RateLimitReached seconds /\ 0 <= seconds.
Proof.
  unfold checkRateLimit. cbv zeta.
  destruct (60000 <? now - requestTimestamp l) eqn:Hw.
  - cbn [requestCount]. unfold maxPerMinute. cbn. discriminate.
  - destruct (maxPerMinute <=? requestCount l); cbn; [|discriminate].
    intros [= <-]. split; [reflexivity|]. eexists. split; [reflexivity|].
    apply Z.ltb_ge in Hw. unfold ceil_seconds.
    assert ((- (60000 - (now - requestTimestamp l))) / 1000 <= 0); [|lia].
    apply Z.div_le_upper_bound; lia.
Qed.

Lemma consumeRateLimit_refused W st e :
  fst (checkRateLimit (now W) (limiter st)) = Err e ->
  consumeRateLimit W st = (Err e, st).
Proof.
  intros H. destruct (checkRateLimit_refused _ _ _ H) as [Hl _].
  unfold consumeRateLimit.
  destruct (checkRateLimit (now W) (limiter st)) as [r l]. cbn in *.
  subst r l. destruct st; reflexivity.
Qed.

Lemma token_set (token : str) : token <> [] -> is_empty token = false.
Proof. destruct token; [congruence | reflexivity]. Qed.

Lemma renameImage_refused W downloadItem st e :
  hfToken (settings W) <> [] ->
  fst (checkRateLimit (now W) (limiter st)) = Err e ->
  renameImage W downloadItem st = recordFailure W e downloadItem image st.
Proof.
  intros Ht He. unfold renameImage. cbv zeta.
  rewrite try_catch_bind, (token_set _ Ht). unfold ret at 1.
  rewrite try_catch_bind, (consumeRateLimit_refused W st e He). reflexivity.
Qed.

Lemma renamePdf_refused W downloadItem st e :
  enablePdfRenaming (settings W) = true ->
  hfToken (settings W) <> [] ->
  fst (checkRateLimit (now W) (limiter st)) = Err e ->
  renamePdf W downloadItem st = recordFailure W e downloadItem pdf st.
Proof.
  intros Hon Ht He. unfold renamePdf. cbv zeta. rewrite Hon. cbn [negb].
  rewrite try_catch_bind, (token_set _ Ht). unfold ret at 1.
  rewrite try_catch_bind, (consumeRateLimit_refused W st e He). reflexivity.
Qed.

Lemma fetchFile_too_large W url maxSize status body st :
  fetch W url = Response true status body ->
  maxSize < Z.of_nat (length body) ->
  fetchFile W url maxSize st
  = (Err (FileTooLarge (Z.of_nat (length body)) maxSize),
     snd (fetchFile W url maxSize st)).
Proof.
  intros Hf Hsize. apply Z.ltb_lt in Hsize.
  unfold fetchFile, bind, emit, throw. rewrite Hf, Hsize. reflexivity.
Qed.

(** The flow up to the fetch, when the fetch throws [e]: the failure is
    recorded from the state the fetch leaves. *)
Lemma fetch_failure_recorded W (f : Effect -> bool) text color url maxSize
    (k : list N -> M (option str)) downloadItem t st e :
  (forall u, f (SetBadgeText u) = false) ->
  (forall u, f (SetBadgeBackgroundColor u) = false) ->
  f ClearBadgeLater = false -> f (FetchFile url) = false ->
  hfToken (settings W) <> [] ->
  fst (checkRateLimit (now W) (limiter st)) = Ok tt ->
  (forall st0, fst (fetchFile W url maxSize st0) = Err e) ->
  exists st1,
    try_catch
      (do _ <- (if is_empty (hfToken (settings W)) then throw TokenNotConfigured
                else ret tt);
       do _ <- consumeRateLimit W;
       do _ <- updateBadge text color;
       do buffer <- fetchFile W url maxSize;
       k buffer)
      (fun e => recordFailure W e downloadItem t) st
    = recordFailure W e downloadItem t st1
    /\ sparing f 0 st st1
    /\ limiter st1 = snd (checkRateLimit (now W) (limiter st)).
Proof.
  intros F1 F2 F3 F4 Ht Hr He.
  destruct (BackgroundFacts.consumeRateLimit_run W st Hr) as [st1 E1].
  destruct (BackgroundFacts.updateBadge_run text color st1) as [st2 E2].
  exists (snd (fetchFile W url maxSize st2)).
  assert (Hl : limiter (snd (fetchFile W url maxSize st2))
               = snd (checkRateLimit (now W) (limiter st))).
  { assert (L2 : steps sameLimiter (updateBadge text color))
      by (steps_go same_leaf).
    assert (L3 : steps sameLimiter (fetchFile W url maxSize))
      by (steps_go same_leaf).
    specialize (L2 st1). rewrite E2 in L2. specialize (L3 st2).
    unfold sameLimiter in *. cbn [snd] in *. rewrite L3, L2.
    unfold consumeRateLimit in E1.
    destruct (checkRateLimit (now W) (limiter st)) as [r l].
    injection E1 as _ <-. reflexivity. }
  split; [|split; [|exact Hl]].
  - rewrite try_catch_bind, (token_set _ Ht). unfold ret at 1.
    rewrite try_catch_bind, E1, try_catch_bind, E2, try_catch_bind.
    specialize (He st2).
    destruct (fetchFile W url maxSize st2) as [r st3]. cbn in *. subst r.
    reflexivity.
  - assert (H1 : steps (sparing f 0) (consumeRateLimit W))
      by apply sparing_consumeRateLimit.
    assert (H2 : steps (sparing f 0) (updateBadge text color)).
    { unfold updateBadge.
      apply steps_bind; [typeclasses eauto | apply sparing_emit_other, F1|].
      intros _. apply steps_bind; [typeclasses eauto | |].
      - destruct (is_empty color);
          [apply steps_ret; typeclasses eauto | apply sparing_emit_other, F2].
      - intros _. destruct (is_empty text);
          [apply steps_ret; typeclasses eauto | apply sparing_emit_other, F3]. }
    assert (H3 : steps (sparing f 0) (fetchFile W url maxSize)).
    { unfold fetchFile.
      apply steps_bind; [typeclasses eauto | apply sparing_emit_other, F4|].
      intros _. destruct (fetch W url) as [|ok status body].
      - apply steps_throw; typeclasses eauto.
      - destruct (negb ok); [apply steps_throw; typeclasses eauto|].
        destruct (_ <? _);
          [apply steps_throw | apply steps_ret]; typeclasses eauto. }
    specialize (H1 st). rewrite E1 in H1. specialize (H2 st1). rewrite E2 in H2.
    specialize (H3 st2). cbn [snd] in *.
    etransitivity; [exact H1|]. etransitivity; [exact H2 | exact H3].
Qed.

(** *** The names the flows return *)

Lemma renameImage_names W downloadItem :
  forallb SlugAutomaton.hf_unit (today W) = true ->
  yields
    (fun name =>
       exists base ext,
         name = base ++ lit "." ++ ext
         /\ forallb SlugAutomaton.hf_unit base = true
         /\ In ext imageExtensions)
    (renameImage W downloadItem).
Proof.
  intros Ht. unfold renameImage. yields_go.
  eexists _, _. split; [reflexivity|]. split.
  - unfold captionToFilename. apply captionToFilename_hf_units, Ht.
  - apply getImageExtension_known.
Qed.

Lemma renamePdf_names W downloadItem :
  forallb SlugAutomaton.hf_unit (today W) = true ->
  yields
    (fun name =>
       exists base,
         name = base ++ lit ".pdf" /\ forallb SlugAutomaton.hf_unit base = true)
    (renamePdf W downloadItem).
Proof.
  intros Ht. unfold renamePdf. yields_go.
  eexists. split; [reflexivity|].
  unfold captionToFilename. apply captionToFilename_hf_units, Ht.
Qed.

Lemma image_only_renameImage_names W downloadItem :
  slug_shape (today W) = true ->
  yields
    (fun name =>
       exists base ext,
         name = base ++ lit "." ++ ext
         /\ slug_shape base = true
         /\ In ext imageExtensions)
    (ImageBackground.renameImage W downloadItem).
Proof.
  intros Ht. unfold ImageBackground.renameImage. yields_go.
  eexists _, _. split; [reflexivity|]. split.
  - unfold ImageBackground.captionToFilename.
    apply ImageApiFacts.captionToFilename_slug, Ht.
  - apply getImageExtension_known.
Qed.

End FlowFacts.

(** ** The event hook *)

Module ListenerFacts.
Import Background Observe Trace Listener FlowFacts.


End ListenerFacts.

(** ** The popup *)

Module PopupFacts.
Import Background Popup.

Lemma split_on_app sep a b :
  split_on sep (a ++ sep :: b) = split_on sep a ++ split_on sep b.
Proof.
  induction a as [|c t IH]; cbn [app split_on].
  - rewrite N.eqb_refl. reflexivity.
  - destruct (c =? sep)%N; [rewrite IH; reflexivity|].
    rewrite IH. destruct (SlugFacts.split_on_cons sep t) as (w & ws & ->).
    reflexivity.
Qed.

Lemma split_on_plain sep s :
  forallb (fun c => negb (c =? sep)%N) s = true -> split_on sep s = [s].
Proof.
  induction s as [|c t IH]; [reflexivity|].
  cbn [forallb]. intros H. apply andb_true_iff in H as [Hc Ht].
  cbn [split_on]. apply negb_true_iff in Hc. rewrite Hc, (IH Ht). reflexivity.
Qed.

Lemma pop_app a b : b <> [] -> pop (a ++ b) = pop b.
Proof.
  unfold pop. intros Hb. induction a as [|x t IH]; [reflexivity|].
  cbn [app]. destruct (t ++ b) eqn:E; [|exact IH].
  apply app_eq_nil in E as [_ E]. congruence.
Qed.

Lemma pop_extension sep base ext :
  forallb (fun c => negb (c =? sep)%N) ext = true ->
  pop (split_on sep (base ++ sep :: ext)) = ext.
Proof.
  intros H. rewrite split_on_app, (split_on_plain sep ext H).
  rewrite pop_app by discriminate. reflexivity.
Qed.

Lemma pop_plain sep s :
  forallb (fun c => negb (c =? sep)%N) s = true -> pop (split_on sep s) = s.
Proof. intros H. rewrite (split_on_plain sep s H). reflexivity. Qed.

End PopupFacts.

(** ** The image-only slugifier on its own results *)

Module StableFacts.
Import SlugAutomaton ImageApi Trace.

Lemma strip_prefix_no_space eqc w s r :
  strip_prefix eqc w s = Some r -> no_space s = true -> no_space r = true.
Proof.
  revert s. induction w as [|a w IH]; intros s H Hs.
  - cbn in H. congruence.
  - destruct s as [|c t]; [discriminate|]. cbn [strip_prefix] in H.
    destruct (eqc a c); [|discriminate].
    cbn in Hs. apply andb_true_iff in Hs as [_ Ht]. apply (IH t H Ht).
Qed.

Lemma spaces1_no_space s : no_space s = true -> spaces1 s = None.
Proof.
  destruct s as [|c t]; [reflexivity|]. cbn. intros H.
  apply andb_true_iff in H as [Hc _]. apply negb_true_iff in Hc.
  rewrite Hc. reflexivity.
Qed.

Lemma alt_then_no_space eqc ws s :
  no_space s = true -> alt_then eqc ws spaces1 s = None.
Proof.
  intros Hs. induction ws as [|w ws IH]; [reflexivity|].
  cbn [alt_then]. destruct (strip_prefix eqc w s) as [r|] eqn:E; [|exact IH].
  rewrite (spaces1_no_space r (strip_prefix_no_space _ _ _ _ E Hs)). exact IH.
Qed.

Lemma replace_go_none (m : matcher) repl (q : str -> bool) :
  (forall p t, q t = true -> m p t = None) ->
  (forall c t, q (c :: t) = true -> q t = true) ->
  forall s prev, q s = true -> replace_go m repl prev s 0 = s.
Proof.
  intros Hm Hq. induction s as [|c t IH]; intros prev Hs; [reflexivity|].
  cbn [replace_go]. rewrite (Hm prev (c :: t) Hs). f_equal.
  apply IH, (Hq c t Hs).
Qed.

Lemma no_space_tail c t : no_space (c :: t) = true -> no_space t = true.
Proof. cbn. intros H. apply andb_true_iff in H as [_ H]. exact H. Qed.

Lemma removeArticle_no_space settings s :
  no_space s = true -> removeArticle settings s = s.
Proof.
  intros Hs. unfold removeArticle. destruct (cleanCaptions settings); [|reflexivity].
  apply (replace_go_none leading_article [] no_space); [|apply no_space_tail|exact Hs].
  intros p t Ht. unfold leading_article. destruct p; [reflexivity|].
  apply alt_then_no_space, Ht.
Qed.

Lemma removeExtraWords_no_space s :
  no_space s = true -> removeExtraWords s = s.
Proof.
  intros Hs. unfold removeExtraWords, replace_all.
  rewrite (replace_go_none preposition (lit " ") no_space);
    [|intros p t Ht; unfold preposition; rewrite (spaces1_no_space t Ht); reflexivity
     |apply no_space_tail|exact Hs].
  apply (replace_go_none inner_the (lit " ") no_space);
    [|apply no_space_tail|exact Hs].
  intros p t Ht. unfold inner_the. rewrite (spaces1_no_space t Ht). reflexivity.
Qed.

Lemma filter_all {A} (p : A -> bool) l :
  forallb p l = true -> List.filter p l = l.
Proof.
  induction l as [|x t IH]; [reflexivity|]. cbn. intros H.
  apply andb_true_iff in H as [Hx Ht]. rewrite Hx, (IH Ht). reflexivity.
Qed.

Lemma replace_runs_go_none p r s :
  forallb (fun c => negb (p c)) s = true -> replace_runs_go p r false s = s.
Proof.
  induction s as [|c t IH]; [reflexivity|]. cbn [forallb replace_runs_go].
  intros H. apply andb_true_iff in H as [Hc Ht]. apply negb_true_iff in Hc.
  rewrite Hc. f_equal. apply IH, Ht.
Qed.

(** A slug read by the automaton keeps its hyphens, one at a time. *)
Lemma replace_runs_hyphen_accepts need in_run s :
  accepts need s = true -> (in_run = true -> need = true) ->
  replace_runs_go is_hyphen [hyphen] in_run s = s.
Proof.
  revert need in_run. induction s as [|c t IH]; intros need in_run H Hr;
    [reflexivity|].
  cbn [accepts] in H. cbn [replace_runs_go].
  destruct (is_hyphen c) eqn:Hc.
  - apply andb_true_iff in H as [Hn H]. apply negb_true_iff in Hn.
    destruct in_run; [specialize (Hr eq_refl); congruence|].
    unfold is_hyphen in Hc. apply N.eqb_eq in Hc. subst c.
    cbn [app]. f_equal. apply (IH true true H). reflexivity.
  - apply andb_true_iff in H as [_ H]. f_equal.
    apply (IH false false H). discriminate.
Qed.

Lemma accepts_units need s : accepts need s = true -> forallb slug_unit s = true.
Proof.
  revert need. induction s as [|c t IH]; intros need H; [reflexivity|].
  cbn [accepts] in H. cbn [forallb]. unfold slug_unit at 1.
  destruct (is_hyphen c) eqn:Hc.
  - apply andb_true_iff in H as [_ H]. rewrite orb_true_r. apply (IH _ H).
  - apply andb_true_iff in H as [Ha H]. rewrite Ha. apply (IH _ H).
Qed.

Lemma slug_unit_props c :
  slug_unit c = true ->
  is_space c = false /\ is_ascii c = true /\ lower_unit c = c
  /\ (is_lower_alnum c || is_space c || is_hyphen c) = true.
Proof.
  unfold slug_unit. intros H. apply orb_true_iff in H as [H | H].
  - unfold is_lower_alnum, is_lower, is_digit, in_range in H.
    assert (Hr : (97 <= c <= 122 \/ 48 <= c <= 57)%N).
    { apply orb_true_iff in H as [H | H]; apply andb_true_iff in H as [H1 H2];
        apply N.leb_le in H1, H2; lia. }
    assert (Hs : is_space c = false).
    { unfold is_space, in_range.
      repeat match goal with
             | |- context [(?a <=? ?b)%N] =>
                 let E := fresh in destruct (N.leb_spec a b) as [E|E]
             | |- context [(?a =? ?b)%N] =>
                 let E := fresh in destruct (N.eqb_spec a b) as [E|E]
             end; try reflexivity; lia. }
    split; [exact Hs|]. split.
    { unfold is_ascii. apply N.ltb_lt. lia. }
    split.
    { unfold lower_unit, is_upper, in_range.
      destruct (N.leb_spec 65 c), (N.leb_spec c 90); cbn; try reflexivity; lia. }
    unfold is_lower_alnum, is_lower, is_digit, in_range. rewrite H. reflexivity.
  - unfold is_hyphen, hyphen in H. apply N.eqb_eq in H. subst c.
    repeat split; reflexivity.
Qed.

Lemma edge_hyphen_accepts need prev s :
  accepts need s = true -> (prev = None -> need = true) ->
  replace_go edge_hyphen [] prev s 0 = s.
Proof.
  revert need prev. induction s as [|c t IH]; intros need prev H Hp;
    [reflexivity|].
  cbn [accepts] in H. cbn [replace_go]. unfold edge_hyphen at 1.
  destruct (is_hyphen c) eqn:Hc.
  - apply andb_true_iff in H as [Hn H]. apply negb_true_iff in Hn.
    destruct prev as [p|]; [|specialize (Hp eq_refl); congruence].
    destruct t as [|d t']; [discriminate H|].
    f_equal. apply (IH true (Some c) H). discriminate.
  - apply andb_true_iff in H as [_ H]. f_equal.
    apply (IH false (Some c) H). discriminate.
Qed.

Lemma slug_units_all (q : N -> bool) s :
  (forall c, slug_unit c = true -> q c = true) ->
  forallb slug_unit s = true -> forallb q s = true.
Proof.
  intros Hq. induction s as [|c t IH]; [reflexivity|]. cbn [forallb].
  intros H. apply andb_true_iff in H as [Hc Ht].
  rewrite (Hq c Hc). apply IH, Ht.
Qed.

Lemma kebabCase_stable s : slug_shape s = true -> kebabCase s = s.
Proof.
  intros Hs. rewrite SlugFacts.slug_shape_accepts in Hs.
  pose proof (accepts_units true s Hs) as Hu.
  unfold kebabCase, keep_only, replace_runs, replace_all.
  rewrite filter_all
    by (apply (slug_units_all _ s); [|exact Hu];
        intros c Hc; apply (slug_unit_props c Hc)).
  rewrite (replace_runs_go_none is_space)
    by (apply (slug_units_all _ s); [|exact Hu];
        intros c Hc; destruct (slug_unit_props c Hc) as [-> _]; reflexivity).
  change (lit "-") with [hyphen].
  rewrite (replace_runs_hyphen_accepts true false s Hs) by discriminate.
  apply (edge_hyphen_accepts true None s Hs). reflexivity.
Qed.

Lemma slug_no_space s : slug_shape s = true -> no_space s = true.
Proof.
  intros Hs. rewrite SlugFacts.slug_shape_accepts in Hs.
  apply (slug_units_all _ s); [|apply (accepts_units true s Hs)].
  intros c Hc. destruct (slug_unit_props c Hc) as [-> _]. reflexivity.
Qed.

Lemma slug_lowered toLowerCase s :
  lowers_ascii toLowerCase -> slug_shape s = true -> toLowerCase s = s.
Proof.
  intros Hl Hs. rewrite SlugFacts.slug_shape_accepts in Hs.
  pose proof (accepts_units true s Hs) as Hu.
  rewrite Hl
    by (apply (slug_units_all _ s); [|exact Hu];
        intros c Hc; apply (slug_unit_props c Hc)).
  clear Hs. induction s as [|c t IH]; [reflexivity|].
  cbn [forallb] in Hu. apply andb_true_iff in Hu as [Hc Ht].
  cbn [map]. rewrite (IH Ht).
  destruct (slug_unit_props c Hc) as (_ & _ & -> & _). reflexivity.
Qed.

Lemma limitWords_stable settings s :
  (forall n, maxWords settings = Some n -> (0 < n)%Z ->
             (Z.of_nat (Observe.wordCount s) <= n)%Z) ->
  limitWords settings s = s.
Proof.
  intros H. unfold limitWords. destruct (maxWords settings) as [n|]; [|reflexivity].
  destruct (0 <? n)%Z eqn:E; [|reflexivity]. apply Z.ltb_lt in E.
  specialize (H n eq_refl E). unfold Observe.wordCount in H. cbv zeta.
  replace (n <? Z.of_nat (length (split_on hyphen s)))%Z with false
    by (symmetry; apply Z.ltb_ge; exact H).
  reflexivity.
Qed.

Lemma slugified_stable toLowerCase settings s :
  lowers_ascii toLowerCase -> slug_shape s = true -> (length s <= 60)%nat ->
  (forall n, maxWords settings = Some n -> (0 < n)%Z ->
             (Z.of_nat (Observe.wordCount s) <= n)%Z) ->
  slugified toLowerCase s settings = s.
Proof.
  intros Hl Hs Hlen Hw. unfold slugified.
  rewrite (slug_lowered toLowerCase s Hl Hs).
  rewrite (removeArticle_no_space settings s (slug_no_space s Hs)).
  rewrite (removeExtraWords_no_space s (slug_no_space s Hs)).
  rewrite (kebabCase_stable s Hs), (limitWords_stable settings s Hw).
  unfold limitLength.
  replace (60 <? length s)%nat with false
    by (symmetry; apply Nat.ltb_ge; exact Hlen).
  reflexivity.
Qed.

Lemma captionToFilename_stable toLowerCase today caption settings :
  lowers_ascii toLowerCase -> addDateSuffix settings = false ->
  captionToFilename toLowerCase today
    (captionToFilename toLowerCase today caption settings) settings
  = captionToFilename toLowerCase today caption settings.
Proof.
  intros Hl Hd. unfold captionToFilename. rewrite Hd. cbv zeta.
  set (out := ensureSomething (slugified toLowerCase caption settings)).
  assert (Hs : slug_shape out = true)
    by apply ImageApiFacts.ensureSomething_slug, ImageApiFacts.slugified_slug.
  assert (Hlen : (2 <= length out <= 60)%nat)
    by apply ImageApiFacts.length_ensureSomething, ImageApiFacts.length_limitLength.
  assert (Hw : forall n, maxWords settings = Some n -> (0 < n)%Z ->
                         (Z.of_nat (Observe.wordCount out) <= n)%Z).
  { intros n Hn Hpos.
    pose proof (ImageApiFacts.wordCount_slugified toLowerCase caption settings n
                  Hn Hpos) as H.
    unfold out, ensureSomething.
    destruct (length (slugified toLowerCase caption settings) <? 2)%nat;
      [|exact H].
    change (Observe.wordCount (lit "image")) with 1%nat. lia. }
  rewrite (slugified_stable toLowerCase settings out Hl Hs (proj2 Hlen) Hw).
  unfold ensureSomething.
  replace (length out <? 2)%nat with false
    by (symmetry; apply Nat.ltb_ge; lia).
  reflexivity.
Qed.

End StableFacts.

(** ** The title of the document information *)

Module TitleFacts.
Import PdfExtract Trace.

Lemma strip_prefix_self pat s : strip_prefix N.eqb pat (pat ++ s) = Some s.
Proof.
  induction pat as [|a pat IH]; cbn [app strip_prefix]; [reflexivity|].
  rewrite N.eqb_refl. exact IH.
Qed.

Lemma find_from_none pat s pos :
  find_from pat s pos = None ->
  strip_prefix N.eqb pat s = None
  /\ match s with
     | [] => True
     | _ :: t => find_from pat t (S pos) = None
     end.
Proof.
  destruct s as [|c t]; cbn [find_from];
    destruct (strip_prefix N.eqb pat _); try discriminate; auto.
Qed.

Lemma find_from_pos pat s pos pos' :
  find_from pat s pos = None -> find_from pat s pos' = None.
Proof.
  revert pos pos'. induction s as [|c t IH]; intros pos pos' H.
  - cbn [find_from] in *. destruct (strip_prefix N.eqb pat []); congruence.
  - cbn [find_from] in *. destruct (strip_prefix N.eqb pat (c :: t)); [discriminate|].
    apply (IH _ _ H).
Qed.

Lemma includes_false_cons pat c t :
  includes pat (c :: t) = false ->
  strip_prefix N.eqb pat (c :: t) = None /\ includes pat t = false.
Proof.
  unfold includes. intros H.
  destruct (find_from pat (c :: t) 0) eqn:E; [discriminate|].
  apply find_from_none in E as [E1 E2]. split; [exact E1|].
  rewrite (find_from_pos _ _ _ 0 E2). reflexivity.
Qed.

(** A text that does not hold [/Title] and is followed by [/Title] holds
    no start of a match of the expression of [extractInfoTitle]. *)
Lemma title_not_before c u rest :
  includes (lit "/Title") (c :: u) = false ->
  strip_prefix N.eqb (lit "/Title") ((c :: u) ++ lit "/Title" ++ rest) = None.
Proof.
  intros H. apply includes_false_cons in H as [H _].
  change (lit "/Title") with [47; 84; 105; 116; 108; 101]%N in *.
  cbn [app strip_prefix] in *.
  destruct (47 =? c)%N eqn:E0; [|reflexivity].
  destruct u as [|c1 u]; [reflexivity|]. cbn [app strip_prefix] in *.
  destruct (84 =? c1)%N; [|reflexivity].
  destruct u as [|c2 u]; [reflexivity|]. cbn [app strip_prefix] in *.
  destruct (105 =? c2)%N; [|reflexivity].
  destruct u as [|c3 u]; [reflexivity|]. cbn [app strip_prefix] in *.
  destruct (116 =? c3)%N; [|reflexivity].
  destruct u as [|c4 u]; [reflexivity|]. cbn [app strip_prefix] in *.
  destruct (108 =? c4)%N; [|reflexivity].
  destruct u as [|c5 u]; [reflexivity|]. cbn [app strip_prefix] in *.
  destruct (101 =? c5)%N; [|reflexivity].
  discriminate H.
Qed.

Lemma first_match_after pre rest :
  includes (lit "/Title") pre = false ->
  first_match info_title_at (pre ++ lit "/Title" ++ rest)
  = first_match info_title_at (lit "/Title" ++ rest).
Proof.
  induction pre as [|c u IH]; intros H; [reflexivity|].
  pose proof (title_not_before c u rest H) as Hn.
  apply includes_false_cons in H as [_ H].
  cbn [app first_match] in *. unfold info_title_at at 1.
  rewrite Hn. apply IH, H.
Qed.

Lemma first_match_none s :
  includes (lit "/Title") s = false -> first_match info_title_at s = None.
Proof.
  induction s as [|c t IH]; intros H; [reflexivity|].
  apply includes_false_cons in H as [H1 H2].
  cbn [first_match]. unfold info_title_at at 1. rewrite H1. apply IH, H2.
Qed.

Lemma drop_while_spaces ws s :
  forallb is_space ws = true -> drop_while is_space (ws ++ 40%N :: s) = 40%N :: s.
Proof.
  induction ws as [|c t IH]; intros H; [reflexivity|].
  cbn [forallb] in H. apply andb_true_iff in H as [Hc Ht].
  cbn [app drop_while]. rewrite Hc. apply IH, Ht.
Qed.

Lemma span_upto_group n t rest :
  (length t <= n)%nat ->
  forallb (fun c => negb (c =? 41)%N) t = true ->
  span_upto n (fun c => negb (c =? 41)%N) (t ++ 41%N :: rest) = (t, 41%N :: rest).
Proof.
  revert n. induction t as [|c t IH]; intros n Hn H.
  - destruct n; reflexivity.
  - destruct n as [|n]; [cbn in Hn; lia|].
    cbn [forallb] in H. apply andb_true_iff in H as [Hc Ht].
    cbn [app span_upto]. rewrite Hc, IH; [reflexivity | cbn in Hn; lia | exact Ht].
Qed.

Lemma extractInfoTitle_found pre ws t post :
  includes (lit "/Title") pre = false ->
  forallb is_space ws = true ->
  t <> [] -> (length t <= 300)%nat ->
  forallb (fun c => negb (c =? 41)%N) t = true ->
  extractInfoTitle (pre ++ lit "/Title" ++ ws ++ 40%N :: t ++ 41%N :: post)
  = decodePdfLiteralString t.
Proof.
  intros Hpre Hws Hne Hlen Ht. unfold extractInfoTitle.
  rewrite (first_match_after pre _ Hpre).
  assert (E : info_title_at (lit "/Title" ++ ws ++ 40%N :: t ++ 41%N :: post)
              = Some t).
  { unfold info_title_at. rewrite strip_prefix_self.
    rewrite (drop_while_spaces ws _ Hws).
    rewrite (span_upto_group 300 t post Hlen Ht).
    destruct t; [congruence | reflexivity]. }
  destruct (lit "/Title" ++ ws ++ 40%N :: t ++ 41%N :: post) eqn:Es;
    [discriminate|].
  cbn [first_match]. rewrite E. reflexivity.
Qed.

End TitleFacts.

(** ** What the event hook takes for an image *)

Module DispatchFacts.
Import Background Trace Listener.

Lemma lower_unit_dot c : (c =? 46)%N = false -> (lower_unit c =? 46)%N = false.
Proof.
  intros H. unfold lower_unit, is_upper, in_range.
  destruct (N.leb_spec 65 c), (N.leb_spec c 90); cbn; try exact H.
  apply N.eqb_neq. lia.
Qed.

Lemma extFromName_lowered W downloadItem base ext :
  lowers_ascii (toLowerCase W) ->
  forallb is_ascii (filename downloadItem) = true ->
  filename downloadItem = base ++ 46%N :: ext ->
  forallb (fun c => negb (c =? 46)%N) ext = true ->
  extFromName W downloadItem = map lower_unit ext.
Proof.
  intros Hl Ha Hn Hext. unfold extFromName. rewrite (Hl _ Ha), Hn.
  rewrite map_app. cbn [map]. change (lower_unit 46) with 46%N.
  apply PopupFacts.pop_extension.
  clear Hn. induction ext as [|c t IH]; [reflexivity|].
  cbn [forallb map] in *. apply andb_true_iff in Hext as [Hc Ht].
  apply negb_true_iff in Hc. rewrite (lower_unit_dot c Hc). cbn [negb andb].
  apply IH, Ht.
Qed.

Lemma isImageType_known ext : In ext imageExtensions -> isImageType ext = true.
Proof.
  intros H. unfold isImageType. apply existsb_exists. exists ext.
  split; [exact H|]. unfold str_eqb. apply bool_decide_eq_true. reflexivity.
Qed.

End DispatchFacts.

(** ** Hex strings *)

Module HexFacts.
Import PdfExtract Trace.







End HexFacts.

(** ** The skip of a small image *)

Module SkipFacts.
Import Background Observe Trace FlowFacts.
Local Open Scope Z_scope.

Lemma renameImage_skipped W downloadItem st status body :
  hfToken (settings W) <> [] ->
  fst (checkRateLimit (now W) (limiter st)) = Ok tt ->
  fetch W (itemUrl downloadItem) = Response true status body ->
  (maxImageSize (settings W) <? Z.of_nat (length body)) = false ->
  skipSmallImages (settings W) = true ->
  Z.of_nat (length body) < minImageSize (settings W) ->
  exists st1,
    renameImage W downloadItem st = (Ok None, st1)
    /\ quietly st st1 /\ sparing isModelCall 0 st st1.
Proof.
  intros Ht Hr Hf Hsize Hskip Hsmall.
  destruct (BackgroundFacts.consumeRateLimit_run W st Hr) as [st1 E1].
  destruct (BackgroundFacts.updateBadge_run (lit "...") (lit "#0066CC") st1)
    as [st2 E2].
  destruct (BackgroundFacts.fetchFile_run W _ _ _ _ st2 Hf Hsize) as [st3 E3].
  exists st3. split; [|split].
  - unfold renameImage. cbv zeta.
    rewrite try_catch_bind, (token_set _ Ht). unfold ret at 1.
    rewrite try_catch_bind, E1, try_catch_bind, E2, try_catch_bind, E3.
    rewrite Hskip. apply Z.ltb_lt in Hsmall. rewrite Hsmall. reflexivity.
  - pose proof (BackgroundFacts.quiet_consumeRateLimit W st) as Q1.
    pose proof (BackgroundFacts.quiet_updateBadge (lit "...") (lit "#0066CC") st1)
      as Q2.
    pose proof (BackgroundFacts.quiet_fetchFile W (itemUrl downloadItem)
                  (maxImageSize (settings W)) st2) as Q3.
    rewrite E1 in Q1. rewrite E2 in Q2. rewrite E3 in Q3. cbn [snd] in *.
    eapply BackgroundFacts.quietly_trans; [exact Q1|].
    eapply BackgroundFacts.quietly_trans; [exact Q2 | exact Q3].
  - assert (S1 : steps (sparing isModelCall 0) (consumeRateLimit W))
      by (steps_go zero_leaf).
    assert (S2 : steps (sparing isModelCall 0)
                   (updateBadge (lit "...") (lit "#0066CC")))
      by (steps_go zero_leaf).
    assert (S3 : steps (sparing isModelCall 0)
                   (fetchFile W (itemUrl downloadItem) (maxImageSize (settings W))))
      by (steps_go zero_leaf).
    specialize (S1 st). rewrite E1 in S1. specialize (S2 st1). rewrite E2 in S2.
    specialize (S3 st2). rewrite E3 in S3. cbn [snd] in *.
    etransitivity; [exact S1|]. etransitivity; [exact S2 | exact S3].
Qed.

End SkipFacts.

(** ** The limits of the extractor *)

Module ClampFacts.
Import PdfExtract.
Local Open Scope Z_scope.


End ClampFacts.

(** ** Which runs record, and which skip *)

Module ExactFacts.
Import Background Observe BackgroundFacts.
Local Open Scope Z_scope.

Lemma bodyExactly_ok {A} skip (c : M A) (k : A -> M (option str)) st a st1 :
  c st = (Ok a, st1) -> quiet c ->
  bodyExactly skip st1 (k a st1) -> bodyExactly skip st (bind c k st).
Proof.
  intros E Hc Hk. unfold bind. specialize (Hc st). rewrite E in *.
  cbn [snd] in Hc. unfold bodyExactly in *.
  destruct (k a st1) as [[[name|]|e] st2]; destruct Hk as [Hs Hk];
    (split; [exact Hs|]).
  - eapply quietly_once; eassumption.
  - eapply quietly_trans; eassumption.
  - eapply quietly_trans; eassumption.
Qed.

Lemma bodyExactly_err {A} skip (c : M A) (k : A -> M (option str)) st e st1 :
  c st = (Err e, st1) -> quiet c -> skip = false ->
  bodyExactly skip st (bind c k st).
Proof.
  intros E Hc Hs. unfold bind. specialize (Hc st). rewrite E in *.
  split; [exact Hs | exact Hc].
Qed.

Lemma bodyOutcome_exactly st run :
  bodyOutcome false st run -> bodyExactly false st run.
Proof.
  unfold bodyOutcome, bodyExactly. destruct run as [[[name|]|e] st'].
  - auto.
  - intros [H _]. discriminate.
  - auto.
Qed.

Lemma try_catch_exactly W skip body downloadItem t st :
  bodyExactly skip st (body st) ->
  recordedExactly skip st
    (try_catch body (fun e => recordFailure W e downloadItem t) st).
Proof.
  unfold try_catch, bodyExactly, recordedExactly.
  destruct (body st) as [[[name|]|e] st1]; intros [Hs H].
  - auto.
  - rewrite Hs. exact H.
  - destruct (recordFailure_once W e downloadItem t st1) as [H1 H2].
    destruct (recordFailure W e downloadItem t st1) as [r st2]. simpl in *.
    subst r skip. eapply quietly_once; eassumption.
Qed.

Lemma recordedOnce_exactly st run :
  recordedOnce false st run -> recordedExactly false st run.
Proof.
  unfold recordedOnce, recordedExactly. destruct run as [[[name|]|e] st'].
  - auto.
  - intros [H | [H _]]; [exact H | discriminate].
  - auto.
Qed.

(** What [fetchFile] returns tells what [fetch] answered. *)
Lemma fetchFile_answer W url maxSize st :
  match fst (fetchFile W url maxSize st), fetch W url with
  | Ok buffer, Response true _ body =>
      buffer = body /\ (maxSize <? Z.of_nat (length body)) = false
  | Ok _, _ => False
  | Err _, Response true _ body => (maxSize <? Z.of_nat (length body)) = true
  | Err _, _ => True
  end.
Proof.
  unfold fetchFile, bind, emit, throw, ret. cbn.
  destruct (fetch W url) as [m|[|] status body]; cbn; [exact I| |exact I].
  destruct (maxSize <? Z.of_nat (length body)); cbn; auto.
Qed.

(** The steps of the image flow behind the check of the size. *)
Lemma image_tail_outcome W downloadItem imageBuffer st :
  bodyOutcome false st
    ((do _ <- emit PrepareImage;
      do imageBase64 <- lift (prepareImageForAPI W imageBuffer);
      do _ <- emit (CaptionImage imageBase64);
      do caption <- lift (captionImage W imageBase64 (settings W));
      let basename := captionToFilename W caption (settings W) in
      let finalName := basename ++ lit "." ++ getImageExtension W downloadItem in
      do _ <- addToHistory W
                {| success := true; original := Some (filename downloadItem);
                   renamed := Some finalName; caption := Some caption;
                   error := None; failedFilename := None;
                   fileType := Some image;
                   pdfTitle := None;
                   source := safeHostname W (itemUrl downloadItem) |};
      do _ <- updateStats true "hf-api-image";
      do _ <- updateBadge check_mark (lit "#00AA00");
      do _ <- notify W (check_mark ++ lit " Image Renamed")
                (Text (basename ++ [10%N] ++ lit "(" ++ caption ++ lit ")"));
      ret (Some finalName)) st).
Proof.
  apply bodyOutcome_bind; [apply quiet_emit; reflexivity|].
  intros _ st5. apply bodyOutcome_bind; [apply quiet_lift|].
  intros imageBase64 st6.
  apply bodyOutcome_bind; [apply quiet_emit; reflexivity|].
  intros _ st7. apply bodyOutcome_bind; [apply quiet_lift|].
  intros caption st8. apply success_tail_outcome; reflexivity.
Qed.

(** The image flow records its outcome once, unless it skips a small
    image, and then it records nothing. *)
Lemma renameImage_exactly W downloadItem st :
  recordedExactly (skipsSmallImage W st downloadItem) st
    (renameImage W downloadItem st).
Proof.
  remember (skipsSmallImage W st downloadItem) as skip eqn:Hskip.
  unfold skipsSmallImage in Hskip.
  unfold renameImage. cbv zeta. apply try_catch_exactly.
  destruct (hfToken (settings W)) as [|tk token] eqn:Et; cbn [is_empty negb andb] in *.
  { eapply bodyExactly_err; [reflexivity | apply quiet_throw | exact Hskip]. }
  eapply bodyExactly_ok; [reflexivity | apply quiet_ret |].
  destruct (consumeRateLimit W st) as [[[]|e] st1] eqn:E1.
  2:{ eapply bodyExactly_err; [exact E1 | apply quiet_consumeRateLimit|].
      unfold consumeRateLimit in E1.
      destruct (checkRateLimit (now W) (limiter st)) as [r l].
      injection E1 as -> _. exact Hskip. }
  assert (Hr : fst (checkRateLimit (now W) (limiter st)) = Ok tt).
  { unfold consumeRateLimit in E1.
    destruct (checkRateLimit (now W) (limiter st)) as [r l].
    injection E1 as -> _. reflexivity. }
  rewrite Hr in Hskip. cbn [andb] in Hskip.
  eapply bodyExactly_ok; [exact E1 | apply quiet_consumeRateLimit|].
  destruct (updateBadge_run (lit "...") (lit "#0066CC") st1) as [st2 E2].
  eapply bodyExactly_ok; [exact E2 | apply quiet_updateBadge|].
  pose proof (fetchFile_answer W (itemUrl downloadItem)
                (maxImageSize (settings W)) st2) as Hf.
  destruct (fetchFile W (itemUrl downloadItem) (maxImageSize (settings W)) st2)
    as [[imageBuffer|e] st3] eqn:E3; cbn [fst] in Hf.
  2:{ eapply bodyExactly_err; [exact E3 | apply quiet_fetchFile|].
      destruct (fetch W (itemUrl downloadItem)) as [m|[|] status body];
        [exact Hskip | | exact Hskip].
      rewrite Hf in Hskip. exact Hskip. }
  eapply bodyExactly_ok; [exact E3 | apply quiet_fetchFile|].
  destruct (fetch W (itemUrl downloadItem)) as [m|[|] status body];
    [contradiction | | contradiction].
  destruct Hf as [-> Hsize]. rewrite Hsize in Hskip. cbn [negb andb] in Hskip.
  subst skip.
  destruct (skipSmallImages (settings W)
            && (Z.of_nat (length body) <? minImageSize (settings W))).
  - unfold ret, bodyExactly. split; [reflexivity | apply quietly_refl].
  - apply bodyOutcome_exactly, image_tail_outcome.
Qed.

(** The PDF flow records its outcome once, unless PDF renaming is off, and
    then it does nothing. *)
Lemma renamePdf_exactly W downloadItem st :
  recordedExactly (negb (enablePdfRenaming (settings W))) st
    (renamePdf W downloadItem st).
Proof.
  destruct (enablePdfRenaming (settings W)) eqn:Hon; cbn [negb].
  - apply recordedOnce_exactly.
    pose proof (renamePdf_recorded W downloadItem st) as H.
    rewrite Hon in H. exact H.
  - rewrite renamePdf_disabled by exact Hon. apply quietly_refl.
Qed.

End ExactFacts.

(** ** What the listener suggests *)

Module SuggestFacts.
Import Background Observe Trace Listener FlowFacts.



End SuggestFacts.

(** ** The words extension/hf-api.js keeps *)

Module WordFacts.
Import SlugAutomaton SlugFacts HfApi HfApiFacts.

(** *** The code units of [[a-z0-9]] *)

Lemma lower_alnum_enum c : is_lower_alnum c = true -> In c lower_alnums.
Proof.
  unfold is_lower_alnum, is_lower, is_digit, in_range. intros H.
  assert (Hr : (97 <= c <= 122 \/ 48 <= c <= 57)%N).
  { apply orb_true_iff in H as [H | H]; apply andb_true_iff in H as [H1 H2];
      apply N.leb_le in H1, H2; lia. }
  unfold lower_alnums. rewrite <- (N2Nat.id c). apply in_map.
  apply in_or_app. rewrite !in_seq. lia.
Qed.

Lemma lower_alnum_all (q : N -> bool) :
  forallb q lower_alnums = true ->
  forall c, is_lower_alnum c = true -> q c = true.
Proof.
  intros H c Hc. rewrite forallb_forall in H.
  apply H, lower_alnum_enum, Hc.
Qed.

Lemma lower_alnum_props c :
  is_lower_alnum c = true ->
  is_ascii c = true /\ is_upper c = false /\ is_space c = false
  /\ is_word c = true /\ lower_unit c = c /\ (c =? 32)%N = false
  /\ is_hyphen c = false.
Proof.
  intros Hc.
  pose proof (lower_alnum_all
                (fun c => is_ascii c && negb (is_upper c) && negb (is_space c)
                          && is_word c && (lower_unit c =? c)%N
                          && negb (c =? 32)%N && negb (is_hyphen c))
                eq_refl c Hc) as H.
  cbv beta in H. rewrite !andb_true_iff, !negb_true_iff, N.eqb_eq in H.
  tauto.
Qed.

(** *** Only lower-case units are left in [limited] *)

Lemma forallb_keep_only_and (p q : N -> bool) s :
  forallb q s = true -> forallb (fun c => p c && q c) (keep_only p s) = true.
Proof.
  induction s as [|c t IH]; [reflexivity|]. cbn [forallb keep_only List.filter].
  intros H. apply andb_true_iff in H as [Hc Ht].
  destruct (p c) eqn:Hp; [|apply IH, Ht].
  cbn [forallb]. rewrite Hp, Hc. apply IH, Ht.
Qed.

Lemma word_not_capital c :
  is_word c = true -> is_upper c = false ->
  (is_lower_alnum c || (c =? 95)%N) = true.
Proof.
  unfold is_word, is_alnum, is_lower_alnum. intros H Hu. rewrite Hu in H.
  exact H.
Qed.

(** The text before its words are counted. *)
Lemma text_units (p q : N -> bool) (toLowerCase : str -> str) (caption : str)
    (settings : Settings) :
  forallb p (toLowerCase caption) = true ->
  (forall c, (is_word c || is_space c || is_hyphen c) = true -> p c = true ->
             is_space c = false -> q c = true) ->
  forallb (fun c => q c || (c =? 32)%N)
    (let text :=
       trim (replace_runs is_space (lit " ")
         (keep_only (fun c => is_word c || is_space c || is_hyphen c)
            (toLowerCase caption))) in
     if cleanCaptions settings
     then trim (replace_runs is_space (lit " ") (replace_all article [] text))
     else text) = true.
Proof.
  intros Hp Hq. cbv zeta. change (lit " ") with [32%N].
  assert (H0 : forallb (fun c => q c || (c =? 32)%N)
                 (trim (replace_runs is_space [32%N]
                    (keep_only (fun c => is_word c || is_space c || is_hyphen c)
                       (toLowerCase caption)))) = true).
  { apply forallb_trim.
    apply forallb_replace_runs_space
      with (p := fun c => (is_word c || is_space c || is_hyphen c) && p c).
    - intros c Hc Hs. apply andb_true_iff in Hc as [H1 H2].
      rewrite (Hq c H1 H2 Hs). reflexivity.
    - rewrite orb_true_r. reflexivity.
    - apply forallb_keep_only_and, Hp. }
  destruct (cleanCaptions settings); [|exact H0].
  apply forallb_trim.
  apply forallb_replace_runs_space with (p := fun c => q c || (c =? 32)%N).
  - auto.
  - rewrite orb_true_r. reflexivity.
  - apply forallb_replace_go, H0.
Qed.

Lemma limited_lower_units toLowerCase caption settings :
  leaves_no_capital toLowerCase ->
  forallb hf_lower_unit (limited toLowerCase caption settings) = true.
Proof.
  intros Hno. unfold limited, words. change (lit "-") with [hyphen].
  apply forallb_join; [reflexivity|].
  apply forallb_slice0, forallb_filter.
  apply (forallb_split_on hf_lower_unit 32).
  apply (text_units (fun c => negb (is_upper c))); [apply Hno|].
  intros c Hc Hu Hs. apply negb_true_iff in Hu.
  rewrite Hs, orb_false_r in Hc. unfold hf_lower_unit.
  apply orb_true_iff in Hc as [Hc | Hc].
  - rewrite (word_not_capital c Hc Hu). reflexivity.
  - rewrite Hc. apply orb_true_r.
Qed.

Lemma slug_lower_units s :
  slug_shape s = true -> forallb hf_lower_unit s = true.
Proof.
  intros H. rewrite slug_shape_accepts in H.
  apply StableFacts.accepts_units in H.
  rewrite forallb_forall in *. intros c Hc. specialize (H c Hc).
  unfold slug_unit in H. unfold hf_lower_unit.
  apply orb_true_iff in H as [-> | ->]; [reflexivity | apply orb_true_r].
Qed.

(** The result is never empty, and holds lower-case word units and
    hyphens only. *)
Lemma captionToFilename_lower_units toLowerCase today caption settings :
  leaves_no_capital toLowerCase -> forallb hf_lower_unit today = true ->
  let out := captionToFilename toLowerCase today caption settings in
  out <> [] /\ forallb hf_lower_unit out = true.
Proof.
  intros Hno Ht. unfold captionToFilename. cbv zeta.
  pose proof (limited_lower_units toLowerCase caption settings Hno) as Hl.
  destruct (addDateSuffix settings).
  - split.
    + intros H. apply app_eq_nil in H as [_ H]. discriminate.
    + rewrite !forallb_app, Hl, Ht. reflexivity.
  - destruct (limited toLowerCase caption settings) as [|c l] eqn:E;
      cbn [is_empty].
    + split; [discriminate | reflexivity].
    + split; [discriminate | exact Hl].
Qed.

(** Whatever [toLowerCase] does, the result is never empty, and holds
    word units and hyphens only. *)
Lemma captionToFilename_word_units toLowerCase today caption settings :
  slug_shape today = true ->
  let out := captionToFilename toLowerCase today caption settings in
  out <> [] /\ forallb hf_unit out = true.
Proof.
  intros Ht. cbv zeta. split.
  - unfold captionToFilename. destruct (addDateSuffix settings).
    + intros H. apply app_eq_nil in H as [_ H]. discriminate.
    + destruct (limited toLowerCase caption settings); discriminate.
  - apply FlowFacts.captionToFilename_hf_units.
    pose proof (slug_lower_units today Ht) as Hu.
    rewrite forallb_forall in *. intros c Hc. specialize (Hu c Hc).
    unfold hf_lower_unit in Hu. unfold hf_unit, is_word, is_alnum.
    unfold is_lower_alnum in Hu.
    destruct (is_lower c), (is_digit c), (c =? 95)%N, (is_hyphen c);
      try discriminate; rewrite ?orb_true_r; reflexivity.
Qed.

(** *** A caption without hyphens and underscores *)

Lemma tokens_kept ws :
  forallb (forallb is_lower_alnum) ws = true ->
  forallb token (List.filter (fun w => negb (is_empty w)) ws) = true.
Proof.
  induction ws as [|w ws IH]; [reflexivity|]. cbn [forallb List.filter].
  intros H. apply andb_true_iff in H as [Hw Hws].
  destruct w as [|c w]; cbn [is_empty negb]; [apply IH, Hws|].
  cbn [forallb]. unfold token at 1. cbn [is_empty negb andb].
  rewrite Hw. apply IH, Hws.
Qed.

Lemma join_tokens ws :
  forallb token ws = true -> blank_or_slug (join [hyphen] ws).
Proof.
  intros H. destruct ws as [|w ws]; [left; reflexivity|]. right.
  unfold slug_shape. rewrite split_on_join by (discriminate || exact H).
  exact H.
Qed.

Lemma limited_plain toLowerCase caption settings :
  leaves_no_capital toLowerCase ->
  forallb no_joiner (toLowerCase caption) = true ->
  blank_or_slug (limited toLowerCase caption settings).
Proof.
  intros Hno Hj. unfold limited, words. change (lit "-") with [hyphen].
  apply join_tokens. unfold slice0.
  assert (H : forallb token
                (List.filter (fun w => negb (is_empty w))
                   (split_on 32
                      (let text :=
                         trim (replace_runs is_space (lit " ")
                           (keep_only
                              (fun c => is_word c || is_space c || is_hyphen c)
                              (toLowerCase caption))) in
                       if cleanCaptions settings
                       then trim (replace_runs is_space (lit " ")
                                    (replace_all article [] text))
                       else text))) = true).
  { apply tokens_kept. apply (forallb_split_on is_lower_alnum 32).
    apply (text_units (fun c => negb (is_upper c) && no_joiner c)).
    - specialize (Hno caption). clear -Hno Hj.
      induction (toLowerCase caption) as [|c t IH]; [reflexivity|].
      cbn [forallb] in *. apply andb_true_iff in Hno as [H1 H2].
      apply andb_true_iff in Hj as [H3 H4]. rewrite H1, H3. auto.
    - intros c Hc Hu Hs. apply andb_true_iff in Hu as [Hu Hn].
      apply negb_true_iff in Hu. unfold no_joiner in Hn.
      apply negb_true_iff, orb_false_iff in Hn as [Hh H95].
      rewrite Hs, Hh, !orb_false_r in Hc.
      pose proof (word_not_capital c Hc Hu) as Hw.
      rewrite H95, orb_false_r in Hw. exact Hw. }
  cbv zeta in H. destruct (wordLimit settings <? 0)%Z;
    apply forallb_firstn, H.
Qed.

Lemma captionToFilename_plain toLowerCase today caption settings :
  leaves_no_capital toLowerCase ->
  forallb no_joiner (toLowerCase caption) = true ->
  slug_shape today = true ->
  limited toLowerCase caption settings <> [] \/ addDateSuffix settings = false ->
  slug_shape (captionToFilename toLowerCase today caption settings) = true.
Proof.
  intros Hno Hj Ht Hcase. unfold captionToFilename. cbv zeta.
  destruct (limited_plain toLowerCase caption settings Hno Hj) as [Hl | Hl].
  - rewrite Hl in *. destruct Hcase as [Hc | ->]; [congruence | reflexivity].
  - destruct (addDateSuffix settings).
    + apply ImageApiFacts.slug_app_hyphen; assumption.
    + destruct (limited toLowerCase caption settings); [reflexivity | exact Hl].
Qed.

(** *** A caption of plain words *)

Lemma join_spaced w ws : join [32%N] (w :: ws) = w ++ spaced ws.
Proof.
  revert w. induction ws as [|w' ws IH]; intros w.
  - cbn [join spaced flat_map]. rewrite app_nil_r. reflexivity.
  - change (join [32%N] (w :: w' :: ws))
      with (w ++ [32%N] ++ join [32%N] (w' :: ws)).
    rewrite (IH w'). reflexivity.
Qed.

Lemma plain_word_token w :
  plain_word w = true -> forallb is_lower_alnum w = true /\ w <> [].
Proof.
  unfold plain_word, token. intros H.
  apply andb_true_iff in H as [H _]. apply andb_true_iff in H as [H1 H2].
  split; [exact H2|]. destruct w; [discriminate | discriminate].
Qed.

Lemma plain_word_no_article w :
  plain_word w = true -> w <> lit "a" /\ w <> lit "an" /\ w <> lit "the".
Proof.
  unfold plain_word. intros H. apply andb_true_iff in H as [_ H].
  apply negb_true_iff in H. cbn [existsb] in H.
  rewrite !orb_false_iff in H. destruct H as (H1 & H2 & H3 & _).
  unfold str_eqb in *. apply bool_decide_eq_false in H1, H2, H3. auto.
Qed.

Lemma plain_units (q : N -> bool) w ws :
  (forall c, is_lower_alnum c = true -> q c = true) -> q 32%N = true ->
  forallb plain_word (w :: ws) = true ->
  forallb q (w ++ spaced ws) = true.
Proof.
  intros Hq H32. revert w. induction ws as [|w' ws IH]; intros w H;
    cbn [forallb] in H; apply andb_true_iff in H as [Hw Hws].
  - cbn [spaced flat_map]. rewrite app_nil_r.
    destruct (plain_word_token w Hw) as [Hu _].
    rewrite forallb_forall in *. auto.
  - cbn [spaced flat_map]. rewrite forallb_app. cbn [app forallb].
    fold (spaced ws). rewrite H32, (IH w' Hws). cbn [andb].
    rewrite andb_true_r. destruct (plain_word_token w Hw) as [Hu _].
    rewrite forallb_forall in *. auto.
Qed.

Lemma lowered_plain toLowerCase w ws :
  lowers_ascii toLowerCase -> forallb plain_word (w :: ws) = true ->
  toLowerCase (w ++ spaced ws) = w ++ spaced ws.
Proof.
  intros Hlow H.
  rewrite Hlow
    by (apply plain_units; [intros c Hc; apply lower_alnum_props, Hc
                           | reflexivity | exact H]).
  pose proof (plain_units (fun c => (lower_unit c =? c)%N) w ws) as Hu.
  cbv beta in Hu. specialize (Hu ltac:(intros c Hc; apply N.eqb_eq;
                                       apply lower_alnum_props, Hc)
                                 eq_refl H).
  induction (w ++ spaced ws) as [|c t IH]; [reflexivity|].
  cbn [forallb] in Hu. apply andb_true_iff in Hu as [Hc Ht].
  apply N.eqb_eq in Hc. cbn [map]. rewrite Hc, (IH Ht). reflexivity.
Qed.

Lemma runs_word (r : str) b w rest :
  forallb is_lower_alnum w = true -> w <> [] ->
  replace_runs_go is_space r b (w ++ rest)
  = w ++ replace_runs_go is_space r false rest.
Proof.
  revert b. induction w as [|c t IH]; intros b Hw Hn; [congruence|].
  cbn [forallb] in Hw. apply andb_true_iff in Hw as [Hc Ht].
  destruct (lower_alnum_props c Hc) as (_ & _ & Hs & _).
  cbn [app replace_runs_go]. rewrite Hs. f_equal.
  destruct t as [|d t]; [reflexivity|]. apply IH; [exact Ht | discriminate].
Qed.

Lemma runs_spaced ws :
  forallb plain_word ws = true ->
  replace_runs_go is_space [32%N] false (spaced ws) = spaced ws.
Proof.
  induction ws as [|w ws IH]; [reflexivity|]. cbn [forallb].
  intros H. apply andb_true_iff in H as [Hw Hws].
  destruct (plain_word_token w Hw) as [Hu Hn].
  cbn [spaced flat_map]. fold (spaced ws).
  change ((32%N :: w) ++ spaced ws) with (32%N :: (w ++ spaced ws)).
  cbn [replace_runs_go]. change (is_space 32) with true. cbv iota.
  cbn [app]. rewrite runs_word by assumption. rewrite (IH Hws). reflexivity.
Qed.

Lemma drop_while_end_keep p (a b : str) :
  drop_while_end p b = b -> b <> [] -> drop_while_end p (a ++ b) = a ++ b.
Proof.
  intros Hb Hn. induction a as [|c a IH]; [exact Hb|].
  cbn [app drop_while_end]. rewrite IH.
  destruct (a ++ b) eqn:E; [|reflexivity].
  apply app_eq_nil in E as [_ E]. congruence.
Qed.

Lemma drop_while_end_word w :
  forallb is_lower_alnum w = true -> drop_while_end is_space w = w.
Proof.
  induction w as [|c t IH]; [reflexivity|]. cbn [forallb].
  intros H. apply andb_true_iff in H as [Hc Ht].
  destruct (lower_alnum_props c Hc) as (_ & _ & Hs & _).
  cbn [drop_while_end]. rewrite (IH Ht), Hs. destruct t; reflexivity.
Qed.

Lemma trim_plain w ws :
  forallb plain_word (w :: ws) = true -> trim (w ++ spaced ws) = w ++ spaced ws.
Proof.
  intros H. unfold trim.
  assert (Hd : drop_while is_space (w ++ spaced ws) = w ++ spaced ws).
  { cbn [forallb] in H. apply andb_true_iff in H as [Hw _].
    destruct (plain_word_token w Hw) as [Hu Hn].
    destruct w as [|c w]; [congruence|]. cbn [forallb] in Hu.
    apply andb_true_iff in Hu as [Hc _].
    destruct (lower_alnum_props c Hc) as (_ & _ & Hs & _).
    cbn [app drop_while]. rewrite Hs. reflexivity. }
  rewrite Hd. clear Hd. revert w H.
  induction ws as [|w' ws IH]; intros w H; cbn [forallb] in H;
    apply andb_true_iff in H as [Hw Hws];
    destruct (plain_word_token w Hw) as [Hu Hn].
  - cbn [spaced flat_map]. rewrite app_nil_r. apply drop_while_end_word, Hu.
  - cbn [spaced flat_map]. fold (spaced ws).
    change ((32%N :: w') ++ spaced ws) with ([32%N] ++ (w' ++ spaced ws)).
    rewrite app_assoc. apply drop_while_end_keep; [apply IH, Hws|].
    cbn [forallb] in Hws. apply andb_true_iff in Hws as [Hw' _].
    destruct (plain_word_token w' Hw') as [_ Hn'].
    destruct w'; [congruence | discriminate].
Qed.

(** The articles are matched as whole words only. *)
Lemma strip_word_boundary pat w rest :
  forallb is_word pat = true -> forallb is_word w = true -> w <> pat ->
  match rest with c :: _ => is_word c = false | [] => True end ->
  match strip_prefix N.eqb pat (w ++ rest) with
  | Some (c :: _) => is_word c = true
  | Some [] => False
  | None => True
  end.
Proof.
  revert w. induction pat as [|a pat IH]; intros w Hp Hw Hne Hrest.
  - cbn [strip_prefix]. destruct w as [|c w]; [congruence|].
    cbn [app forallb] in *. apply andb_true_iff in Hw as [Hc _]. exact Hc.
  - cbn [forallb] in Hp. apply andb_true_iff in Hp as [Ha Hp].
    destruct w as [|c w].
    + cbn [app]. destruct rest as [|d r]; [exact I|]. cbn [strip_prefix].
      destruct (N.eqb_spec a d) as [-> | _]; [congruence | exact I].
    + cbn [app strip_prefix]. cbn [forallb] in Hw.
      apply andb_true_iff in Hw as [Hc Hw].
      destruct (N.eqb_spec a c) as [-> | _]; [|exact I].
      apply IH; [exact Hp | exact Hw | congruence | exact Hrest].
Qed.

Lemma article_none_word prev w rest :
  plain_word w = true ->
  match rest with c :: _ => is_word c = false | [] => True end ->
  article prev (w ++ rest) = None.
Proof.
  intros Hw Hrest. destruct (plain_word_token w Hw) as [Hu _].
  destruct (plain_word_no_article w Hw) as (N1 & N2 & N3).
  assert (Hword : forallb is_word w = true).
  { rewrite forallb_forall in *. intros c Hc.
    apply lower_alnum_props, Hu, Hc. }
  unfold article. destruct (match prev with Some p => is_word p | None => false end);
    [reflexivity|].
  cbn [alt_then].
  pose proof (strip_word_boundary (lit "a") w rest eq_refl Hword N1 Hrest) as H1.
  pose proof (strip_word_boundary (lit "an") w rest eq_refl Hword N2 Hrest) as H2.
  pose proof (strip_word_boundary (lit "the") w rest eq_refl Hword N3 Hrest) as H3.
  destruct (strip_prefix N.eqb (lit "a") (w ++ rest)) as [[|c1 r1]|];
    [contradiction | rewrite H1|];
  (destruct (strip_prefix N.eqb (lit "an") (w ++ rest)) as [[|c2 r2]|];
    [contradiction | rewrite H2|]);
  (destruct (strip_prefix N.eqb (lit "the") (w ++ rest)) as [[|c3 r3]|];
    [contradiction | rewrite H3|]); reflexivity.
Qed.

Lemma article_none_inside p s : is_word p = true -> article (Some p) s = None.
Proof. intros H. unfold article. rewrite H. reflexivity. Qed.

Lemma replace_go_inside t p rest :
  is_word p = true -> forallb is_lower_alnum t = true ->
  exists q, is_word q = true
    /\ replace_go article [] (Some p) (t ++ rest) 0
       = t ++ replace_go article [] (Some q) rest 0.
Proof.
  revert p. induction t as [|c t IH]; intros p Hp Ht.
  - exists p. split; [exact Hp | reflexivity].
  - cbn [forallb] in Ht. apply andb_true_iff in Ht as [Hc Ht].
    assert (Hw : is_word c = true) by (apply lower_alnum_props, Hc).
    destruct (IH c Hw Ht) as (q & Hq & E). exists q. split; [exact Hq|].
    cbn [app replace_go]. rewrite (article_none_inside p _ Hp), E. reflexivity.
Qed.

Lemma replace_go_word prev w rest :
  plain_word w = true ->
  match rest with c :: _ => is_word c = false | [] => True end ->
  exists q, is_word q = true
    /\ replace_go article [] prev (w ++ rest) 0
       = w ++ replace_go article [] (Some q) rest 0.
Proof.
  intros Hw Hrest. pose proof (article_none_word prev w rest Hw Hrest) as Ha.
  destruct (plain_word_token w Hw) as [Hu Hn].
  destruct w as [|c t]; [congruence|]. cbn [forallb] in Hu.
  apply andb_true_iff in Hu as [Hc Ht].
  assert (Hcw : is_word c = true) by (apply lower_alnum_props, Hc).
  destruct (replace_go_inside t c rest Hcw Ht) as (q & Hq & E).
  exists q. split; [exact Hq|].
  cbn [app replace_go]. cbn [app] in Ha. rewrite Ha, E. reflexivity.
Qed.

Lemma spaced_head ws :
  match spaced ws with c :: _ => is_word c = false | [] => True end.
Proof. destruct ws as [|w ws]; [exact I | reflexivity]. Qed.

Lemma replace_go_spaced ws q :
  is_word q = true -> forallb plain_word ws = true ->
  replace_go article [] (Some q) (spaced ws) 0 = spaced ws.
Proof.
  revert q. induction ws as [|w ws IH]; intros q Hq H; [reflexivity|].
  cbn [forallb] in H. apply andb_true_iff in H as [Hw Hws].
  cbn [spaced flat_map]. fold (spaced ws).
  change ((32%N :: w) ++ spaced ws) with (32%N :: (w ++ spaced ws)).
  cbn [replace_go]. rewrite (article_none_inside q _ Hq).
  destruct (replace_go_word (Some 32%N) w (spaced ws) Hw (spaced_head ws))
    as (q' & Hq' & E).
  rewrite E, (IH q' Hq' Hws). reflexivity.
Qed.

Lemma articles_plain w ws :
  forallb plain_word (w :: ws) = true ->
  replace_all article [] (w ++ spaced ws) = w ++ spaced ws.
Proof.
  cbn [forallb]. intros H. apply andb_true_iff in H as [Hw Hws].
  unfold replace_all.
  destruct (replace_go_word None w (spaced ws) Hw (spaced_head ws))
    as (q & Hq & E).
  rewrite E, (replace_go_spaced ws q Hq Hws). reflexivity.
Qed.

Lemma split_word w rest :
  forallb is_lower_alnum w = true ->
  split_on 32 (w ++ 32%N :: rest) = w :: split_on 32 rest.
Proof.
  intros Hw. rewrite PopupFacts.split_on_app.
  rewrite PopupFacts.split_on_plain; [reflexivity|].
  rewrite forallb_forall in *. intros c Hc. apply negb_true_iff.
  apply lower_alnum_props, Hw, Hc.
Qed.

Lemma split_plain w ws :
  forallb plain_word (w :: ws) = true ->
  split_on 32 (w ++ spaced ws) = w :: ws.
Proof.
  revert w. induction ws as [|w' ws IH]; intros w H; cbn [forallb] in H;
    apply andb_true_iff in H as [Hw Hws];
    destruct (plain_word_token w Hw) as [Hu Hn].
  - cbn [spaced flat_map]. rewrite app_nil_r.
    apply PopupFacts.split_on_plain.
    rewrite forallb_forall in *. intros c Hc. apply negb_true_iff.
    apply lower_alnum_props, Hu, Hc.
  - cbn [spaced flat_map]. fold (spaced ws).
    change ((32%N :: w') ++ spaced ws) with (32%N :: (w' ++ spaced ws)).
    rewrite split_word by exact Hu. rewrite (IH w' Hws). reflexivity.
Qed.

Lemma plain_words_kept ws :
  forallb plain_word ws = true ->
  List.filter (fun w => negb (is_empty w)) ws = ws.
Proof.
  intros H. apply StableFacts.filter_all.
  rewrite forallb_forall in *. intros w Hw.
  destruct (plain_word_token w (H w Hw)) as [_ Hn].
  destruct w; [congruence | reflexivity].
Qed.

(** Of a caption of plain words, a space between them, the first
    [maxWords || 5] are kept as they are, whatever their length. *)
Lemma limited_plain_words toLowerCase ws settings :
  lowers_ascii toLowerCase -> forallb plain_word ws = true ->
  limited toLowerCase (join (lit " ") ws) settings
  = join (lit "-") (slice0 ws (wordLimit settings)).
Proof.
  intros Hlow H. destruct ws as [|w ws].
  { cbn [join]. rewrite limited_empty by (apply (Hlow [] eq_refl)).
    unfold slice0. destruct (_ <? _)%Z; rewrite firstn_nil; reflexivity. }
  change (lit " ") with [32%N]. rewrite join_spaced. unfold limited, words.
  rewrite (lowered_plain toLowerCase w ws Hlow H).
  assert (Hk : keep_only (fun c => is_word c || is_space c || is_hyphen c)
                 (w ++ spaced ws) = w ++ spaced ws).
  { apply StableFacts.filter_all, plain_units; [|reflexivity | exact H].
    intros c Hc. destruct (lower_alnum_props c Hc) as (_ & _ & _ & -> & _).
    reflexivity. }
  assert (Hr : replace_runs is_space (lit " ") (w ++ spaced ws) = w ++ spaced ws).
  { unfold replace_runs. change (lit " ") with [32%N].
    pose proof H as H'. cbn [forallb] in H'.
    apply andb_true_iff in H' as [Hw Hws].
    destruct (plain_word_token w Hw) as [Hu Hn].
    rewrite runs_word by assumption. rewrite (runs_spaced ws Hws). reflexivity. }
  rewrite Hk, Hr, (trim_plain w ws H).
  assert (Ht : (if cleanCaptions settings
                then trim (replace_runs is_space (lit " ")
                             (replace_all article [] (w ++ spaced ws)))
                else w ++ spaced ws) = w ++ spaced ws).
  { destruct (cleanCaptions settings); [|reflexivity].
    rewrite (articles_plain w ws H), Hr. apply trim_plain, H. }
  rewrite Ht, (split_plain w ws H), (plain_words_kept _ H). reflexivity.
Qed.

(** *** A caption of one code unit *)




(** *** The words counted *)

Lemma words_kept (r : N -> bool) ws :
  forallb (forallb r) ws = true ->
  forallb (fun w => negb (is_empty w) && forallb r w)
    (List.filter (fun w => negb (is_empty w)) ws) = true.
Proof.
  induction ws as [|w ws IH]; [reflexivity|]. cbn [forallb List.filter].
  intros H. apply andb_true_iff in H as [Hw Hws].
  destruct (negb (is_empty w)) eqn:E; [|apply IH, Hws].
  cbn [forallb]. rewrite E, Hw. apply IH, Hws.
Qed.

(** No word is empty, and none holds whitespace. *)
Lemma words_no_space toLowerCase caption settings :
  forallb (fun w => negb (is_empty w) && Trace.no_space w)
    (words toLowerCase caption settings) = true.
Proof.
  unfold words, Trace.no_space. apply words_kept.
  apply (forallb_split_on (fun c => negb (is_space c)) 32).
  apply (text_units (fun _ => true)); [apply PdfTextFacts.forallb_true|].
  intros c _ _ ->. reflexivity.
Qed.

Lemma length_slice0 {A} (l : list A) n :
  (0 <= n)%Z ->
  slice0 l n = firstn (Z.to_nat n) l /\ (Z.of_nat (length (slice0 l n)) <= n)%Z.
Proof.
  intros Hn. unfold slice0.
  replace (n <? 0)%Z with false by (symmetry; apply Z.ltb_ge; lia).
  split; [reflexivity|]. rewrite length_firstn. lia.
Qed.

(** *** A word of any length *)

Lemma long_word_plain n : plain_word (repeat 120%N (S n)) = true.
Proof.
  unfold plain_word, token. cbn [repeat is_empty negb andb].
  assert (H : forallb is_lower_alnum (repeat 120%N n) = true)
    by (induction n; [reflexivity | exact IHn]).
  cbn [forallb]. rewrite H. cbn [andb]. apply negb_true_iff.
  cbn [existsb]. rewrite !orb_false_iff. unfold str_eqb.
  repeat split; try reflexivity; apply bool_decide_eq_false; intros E;
    vm_compute in E; congruence.
Qed.

Lemma long_word_kept toLowerCase today settings n :
  lowers_ascii toLowerCase -> addDateSuffix settings = false ->
  (0 < wordLimit settings)%Z ->
  captionToFilename toLowerCase today (repeat 120%N (S n)) settings
  = repeat 120%N (S n).
Proof.
  intros Hlow Hd Hn. unfold captionToFilename. rewrite Hd.
  pose proof (limited_plain_words toLowerCase [repeat 120%N (S n)] settings Hlow)
    as H.
  cbn [join forallb] in H. rewrite long_word_plain in H. rewrite (H eq_refl).
  unfold slice0.
  replace (wordLimit settings <? 0)%Z with false by (symmetry; apply Z.ltb_ge; lia).
  rewrite firstn_all2 by (cbn [length]; lia). reflexivity.
Qed.

(** *** The [toLowerCase] of the examples *)

Lemma ascii_toLowerCase_no_capital :
  leaves_no_capital Examples.ascii_toLowerCase.
Proof.
  intros s. unfold Examples.ascii_toLowerCase.
  induction s as [|c t IH]; [reflexivity|]. cbn [map forallb]. rewrite IH.
  rewrite andb_true_r. apply negb_true_iff. unfold lower_unit.
  destruct (is_upper c) eqn:E; [|exact E].
  unfold is_upper, in_range in *. apply andb_true_iff in E as [E1 E2].
  apply N.leb_le in E1, E2. apply andb_false_iff. right. apply N.leb_gt. lia.
Qed.

End WordFacts.

(** ** A buffer with one stream *)

Module OneStreamFacts.
Import PdfExtract Examples PdfFacts TitleFacts.

(** *** Where a pattern is found *)

Lemma strip_prefix_inv pat s r :
  strip_prefix N.eqb pat s = Some r -> s = pat ++ r.
Proof.
  revert s. induction pat as [|a pat IH]; intros s; cbn [strip_prefix app].
  - intros [= ->]. reflexivity.
  - destruct s as [|c s]; [discriminate|].
    destruct (N.eqb_spec a c) as [-> | _]; [|discriminate].
    intros H. rewrite (IH _ H). reflexivity.
Qed.

Lemma find_from_eq pat s pos :
  find_from pat s pos
  = match strip_prefix N.eqb pat s with
    | Some _ => Some pos
    | None => match s with
              | [] => None
              | _ :: t => find_from pat t (S pos)
              end
    end.
Proof. destruct s; reflexivity. Qed.

Lemma includes_false_skipn pat s i :
  includes pat s = false -> strip_prefix N.eqb pat (skipn i s) = None.
Proof.
  revert s. induction i as [|i IH]; intros s H.
  - rewrite drop_0. unfold includes in H. rewrite find_from_eq in H.
    destruct (strip_prefix N.eqb pat s); [discriminate | reflexivity].
  - destruct s as [|c t].
    + specialize (IH [] H). rewrite drop_nil in *. exact IH.
    + cbn [skipn]. apply IH. apply (includes_false_cons _ _ _ H).
Qed.

(** A match of [pat] that begins in [s] and ends behind it would show in
    [s] or make the rest begin with the end of [pat]. *)
Lemma strip_across pat (s r : str) i :
  includes pat s = false ->
  (forall k, (0 < k < length pat)%nat ->
             strip_prefix N.eqb (skipn k pat) r = None) ->
  (i < length s)%nat ->
  strip_prefix N.eqb pat (skipn i (s ++ r)) = None.
Proof.
  intros Hs Hov Hi.
  destruct (strip_prefix N.eqb pat (skipn i (s ++ r))) as [x|] eqn:E;
    [|reflexivity].
  exfalso. apply strip_prefix_inv in E. rewrite skipn_app in E.
  replace (i - length s)%nat with 0%nat in E by lia. rewrite drop_0 in E.
  pose proof (includes_false_skipn pat s i Hs) as Hn.
  assert (Hu : (0 < length (skipn i s))%nat) by (rewrite length_skipn; lia).
  apply app_eq_app in E as [l [[E1 E2] | [E1 E2]]].
  - rewrite E1, strip_prefix_self in Hn. discriminate.
  - destruct l as [|d l].
    + rewrite app_nil_r in E1. rewrite <- E1 in Hn.
      rewrite <- (app_nil_r pat) in Hn at 2.
      rewrite strip_prefix_self in Hn. discriminate.
    + specialize (Hov (length (skipn i s))).
      rewrite E1, length_app in Hov. cbn [length] in Hov.
      specialize (Hov ltac:(lia)).
      rewrite skipn_app, skipn_all, Nat.sub_diag, drop_0 in Hov.
      cbn [app] in Hov.
      rewrite E2, strip_prefix_self in Hov. discriminate.
Qed.

Lemma find_from_app_first pat (s x : str) pos :
  includes pat s = false ->
  (forall k, (0 < k < length pat)%nat ->
             strip_prefix N.eqb (skipn k pat) (pat ++ x) = None) ->
  find_from pat (s ++ pat ++ x) pos = Some (pos + length s)%nat.
Proof.
  intros Hs Hov. revert pos Hs. induction s as [|c t IH]; intros pos Hs.
  - cbn [app length]. rewrite find_from_eq, strip_prefix_self. f_equal. lia.
  - rewrite find_from_eq.
    pose proof (strip_across pat (c :: t) (pat ++ x) 0 Hs Hov
                  ltac:(cbn [length]; lia)) as E.
    rewrite drop_0 in E. rewrite E. cbn [app].
    rewrite IH by (apply (includes_false_cons _ _ _ Hs)).
    f_equal. cbn [length]. lia.
Qed.

Lemma find_from_skipn pat k :
  forall s p p', find_from pat s p = None -> find_from pat (skipn k s) p' = None.
Proof.
  induction k as [|k IH]; intros s p p' H.
  - rewrite drop_0. apply (find_from_pos _ _ _ _ H).
  - destruct s as [|c t]; [apply (find_from_pos _ _ _ _ H)|].
    cbn [skipn]. apply find_from_none in H as [_ H]. apply (IH _ _ _ H).
Qed.

Lemma includes_endstream s :
  includes (lit "stream") s = false -> includes (lit "endstream") s = false.
Proof.
  intros H. unfold includes.
  assert (G : forall p, find_from (lit "endstream") s p = None);
    [|rewrite G; reflexivity].
  induction s as [|c t IH]; intros p; [reflexivity|].
  rewrite find_from_eq.
  destruct (strip_prefix N.eqb (lit "endstream") (c :: t)) as [r|] eqn:E.
  - exfalso. apply strip_prefix_inv in E.
    pose proof (includes_false_skipn _ _ 3 H) as Hn.
    rewrite E in Hn. discriminate.
  - apply IH. apply (includes_false_cons _ _ _ H).
Qed.

(** *** The keyword *)

Lemma stream_keyword_none s :
  strip_prefix N.eqb (lit "stream") s = None -> stream_keyword s = None.
Proof. unfold stream_keyword. intros ->. reflexivity. Qed.

Lemma stream_keyword_pos s len : stream_keyword s = Some len -> (0 < len)%nat.
Proof.
  unfold stream_keyword.
  repeat match goal with
         | |- context [match ?x with _ => _ end] => destruct x
         end; intros [= <-]; lia.
Qed.

(** *** The loop *)

Section Scan.
Variable P : Platform.
Variable bytes : list N.
Variable pdfLatin : str.
Variable maxChars maxStreams : Z.

(** Text without a keyword is passed over. *)
Lemma scan_prefix (s r : str) :
  forall pos skip st,
    (forall i, (skip <= i < length s)%nat ->
               stream_keyword (skipn i (s ++ r)) = None) ->
    (skip <= length s)%nat ->
    scanStreams P bytes pdfLatin maxChars maxStreams (s ++ r) pos skip st
    = scanStreams P bytes pdfLatin maxChars maxStreams r (pos + length s) 0 st.
Proof.
  induction s as [|c t IH]; intros pos skip st H Hk.
  - cbn [length] in *. replace skip with 0%nat by lia.
    rewrite Nat.add_0_r. reflexivity.
  - cbn [app scanStreams length]. destruct skip as [|k].
    + pose proof (H 0%nat ltac:(cbn [length]; lia)) as H0.
      rewrite drop_0 in H0. cbn [app] in H0. rewrite H0.
      rewrite IH; [f_equal; lia | | lia].
      intros i Hi. apply (H (S i)). cbn [length]. lia.
    + rewrite IH; [f_equal; lia | | cbn [length] in Hk; lia].
      intros i Hi. apply (H (S i)). cbn [length]. lia.
Qed.

(** Behind the last [endstream] nothing more is read. *)
Lemma scan_dead_end (r : str) :
  forall pos skip st,
    (forall j, (pos < j)%nat -> indexOf (lit "endstream") pdfLatin j = None) ->
    scanStreams P bytes pdfLatin maxChars maxStreams r pos skip st = st.
Proof.
  induction r as [|c t IH]; intros pos skip st H; [reflexivity|].
  cbn [scanStreams]. destruct skip as [|k].
  - destruct (stream_keyword (c :: t)) as [len|] eqn:E.
    + apply stream_keyword_pos in E.
      destruct (_ && _); [|reflexivity].
      rewrite (H (pos + len)%nat) by lia. reflexivity.
    + apply IH. intros j Hj. apply H. lia.
  - apply IH. intros j Hj. apply H. lia.
Qed.

(** The text of a buffer with one stream: the keyword is [115 :: tail]. *)
Lemma scan_shape (head tail body rest : str) len st :
  includes (lit "stream") head = false ->
  includes (lit "stream") body = false ->
  (forall x, stream_keyword (115%N :: tail ++ x) = Some len) ->
  S (length tail) = len ->
  (forall k x, (0 < k < 6)%nat ->
               strip_prefix N.eqb (skipn k (lit "stream")) (115%N :: tail ++ x)
               = None) ->
  (streamsSeen st <? maxStreams)%Z && (total st <? maxChars)%Z = true ->
  indexOf (lit "endstream") pdfLatin (length head + len)
  = Some (length head + len + length body)%nat ->
  (forall j, (length head + len + length body < j)%nat ->
             indexOf (lit "endstream") pdfLatin j = None) ->
  scanStreams P bytes pdfLatin maxChars maxStreams
    (head ++ (115%N :: tail) ++ body ++ lit "endstream" ++ rest) 0 0 st
  = readStream P bytes pdfLatin (length head) len
      (length head + len + length body) st.
Proof.
  intros Hh Hb Hkw Hlen Hov Hg Hidx Hdead.
  rewrite scan_prefix; [|intros i Hi | lia].
  2:{ apply stream_keyword_none, strip_across; [exact Hh | | lia].
      intros k Hk. cbn [app]. apply Hov. exact Hk. }
  cbn [Nat.add app scanStreams].
  rewrite Hkw, Hg, Hidx.
  replace (len - 1)%nat with (length tail) by lia.
  rewrite app_assoc.
  rewrite scan_prefix.
  - apply scan_dead_end. intros j Hj. apply Hdead.
    rewrite length_app in Hj. lia.
  - intros i Hi. rewrite length_app in Hi.
    rewrite <- app_assoc.
    rewrite skipn_app, skipn_all2 by lia. cbn [app].
    apply stream_keyword_none, strip_across; [exact Hb | | lia].
    intros k Hk. cbn in Hk.
    do 6 (destruct k as [|k]; [try lia; reflexivity|]). lia.
  - rewrite length_app. lia.
Qed.

End Scan.

(** *** The buffer and its text *)

Lemma latin1_streamPdf header cr body trailer :
  latin1_decode (streamPdf header cr body trailer)
  = latin1_decode header ++ (115%N :: lit "tream" ++ line_end cr)
    ++ latin1_decode body ++ lit "endstream" ++ latin1_decode trailer.
Proof.
  unfold streamPdf, latin1_decode. rewrite !map_app.
  destruct cr; reflexivity.
Qed.

Lemma length_latin1 bytes : length (latin1_decode bytes) = length bytes.
Proof. apply length_map. Qed.

(** The 2500 units before the keyword. *)
Lemma slice_dictChunk header (rest : str) :
  slice (latin1_decode header ++ rest) (length header - 2500) (length header)
  = dictChunk header.
Proof.
  unfold slice, dictChunk. rewrite skipn_app, length_latin1.
  replace (length header - 2500 - length header)%nat with 0%nat by lia.
  rewrite drop_0, firstn_app, length_skipn, length_latin1.
  replace (length header - (length header - 2500)
           - (length header - (length header - 2500)))%nat with 0%nat by lia.
  cbn [firstn]. rewrite app_nil_r. apply firstn_all2.
  rewrite length_skipn, length_latin1. lia.
Qed.

(** The bytes between the keyword and [endstream]. *)
Lemma slice_body (head body rest : list N) :
  slice (head ++ body ++ rest) (length head) (length head + length body) = body.
Proof.
  unfold slice. rewrite skipn_app, skipn_all, Nat.sub_diag, drop_0.
  cbn [app]. replace (length head + length body - length head)%nat
    with (length body) by lia.
  rewrite firstn_app, firstn_all, Nat.sub_diag. cbn [firstn].
  apply app_nil_r.
Qed.

Lemma endstream_not_behind (trailer : str) j p :
  includes (lit "endstream") trailer = false ->
  find_from (lit "endstream") (skipn (S j) (lit "endstream" ++ trailer)) p = None.
Proof.
  intros H.
  replace (S j) with (j + 1)%nat by lia. rewrite <- skipn_skipn.
  apply (find_from_skipn _ _ _ 0%nat).
  change (skipn 1 (lit "endstream" ++ trailer))
    with ([110; 100; 115; 116; 114; 101; 97; 109]%N ++ trailer).
  unfold includes in H.
  destruct (find_from (lit "endstream") trailer 0) eqn:E; [discriminate|].
  do 8 (rewrite find_from_eq; cbn [app];
        match goal with
        | |- context [strip_prefix N.eqb ?p (?c :: ?t)] =>
            change (strip_prefix N.eqb p (c :: t)) with (@None str)
        end; cbv iota).
  apply (find_from_pos _ _ _ _ E).
Qed.

(** The loop on a buffer with one stream reads that stream, and it only. *)
Lemma scan_one_stream P header cr body trailer maxChars maxStreams :
  includes (lit "stream") (latin1_decode header) = false ->
  includes (lit "stream") (latin1_decode body) = false ->
  includes (lit "endstream") (latin1_decode trailer) = false ->
  (0 < maxStreams)%Z -> (0 < maxChars)%Z ->
  let pdf := streamPdf header cr body trailer in
  let len := (if cr then 8 else 7)%nat in
  scanStreams P pdf (latin1_decode pdf) maxChars maxStreams (latin1_decode pdf)
    0 0 {| out := []; total := 0; streamsSeen := 0 |}
  = readStream P pdf (latin1_decode pdf) (length header) len
      (length header + len + length body)
      {| out := []; total := 0; streamsSeen := 0 |}.
Proof.
  intros Hh Hb Ht Hs Hc. cbv zeta.
  set (pdf := streamPdf header cr body trailer).
  set (L := latin1_decode pdf).
  assert (HL : L = latin1_decode header ++ (115%N :: lit "tream" ++ line_end cr)
                   ++ latin1_decode body ++ lit "endstream"
                   ++ latin1_decode trailer)
    by apply latin1_streamPdf.
  set (len := (if cr then 8 else 7)%nat).
  assert (Hlen : S (length (lit "tream" ++ line_end cr)) = len)
    by (destruct cr; reflexivity).
  assert (Hidx : indexOf (lit "endstream") L (length header + len)
                 = Some (length header + len + length body)%nat).
  { unfold indexOf. rewrite HL, app_assoc.
    replace (length header + len)%nat
      with (length (latin1_decode header ++ 115%N :: lit "tream" ++ line_end cr))
      by (rewrite length_app, length_latin1; cbn [length]; lia).
    rewrite skipn_app, skipn_all, Nat.sub_diag, drop_0. cbn [app].
    rewrite find_from_app_first.
    - rewrite length_latin1. reflexivity.
    - apply includes_endstream, Hb.
    - intros k Hk. cbn in Hk.
      do 9 (destruct k as [|k]; [try lia; reflexivity|]). lia. }
  assert (Hdead : forall j, (length header + len + length body < j)%nat ->
                            indexOf (lit "endstream") L j = None).
  { intros j Hj. unfold indexOf. rewrite HL.
    rewrite app_assoc, (app_assoc _ (latin1_decode body)).
    rewrite skipn_app, skipn_all2
      by (rewrite !length_app, !length_latin1; cbn [length]; lia).
    cbn [app].
    replace (j - length ((latin1_decode header
                            ++ 115%N :: lit "tream" ++ line_end cr)
                           ++ latin1_decode body))%nat
      with (S (j - S (length header + len + length body)))
      by (rewrite !length_app, !length_latin1; cbn [length]; lia).
    apply endstream_not_behind, Ht. }
  rewrite HL at 2. rewrite <- (length_latin1 header), <- (length_latin1 body).
  apply scan_shape.
  - exact Hh.
  - exact Hb.
  - intros x. destruct cr; reflexivity.
  - exact Hlen.
  - intros k x Hk.
    do 6 (destruct k as [|k]; [try lia; reflexivity|]). lia.
  - apply andb_true_iff. split; apply Z.ltb_lt; assumption.
  - rewrite !length_latin1. exact Hidx.
  - rewrite !length_latin1. exact Hdead.
Qed.

(** The excerpt of a buffer with one stream that is not marked
    /FlateDecode. *)
Lemma excerpt_one_stream P header cr body trailer opts :
  includes (lit "stream") (latin1_decode header) = false ->
  includes (lit "stream") (latin1_decode body) = false ->
  includes (lit "endstream") (latin1_decode trailer) = false ->
  includes (lit "/FlateDecode") (dictChunk header) = false ->
  excerpt (extractPdfPreviewText P (streamPdf header cr body trailer) opts)
  = if (30 <? length (streamText P body))%nat
    then cleanupText
           (firstn (Z.to_nat (effectiveMaxChars opts)) (streamText P body))
    else [].
Proof.
  intros Hh Hb Ht Hf. unfold extractPdfPreviewText. cbn [excerpt].
  unfold extractTextFromEarlyStreams.
  pose proof (clampInt_bounds (nullish (maxChars opts) (Finite 2500)) 200 12000
                ltac:(lia)) as Hc.
  pose proof (clampInt_bounds (nullish (maxStreams opts) (Finite 12)) 1 100
                ltac:(lia)) as Hs.
  fold (effectiveMaxChars opts) in Hc. fold (effectiveMaxStreams opts) in Hs.
  rewrite scan_one_stream by (assumption || lia).
  rewrite readStream_plain.
  2:{ rewrite latin1_streamPdf, slice_dictChunk. exact Hf. }
  assert (Hbody : slice (streamPdf header cr body trailer)
                    (length header + (if cr then 8 else 7))
                    (length header + (if cr then 8 else 7) + length body)
                  = body).
  { unfold streamPdf. rewrite (app_assoc header).
    rewrite (app_assoc (header ++ lit "stream")).
    replace (length header + (if cr then 8 else 7))%nat
      with (length ((header ++ lit "stream") ++ line_end cr))
      by (rewrite !length_app; destruct cr; cbn; lia).
    apply slice_body. }
  rewrite Hbody. fold (streamText P body).
  destruct (30 <? length (streamText P body))%nat; cbn [out seen app join].
  - reflexivity.
  - rewrite firstn_nil. reflexivity.
Qed.

(** The same stream with /FlateDecode before it, on a platform that does
    not inflate it. *)
Lemma excerpt_marked_flate P header cr body trailer opts :
  includes (lit "stream") (latin1_decode header) = false ->
  includes (lit "stream") (latin1_decode body) = false ->
  includes (lit "endstream") (latin1_decode trailer) = false ->
  includes (lit "/FlateDecode") (dictChunk header) = true ->
  DecompressionStream P = None ->
  excerpt (extractPdfPreviewText P (streamPdf header cr body trailer) opts) = [].
Proof.
  intros Hh Hb Ht Hf Hd. unfold extractPdfPreviewText. cbn [excerpt].
  unfold extractTextFromEarlyStreams.
  pose proof (clampInt_bounds (nullish (maxChars opts) (Finite 2500)) 200 12000
                ltac:(lia)) as Hc.
  pose proof (clampInt_bounds (nullish (maxStreams opts) (Finite 12)) 1 100
                ltac:(lia)) as Hs.
  fold (effectiveMaxChars opts) in Hc. fold (effectiveMaxStreams opts) in Hs.
  rewrite scan_one_stream by (assumption || lia).
  rewrite readStream_inflate_failure.
  - cbn [out seen join]. rewrite firstn_nil. reflexivity.
  - rewrite latin1_streamPdf, slice_dictChunk. exact Hf.
  - left. apply inflateFlate_unavailable, Hd.
Qed.

(** *** The excerpt begins with the first string *)

Lemma drop_while_end_mid p (a : str) c t :
  p c = false -> drop_while_end p (a ++ c :: t) = a ++ c :: drop_while_end p t.
Proof.
  intros Hc. induction a as [|x a IH]; cbn [app drop_while_end].
  - rewrite Hc. destruct (drop_while_end p t); reflexivity.
  - rewrite IH. destruct a; reflexivity.
Qed.

Lemma cleanupText_hello (s : str) :
  exists rest, cleanupText (lit "Hello World" ++ s) = lit "Hello World" ++ rest.
Proof.
  unfold cleanupText, replace_runs, trim.
  change (replace_runs_go is_space (lit " ") false (lit "Hello World" ++ s))
    with (lit "Hello World" ++ replace_runs_go is_space (lit " ") false s).
  set (s1 := replace_runs_go is_space (lit " ") false s).
  change (replace_runs_go is_control (lit " ") false (lit "Hello World" ++ s1))
    with (lit "Hello World" ++ replace_runs_go is_control (lit " ") false s1).
  set (s2 := replace_runs_go is_control (lit " ") false s1).
  change (drop_while is_space (lit "Hello World" ++ s2))
    with (lit "Hello Worl" ++ 100%N :: s2).
  rewrite drop_while_end_mid by reflexivity.
  eexists. change (lit "Hello World") with (lit "Hello Worl" ++ [100%N]).
  rewrite <- app_assoc. reflexivity.
Qed.

Lemma includes_prefix pat s : includes pat (pat ++ s) = true.
Proof. unfold includes. rewrite find_from_eq, strip_prefix_self. reflexivity. Qed.

(** With "Hello World" the first string kept and a text of more than 30
    units, the excerpt begins with "Hello World". *)
Lemma excerpt_hello P body more n :
  extractLiteralStrings P (latin1_decode body) = lit "Hello World" :: more ->
  (30 < length (streamText P body))%nat -> (12 <= n)%nat ->
  exists rest,
    cleanupText (firstn n (streamText P body)) = lit "Hello World" ++ rest.
Proof.
  unfold streamText. intros -> Hlen Hn.
  destruct more as [|w more]; [cbn in Hlen; lia|].
  change (join (lit " ") (lit "Hello World" :: w :: more))
    with (lit "Hello World" ++ lit " " ++ join (lit " ") (w :: more)).
  rewrite firstn_app.
  rewrite (firstn_all2 (lit "Hello World")) by (cbn [length lit]; cbn; lia).
  apply cleanupText_hello.
Qed.

End OneStreamFacts.

(** ** The first string of a stream *)

Module FirstStringFacts.
Import PdfExtract Examples.

(** The loop of [extractLiteralStrings] only adds to its results. *)
Lemma collect_grows tok decode rest :
  forall skip results,
    exists more, collect tok decode rest skip results = results ++ more.
Proof.
  induction rest as [|c t IH]; intros skip results.
  - exists []. cbn [collect]. rewrite app_nil_r. reflexivity.
  - cbn [collect]. destruct skip as [|k]; [|apply IH].
    destruct (tok (c :: t)) as [[raw len]|]; [|apply IH].
    destruct (isUsefulText (cleanupText (decode raw))).
    + destruct (3500 <? _)%nat.
      * eexists. reflexivity.
      * destruct (IH (len - 1)%nat (results ++ [cleanupText (decode raw)]))
          as [more E].
        rewrite E, <- app_assoc. eexists. reflexivity.
    + destruct (3500 <? _)%nat; [exists []; rewrite app_nil_r; reflexivity|].
      apply IH.
Qed.

(** A stream that begins with [BT (Hello World)Tj] has "Hello World" as
    the first string kept. *)
Lemma first_string_hello P (rest : str) :
  exists more,
    extractLiteralStrings P (lit "BT (Hello World)Tj" ++ rest)
    = lit "Hello World" :: more.
Proof.
  unfold extractLiteralStrings.
  change (take_N 400000 (lit "BT (Hello World)Tj" ++ rest))
    with (lit "BT (Hello World)Tj" ++ take_N 399982 rest).
  set (tail := take_N 399982 rest).
  change (collect literal_at decodePdfLiteralString
            (lit "BT (Hello World)Tj" ++ tail) 0 [])
    with (collect literal_at decodePdfLiteralString
            (lit "Hello World)Tj" ++ tail) 12 [lit "Hello World"]).
  destruct (collect_grows literal_at decodePdfLiteralString
              (lit "Hello World)Tj" ++ tail) 12 [lit "Hello World"])
    as [more1 ->].
  destruct (collect_grows hex_at (decodePdfHexString P)
              (lit "BT (Hello World)Tj" ++ tail) 0
              ([lit "Hello World"] ++ more1))
    as [more2 ->].
  eexists. reflexivity.
Qed.

Lemma latin1_hello (rest : list N) :
  latin1_decode (lit "BT (Hello World)Tj" ++ rest)
  = lit "BT (Hello World)Tj" ++ latin1_decode rest.
Proof. unfold latin1_decode. rewrite map_app. reflexivity. Qed.

End FirstStringFacts.

(** * The claims *)

Import SlugAutomaton Background Observe Examples PdfExtract.

(** C1, amended.  Both versions of [captionToFilename] are functions of
    the caption, the settings and the calendar date, and of nothing else
    when no date suffix is asked for.  The result of the image-only
    hf-api.js always matches [^[a-z0-9]+(-[a-z0-9]+)*$] (its fallback
    "image" does too).  The result of extension/hf-api.js is never empty
    and made of word units and hyphens, and of [[a-z0-9_-]] only where
    [toLowerCase] leaves no capital; it then matches the expression when
    the lowered caption holds no hyphen and no underscore, unless the date
    is put behind an empty slug, which gives a leading hyphen.
    Underscores and the hyphens of the caption stay. *)
Theorem captionToFilename_shape (toLowerCase : str -> str)
    (today caption : str) (settings : Settings) :
  slug_shape today = true ->
  slug_shape (ImageApi.captionToFilename toLowerCase today caption settings) = true
  /\ (addDateSuffix settings = false ->
      forall today',
        ImageApi.captionToFilename toLowerCase today' caption settings
        = ImageApi.captionToFilename toLowerCase today caption settings
        /\ HfApi.captionToFilename toLowerCase today' caption settings
           = HfApi.captionToFilename toLowerCase today caption settings)
  /\ (let out := HfApi.captionToFilename toLowerCase today caption settings in
      out <> [] /\ forallb hf_unit out = true)
  /\ (leaves_no_capital toLowerCase ->
      let limited := HfApi.limited toLowerCase caption settings in
      let out := HfApi.captionToFilename toLowerCase today caption settings in
      forallb hf_lower_unit out = true
      /\ (forallb no_joiner (toLowerCase caption) = true ->
          limited <> [] \/ addDateSuffix settings = false ->
          slug_shape out = true)
      /\ (addDateSuffix settings = true -> limited = [] ->
          out = lit "-" ++ today /\ slug_shape out = false)).
Proof.
  intros Htoday. split; [|split; [|split]].
  - apply ImageApiFacts.captionToFilename_slug, Htoday.
  - intros Hdate today'.
    unfold ImageApi.captionToFilename, HfApi.captionToFilename.
    rewrite Hdate. split; reflexivity.
  - apply WordFacts.captionToFilename_word_units, Htoday.
  - intros Hno. cbv zeta.
    pose proof (WordFacts.captionToFilename_lower_units toLowerCase today caption
                  settings Hno (WordFacts.slug_lower_units today Htoday))
      as [_ H2].
    split; [exact H2|]. split.
    + intros Hj Hcase. apply WordFacts.captionToFilename_plain; assumption.
    + intros Hdate Hl. unfold HfApi.captionToFilename. rewrite Hdate, Hl.
      split; reflexivity.
Qed.

Lemma captionToFilename_shape_witness :
  slug_shape (lit "2024-01-01") = true
  /\ slug_shape
       (ImageApi.captionToFilename ascii_toLowerCase (lit "2024-01-01")
          (lit "The Quick_Brown -- Fox!") DEFAULTS) = true
  /\ forallb hf_lower_unit
       (HfApi.captionToFilename ascii_toLowerCase (lit "2024-01-01")
          (lit "The Quick_Brown -- Fox!") DEFAULTS) = true.
Proof.
  split; [reflexivity|]. split.
  - exact (proj1 (captionToFilename_shape ascii_toLowerCase (lit "2024-01-01")
                    (lit "The Quick_Brown -- Fox!") DEFAULTS eq_refl)).
  - exact (proj1 (proj2 (proj2 (proj2 (captionToFilename_shape ascii_toLowerCase
                    (lit "2024-01-01") (lit "The Quick_Brown -- Fox!") DEFAULTS
                    eq_refl)))
                  WordFacts.ascii_toLowerCase_no_capital)).
Defined.

(** C1 as stated fails on extension/hf-api.js: the caption "foo_bar" comes
    back as "foo_bar", which has an underscore and is no fallback; the two
    hyphens of "well--known" stay; and with the date suffix on, a caption
    without a word gives "-2024-01-01". *)
Lemma captionToFilename_shape_counterexample :
  HfApi.captionToFilename ascii_toLowerCase (lit "2024-01-01") (lit "foo_bar")
    DEFAULTS = lit "foo_bar"
  /\ slug_shape (lit "foo_bar") = false
  /\ lit "foo_bar" <> lit "download"
  /\ lit "foo_bar" <> lit "image"
  /\ HfApi.captionToFilename ascii_toLowerCase (lit "2024-01-01")
       (lit "well--known") DEFAULTS = lit "well--known"
  /\ slug_shape (lit "well--known") = false
  /\ HfApi.captionToFilename ascii_toLowerCase (lit "2024-01-01") (lit "!")
       dated_settings = lit "-2024-01-01"
  /\ slug_shape (lit "-2024-01-01") = false.
Proof. repeat split; try reflexivity; discriminate. Qed.

(** C2, amended.  For a download named "photo123.jpg" whose caption is
    "a white cat sitting on floor", under [{cleanCaptions: true,
    maxWords: 4}], the image-only worker with the image-only hf-api.js,
    which removes the preposition "on", returns
    "white-cat-sitting-floor.jpg"; the worker of the extension with
    extension/hf-api.js, which removes articles only, returns
    "white-cat-sitting-on.jpg". *)
Theorem white_cat_filename (W : World) (st : State)
    (downloadItem : DownloadItem) (host : str) :
  lowers_ascii (toLowerCase W) ->
  cleanCaptions (settings W) = true ->
  maxWords (settings W) = Some 4%Z ->
  addDateSuffix (settings W) = false ->
  filename downloadItem = lit "photo123.jpg" ->
  modelAnswers W st downloadItem (lit "a white cat sitting on floor") ->
  hostname W (itemUrl downloadItem) = Some host ->
  fst (ImageBackground.renameImage W downloadItem st)
  = Ok (Some (lit "white-cat-sitting-floor.jpg"))
  /\ fst (Background.renameImage W downloadItem st)
     = Ok (Some (lit "white-cat-sitting-on.jpg")).
Proof.
  intros Hlow Hclean Hwords Hdate Hname Hmodel Hhost. split.
  - rewrite (BackgroundFacts.image_only_renameImage_result _ _ _ _ _ Hmodel Hhost).
    unfold ImageBackground.captionToFilename.
    rewrite ExampleFacts.image_only_white_cat by assumption.
    rewrite ExampleFacts.extension_of_photo by assumption.
    reflexivity.
  - rewrite (BackgroundFacts.renameImage_result _ _ _ _ Hmodel).
    unfold Background.captionToFilename.
    rewrite ExampleFacts.extension_white_cat by assumption.
    rewrite ExampleFacts.extension_of_photo by assumption.
    reflexivity.
Qed.

Lemma white_cat_filename_witness :
  fst (ImageBackground.renameImage
         (test_world test_settings (lit "a white cat sitting on floor"))
         photo fresh_state)
  = Ok (Some (lit "white-cat-sitting-floor.jpg")).
Proof.
  exact (proj1 (white_cat_filename
                  (test_world test_settings (lit "a white cat sitting on floor"))
                  fresh_state photo (lit "example.com")
                  ExampleFacts.ascii_toLowerCase_lowers eq_refl eq_refl eq_refl
                  eq_refl
                  (ExampleFacts.test_world_answers test_settings _
                     eq_refl eq_refl eq_refl)
                  eq_refl)).
Defined.

(** C2 as stated fails on the worker of the extension: "on" stays and
    the fourth word is the last one kept. *)
Lemma white_cat_filename_counterexample :
  fst (Background.renameImage
         (test_world test_settings (lit "a white cat sitting on floor"))
         photo fresh_state)
  = Ok (Some (lit "white-cat-sitting-on.jpg")).
Proof. vm_compute. reflexivity. Qed.

(** C3, amended.  In the image-only hf-api.js the result before the date
    suffix has 2 to 60 code units and does not end with a hyphen, the cap
    being the first 60 units with the hyphens at their end removed.
    extension/hf-api.js has no cap on the length: [limited] is the first
    [maxWords || 5] of the words of the cleaned caption, none of them
    empty or with whitespace in it, joined by hyphens; of a caption of
    plain words these are its first words as they are, and one word of
    any length comes back whole. *)
Theorem slug_length_cap (toLowerCase : str -> str) (today caption : str)
    (settings : Settings) :
  let slug :=
    ImageApi.ensureSomething (ImageApi.slugified toLowerCase caption settings) in
  (2 <= length slug <= 60)%nat
  /\ last slug <> Some hyphen
  /\ ImageApi.captionToFilename toLowerCase today caption settings
     = (if addDateSuffix settings then slug ++ lit "-" ++ today else slug)
  /\ (let words := HfApi.words toLowerCase caption settings in
      let kept := slice0 words (HfApi.wordLimit settings) in
      HfApi.limited toLowerCase caption settings = join (lit "-") kept
      /\ forallb (fun w => negb (is_empty w) && Trace.no_space w) words = true
      /\ ((0 <= HfApi.wordLimit settings)%Z ->
          kept = firstn (Z.to_nat (HfApi.wordLimit settings)) words
          /\ (Z.of_nat (length kept) <= HfApi.wordLimit settings)%Z))
  /\ (lowers_ascii toLowerCase ->
      forall ws, forallb plain_word ws = true ->
        HfApi.limited toLowerCase (join (lit " ") ws) settings
        = join (lit "-") (slice0 ws (HfApi.wordLimit settings)))
  /\ (lowers_ascii toLowerCase -> addDateSuffix settings = false ->
      (0 < HfApi.wordLimit settings)%Z ->
      forall n,
        HfApi.captionToFilename toLowerCase today (repeat 120%N (S n)) settings
        = repeat 120%N (S n)).
Proof.
  cbv zeta. split; [|split; [|split; [|split; [|split]]]].
  - apply ImageApiFacts.length_ensureSomething, ImageApiFacts.length_limitLength.
  - apply ImageApiFacts.slug_shape_last, ImageApiFacts.ensureSomething_slug,
      ImageApiFacts.slugified_slug.
  - reflexivity.
  - split; [reflexivity|]. split; [apply WordFacts.words_no_space|].
    apply WordFacts.length_slice0.
  - intros Hlow ws Hws. apply WordFacts.limited_plain_words; assumption.
  - intros Hlow Hd Hn n. apply WordFacts.long_word_kept; assumption.
Qed.

(** C3 as stated fails on extension/hf-api.js: five long words give a
    result of 65 code units. *)
Lemma slug_length_cap_counterexample :
  HfApi.captionToFilename ascii_toLowerCase (lit "2024-01-01")
    (lit "extraordinarily magnificent international photographic exhibition")
    DEFAULTS
  = lit "extraordinarily-magnificent-international-photographic-exhibition"
  /\ length
       (lit "extraordinarily-magnificent-international-photographic-exhibition")
     = 65%nat.
Proof. split; reflexivity. Qed.




(** C5, amended.  Take a buffer with one stream: a header without the
    word [stream], the keyword and the end of its line, data without the
    word [stream], [endstream], and a trailer without [endstream].  When
    the 2500 code units before the keyword do not hold [/FlateDecode], the
    excerpt is the text of the stream (the strings kept from the data,
    joined by spaces), cut at the effective [maxChars] and cleaned up, if
    that text is longer than 30 code units, and empty otherwise.  So the
    excerpt begins with "Hello World" when that is the first string kept,
    as it is when the data begin with [BT (Hello World)Tj], and the text
    is longer than 30, as with a second string beside [(Hello World)Tj];
    and it is empty for [(Hello World)Tj] alone, whose 11 code units are
    no more than 30.  When the 2500 code units do hold
    [/FlateDecode], be it in a comment, the stream is taken as compressed,
    and the excerpt is empty where nothing inflates it. *)
Theorem hello_world_excerpt (P : Platform) (header body trailer : list N)
    (cr : bool) (opts : Options) :
  includes (lit "stream") (latin1_decode header) = false ->
  includes (lit "stream") (latin1_decode body) = false ->
  includes (lit "endstream") (latin1_decode trailer) = false ->
  let result :=
    excerpt (extractPdfPreviewText P (streamPdf header cr body trailer) opts) in
  let text := streamText P body in
  (includes (lit "/FlateDecode") (dictChunk header) = false ->
   result
   = (if (30 <? length text)%nat
      then cleanupText (firstn (Z.to_nat (effectiveMaxChars opts)) text)
      else [])
   /\ (forall more,
         extractLiteralStrings P (latin1_decode body)
         = lit "Hello World" :: more ->
         (30 < length text)%nat ->
         includes (lit "Hello World") result = true
         /\ exists rest, result = lit "Hello World" ++ rest)
   /\ (forall rest,
         body = lit "BT (Hello World)Tj" ++ rest ->
         (30 < length text)%nat ->
         includes (lit "Hello World") result = true
         /\ exists tail, result = lit "Hello World" ++ tail)
   /\ ((length text <= 30)%nat -> result = []))
  /\ (includes (lit "/FlateDecode") (dictChunk header) = true ->
      DecompressionStream P = None -> result = [])
  /\ streamPdf pdf_header false prose_stream pdf_trailer = hello_prose_pdf
  /\ excerpt (extractPdfPreviewText P hello_prose_pdf default_options)
     = lit "Hello World This is a sample document body"
  /\ extractLiteralStrings P (lit "BT (Hello World)Tj ET" ++ [10%N])
     = [lit "Hello World"]
  /\ excerpt (extractPdfPreviewText P hello_pdf default_options) = []
  /\ (DecompressionStream P = None ->
      excerpt (extractPdfPreviewText P
                 (streamPdf commented_header false prose_stream pdf_trailer)
                 default_options) = []).
Proof.
  intros Hh Hb Ht. cbv zeta. split; [|split].
  - intros Hf.
    pose proof (OneStreamFacts.excerpt_one_stream P header cr body trailer opts
                  Hh Hb Ht Hf) as E.
    assert (Hfirst : forall more,
              extractLiteralStrings P (latin1_decode body)
              = lit "Hello World" :: more ->
              (30 < length (streamText P body))%nat ->
              includes (lit "Hello World")
                (excerpt (extractPdfPreviewText P
                            (streamPdf header cr body trailer) opts)) = true
              /\ exists rest,
                   excerpt (extractPdfPreviewText P
                              (streamPdf header cr body trailer) opts)
                   = lit "Hello World" ++ rest).
    { intros more Hs Hlen. rewrite E.
      replace (30 <? length (streamText P body))%nat with true
        by (symmetry; apply Nat.ltb_lt; exact Hlen).
      destruct (OneStreamFacts.excerpt_hello P body more
                  (Z.to_nat (effectiveMaxChars opts)) Hs Hlen) as [rest Hr].
      { pose proof (PdfFacts.clampInt_bounds
                      (nullish (maxChars opts) (Finite 2500)) 200 12000
                      ltac:(lia)) as Hc.
        fold (effectiveMaxChars opts) in Hc. lia. }
      rewrite Hr. split; [apply OneStreamFacts.includes_prefix|].
      exists rest. reflexivity. }
    split; [exact E|]. split; [exact Hfirst|]. split.
    + intros rest Hbody Hlen.
      destruct (FirstStringFacts.first_string_hello P (latin1_decode rest))
        as [more Hm].
      apply (Hfirst more); [|exact Hlen].
      rewrite Hbody, FirstStringFacts.latin1_hello. exact Hm.
    + intros Hlen. rewrite E.
      replace (30 <? length (streamText P body))%nat with false
        by (symmetry; apply Nat.ltb_ge; exact Hlen).
      reflexivity.
  - intros Hf Hd.
    apply OneStreamFacts.excerpt_marked_flate; assumption.
  - split; [reflexivity|]. split; [vm_compute; reflexivity|].
    split; [vm_compute; reflexivity|]. split; [vm_compute; reflexivity|].
    intros Hd.
    apply OneStreamFacts.excerpt_marked_flate;
      [reflexivity | reflexivity | reflexivity | reflexivity | exact Hd].
Qed.

Lemma hello_world_excerpt_witness :
  excerpt (extractPdfPreviewText bare_platform
             (streamPdf pdf_header false prose_stream pdf_trailer)
             default_options)
  = lit "Hello World This is a sample document body".
Proof.
  etransitivity.
  - exact (proj1 (proj1 (hello_world_excerpt bare_platform pdf_header
                           prose_stream pdf_trailer false default_options
                           eq_refl eq_refl eq_refl) eq_refl)).
  - vm_compute. reflexivity.
Defined.

(** C5 as stated fails: the stream with [(Hello World)Tj] alone gives an
    excerpt that does not hold "Hello World". *)
Lemma hello_world_excerpt_counterexample :
  excerpt (extractPdfPreviewText bare_platform hello_pdf default_options) = []
  /\ includes (lit "Hello World")
       (excerpt (extractPdfPreviewText bare_platform hello_pdf default_options))
     = false.
Proof. split; vm_compute; reflexivity. Qed.

(** C6, the input on which the code departs from the claim.  With the
    ceiling consumed and exactly 60000 ms gone since the start of the
    window, [checkRateLimit] does not reset the counter: it throws, and
    the message tells to wait 0 seconds. *)
Theorem checkRateLimit_at_one_minute (t0 : Z) :
  checkRateLimit (t0 + 60000)
    {| requestCount := maxPerMinute; requestTimestamp := t0 |}
  = (Err (RateLimitReached 0),
     {| requestCount := maxPerMinute; requestTimestamp := t0 |}).
Proof.
  unfold checkRateLimit. cbn [requestTimestamp].
  replace (t0 + 60000 - t0)%Z with 60000%Z by lia. reflexivity.
Qed.

(** C7, amended.  A download that enters the image or the PDF flow writes
    one history entry, with [success: true] under the name returned when a
    name is returned and [success: false] when [null] is, and one stats
    update with it.  Apart are the two skips written in the code, and they
    only, which return [null] and write neither: an image that the flow
    has fetched and that has fewer bytes than [minImageSize] while
    [skipSmallImages] is on, and a PDF while [enablePdfRenaming] is off.
    (Calls to storage, badge and notifications are taken not to fail.) *)
Theorem history_recorded_once (W : World) (downloadItem : DownloadItem)
    (st : State) :
  recordedExactly (skipsSmallImage W st downloadItem) st
    (renameImage W downloadItem st)
  /\ recordedExactly (negb (enablePdfRenaming (settings W))) st
       (renamePdf W downloadItem st).
Proof.
  split.
  - apply ExactFacts.renameImage_exactly.
  - apply ExactFacts.renamePdf_exactly.
Qed.

(** C7 as stated fails: a small image under [skipSmallImages] goes through
    the image flow and leaves the history and the stats as they were. *)
Lemma history_recorded_once_counterexample :
  skipsSmallImage (test_world skipping_settings (lit "a white cat")) fresh_state
    photo = true
  /\ fst (renameImage (test_world skipping_settings (lit "a white cat")) photo
         fresh_state) = Ok None
  /\ history (snd (renameImage (test_world skipping_settings (lit "a white cat"))
                     photo fresh_state)) = []
  /\ stats (snd (renameImage (test_world skipping_settings (lit "a white cat"))
                   photo fresh_state)) = None
  /\ historyWrites
       (effects (snd (renameImage
                        (test_world skipping_settings (lit "a white cat"))
                        photo fresh_state))) = 0%nat.
Proof. repeat split; vm_compute; reflexivity. Qed.



(** C10.  With [enablePdfRenaming] off, [renamePdf] returns [null] and
    leaves the whole state as it was: the rate limiter, the history, the
    stats, and the calls made (no fetch, no remote call, no badge, no
    notification). *)
Theorem renamePdf_disabled_noop (W : World) (downloadItem : DownloadItem)
    (st : State) :
  enablePdfRenaming (settings W) = false ->
  renamePdf W downloadItem st = (Ok None, st).
Proof. apply BackgroundFacts.renamePdf_disabled. Qed.

Lemma renamePdf_disabled_noop_witness :
  renamePdf (test_world skipping_settings (lit "annual report")) report
    fresh_state
  = (Ok None, fresh_state).
Proof.
  exact (renamePdf_disabled_noop
           (test_world skipping_settings (lit "annual report")) report
           fresh_state eq_refl).
Defined.

(** * Further properties *)

Import Trace Listener Popup Inputs.
Local Open Scope Z_scope.

(** X1.  [checkRateLimit] in full.  Within the window (at most 60000 ms
    since its start) it passes and counts the call while the counter is
    under the ceiling, and throws, leaving the limiter as it is, once the
    ceiling is reached; the first call more than 60000 ms after the start
    of the window starts a new window, passes, and leaves the counter at
    1. *)
Theorem rate_limit_window (now : Z) (l : RateLimiter) :
  (now - requestTimestamp l <= 60000 -> requestCount l < maxPerMinute ->
   checkRateLimit now l
   = (Ok tt, {| requestCount := requestCount l + 1;
                requestTimestamp := requestTimestamp l |}))
  /\ (now - requestTimestamp l <= 60000 -> maxPerMinute <= requestCount l ->
      checkRateLimit now l
      = (Err (RateLimitReached
                (ceil_seconds (60000 - (now - requestTimestamp l)))), l))
  /\ (60000 < now - requestTimestamp l ->
      checkRateLimit now l
      = (Ok tt, {| requestCount := 1; requestTimestamp := now |})).
Proof.
  split; [|split].
  - intros Hin Hc. rewrite BackgroundFacts.checkRateLimit_in_window by exact Hin.
    replace (maxPerMinute <=? requestCount l) with false
      by (symmetry; apply Z.leb_gt; exact Hc).
    reflexivity.
  - intros Hin Hc. rewrite BackgroundFacts.checkRateLimit_in_window by exact Hin.
    replace (maxPerMinute <=? requestCount l) with true
      by (symmetry; apply Z.leb_le; exact Hc).
    reflexivity.
  - apply BackgroundFacts.checkRateLimit_after_window.
Qed.

(** X2.  From the start of a window, as many calls as the ceiling within
    the window all pass, and the next call within the window throws. *)
Theorem rate_limit_ceiling (t0 : Z) (times : list Z) (t : Z) :
  length times = Z.to_nat maxPerMinute ->
  Forall (fun t' => (t' - t0 <= 60000)%Z) times ->
  (t - t0 <= 60000)%Z ->
  callsAt times {| requestCount := 0; requestTimestamp := t0 |}
  = (true, {| requestCount := maxPerMinute; requestTimestamp := t0 |})
  /\ exists seconds,
       checkRateLimit t {| requestCount := maxPerMinute; requestTimestamp := t0 |}
       = (Err (RateLimitReached seconds),
          {| requestCount := maxPerMinute; requestTimestamp := t0 |}).
Proof.
  intros Hlen Hin Ht. split.
  - rewrite (BackgroundFacts.callsAt_in_window t0 times 0 Hin)
      by (rewrite Hlen; unfold maxPerMinute; lia).
    rewrite Hlen. reflexivity.
  - eexists.
    rewrite BackgroundFacts.checkRateLimit_in_window by (cbn; lia).
    reflexivity.
Qed.

Lemma rate_limit_ceiling_witness :
  callsAt (repeat 1700000001000%Z 30)
    {| requestCount := 0; requestTimestamp := 1700000000000 |}
  = (true, {| requestCount := maxPerMinute; requestTimestamp := 1700000000000 |}).
Proof.
  apply (proj1 (rate_limit_ceiling 1700000000000 (repeat 1700000001000%Z 30)
                  1700000059999 eq_refl
                  ltac:(cbn [repeat]; repeat constructor; lia)
                  ltac:(lia))).
Defined.

(** X3.  [addToHistory] puts the new entry first and keeps the 100 newest
    entries. *)
Theorem history_keeps_100 (W : World) (e : Entry) (st : State) :
  let st' := snd (addToHistory W e st) in
  head (history st')
  = Some {| entry := e; id := writeTime W; timestamp := writeTime W |}
  /\ (length (history st') <= 100)%nat
  /\ history st'
     = firstn 100
         ({| entry := e; id := writeTime W; timestamp := writeTime W |}
          :: history st).
Proof.
  cbv zeta. rewrite BackgroundFacts.addToHistory_history.
  split; [reflexivity|]. split; [apply firstn_le_length | reflexivity].
Qed.

(** X4.  For the method names the worker uses, [updateStats] adds 1 to
    [totalRenames], 1 to [successful] or to [failed] by its first argument,
    leaving the other as it was, and 1 to the count of the method. *)
Theorem stats_counted (ok : bool) (method : string) (st : State) :
  In method methods ->
  exists s,
    stats (snd (updateStats ok method st)) = Some s
    /\ totalRenames s = (totalRenames (currentStats st) + 1)%Z
    /\ successful s
       = (successful (currentStats st) + if ok then 1 else 0)%Z
    /\ failed s = (failed (currentStats st) + if ok then 0 else 1)%Z
    /\ bySource s !! method
       = Some (default 0%Z (bySource (currentStats st) !! method) + 1)%Z.
Proof.
  intros _. unfold updateStats, emit, currentStats. cbn [snd stats].
  eexists. split; [reflexivity|]. cbn [totalRenames successful failed bySource].
  repeat split.
  - destruct ok; lia.
  - destruct ok; lia.
  - apply lookup_insert_eq.
Qed.

Lemma stats_counted_witness :
  exists s,
    stats (snd (updateStats true "hf-api" fresh_state)) = Some s
    /\ totalRenames s = (totalRenames (currentStats fresh_state) + 1)%Z
    /\ successful s
       = (successful (currentStats fresh_state) + 1)%Z
    /\ failed s = (failed (currentStats fresh_state) + 0)%Z
    /\ bySource s !! "hf-api"%string
       = Some (default 0%Z (bySource (currentStats fresh_state) !! "hf-api"%string)
               + 1)%Z.
Proof.
  exact (stats_counted true "hf-api" fresh_state (or_introl eq_refl)).
Defined.

(** X5.  The flows keep what is stored in order: from a state with at
    most 100 entries of history and with stats that agree ([totalRenames]
    the sum of [successful] and [failed], neither negative, and the sum of
    the counts by method), every run of a flow ends in such a state. *)
Theorem storage_kept (W : World) (downloadItem : DownloadItem) (st : State) :
  wellKept st ->
  wellKept (snd (renameImage W downloadItem st))
  /\ wellKept (snd (renamePdf W downloadItem st))
  /\ wellKept (snd (ImageBackground.renameImage W downloadItem st)).
Proof.
  intros H. destruct (FlowFacts.flows_wellKept W downloadItem) as (H1 & H2 & H3).
  split; [apply H1, H | split; [apply H2, H | apply H3, H]].
Qed.

Lemma storage_kept_witness :
  wellKept
    (snd (renameImage (test_world test_settings (lit "a white cat")) photo
            fresh_state)).
Proof.
  apply (storage_kept (test_world test_settings (lit "a white cat")) photo
           fresh_state).
  split; [cbn; lia | exact I].
Defined.

(** X6.  With [addDateSuffix] on, the fallback of extension/hf-api.js is
    passed over: a caption that leaves no word gives a hyphen and the date,
    not ["download"]; the image-only hf-api.js puts ["image"] before the
    date. *)
Theorem date_suffix_skips_fallback (toLowerCase : str -> str)
    (today caption : str) (settings : Settings) :
  addDateSuffix settings = true ->
  (HfApi.limited toLowerCase caption settings = [] ->
   HfApi.captionToFilename toLowerCase today caption settings = lit "-" ++ today)
  /\ ((length (ImageApi.slugified toLowerCase caption settings) < 2)%nat ->
      ImageApi.captionToFilename toLowerCase today caption settings
      = lit "image-" ++ today)
  /\ (toLowerCase [] = [] ->
      HfApi.captionToFilename toLowerCase today [] settings = lit "-" ++ today
      /\ ImageApi.captionToFilename toLowerCase today [] settings
         = lit "image-" ++ today).
Proof.
  intros Hd. unfold HfApi.captionToFilename, ImageApi.captionToFilename.
  rewrite Hd. cbv zeta. split; [|split].
  - intros ->. reflexivity.
  - intros H. unfold ImageApi.ensureSomething. apply Nat.ltb_lt in H.
    rewrite H. reflexivity.
  - intros He. rewrite (HfApiFacts.limited_empty _ _ He),
      (ImageApiFacts.slugified_empty _ _ He).
    split; reflexivity.
Qed.

Lemma date_suffix_skips_fallback_witness :
  HfApi.captionToFilename ascii_toLowerCase (lit "2024-01-01") [] dated_settings
  = lit "-2024-01-01".
Proof.
  exact (proj1 (proj2 (proj2 (date_suffix_skips_fallback ascii_toLowerCase
                                (lit "2024-01-01") [] dated_settings eq_refl))
                  eq_refl)).
Defined.

(** X7.  In the image-only hf-api.js a positive [maxWords] bounds the
    number of hyphen-separated words of the result before the date
    suffix. *)
Theorem slug_word_count (toLowerCase : str -> str) (caption : str)
    (settings : Settings) (n : Z) :
  maxWords settings = Some n -> (0 < n)%Z ->
  (Z.of_nat
     (wordCount
        (ImageApi.ensureSomething
           (ImageApi.slugified toLowerCase caption settings))) <= n)%Z.
Proof.
  intros Hw Hn.
  pose proof (ImageApiFacts.wordCount_slugified toLowerCase caption settings n
                Hw Hn) as H.
  unfold ImageApi.ensureSomething.
  destruct (length (ImageApi.slugified toLowerCase caption settings) <? 2)%nat;
    [|exact H].
  change (wordCount (lit "image")) with 1%nat. lia.
Qed.

Lemma slug_word_count_witness :
  (Z.of_nat
     (wordCount
        (ImageApi.ensureSomething
           (ImageApi.slugified ascii_toLowerCase
              (lit "a white cat sitting on floor") test_settings))) <= 4)%Z.
Proof.
  apply (slug_word_count ascii_toLowerCase (lit "a white cat sitting on floor")
           test_settings 4 eq_refl).
  lia.
Defined.

(** X8.  Without a date suffix the image-only [captionToFilename] changes
    none of its own results: given one of them as the caption, it returns
    it. *)
Theorem slug_stable (toLowerCase : str -> str) (today caption : str)
    (settings : Settings) :
  lowers_ascii toLowerCase -> addDateSuffix settings = false ->
  ImageApi.captionToFilename toLowerCase today
    (ImageApi.captionToFilename toLowerCase today caption settings) settings
  = ImageApi.captionToFilename toLowerCase today caption settings.
Proof. apply StableFacts.captionToFilename_stable. Qed.

Lemma slug_stable_witness :
  ImageApi.captionToFilename ascii_toLowerCase (lit "2024-01-01")
    (ImageApi.captionToFilename ascii_toLowerCase (lit "2024-01-01")
       (lit "A white cat, sitting on the floor!") test_settings) test_settings
  = ImageApi.captionToFilename ascii_toLowerCase (lit "2024-01-01")
      (lit "A white cat, sitting on the floor!") test_settings.
Proof.
  exact (slug_stable ascii_toLowerCase (lit "2024-01-01")
           (lit "A white cat, sitting on the floor!") test_settings
           ExampleFacts.ascii_toLowerCase_lowers eq_refl).
Defined.

(** X9.  [cleanupText] gives a string with no control character and no
    whitespace but U+0020, that neither starts nor ends with whitespace and
    is no longer than its argument.  Spaces can still stand in a row: the
    control characters are replaced after the whitespace is collapsed. *)
Theorem cleanupText_clean (s : str) :
  forallb is_clean (cleanupText s) = true
  /\ (forall c, head (cleanupText s) = Some c \/ last (cleanupText s) = Some c ->
                is_space c = false)
  /\ (length (cleanupText s) <= length s)%nat
  /\ cleanupText (lit "a " ++ [1%N] ++ lit " b") = lit "a   b".
Proof.
  split; [apply PdfTextFacts.cleanupText_units|].
  split; [intros c; apply PdfTextFacts.trim_ends|].
  split; [apply PdfFacts.length_cleanupText | reflexivity].
Qed.

(** X10.  [decodePdfLiteralString] returns a string without backslash as it
    is, and drops a backslash that ends it; it undoes the escaping of
    backslashes and parentheses; and its result is never longer than its
    argument. *)
Theorem literal_string_decoded (s : str) :
  (forallb (fun c => negb (c =? 92)%N) s = true ->
   decodePdfLiteralString s = s /\ decodePdfLiteralString (s ++ [92%N]) = s)
  /\ decodePdfLiteralString
       (flat_map
          (fun c => if (c =? 92)%N || (c =? 40)%N || (c =? 41)%N
                    then [92%N; c] else [c]) s)
     = s
  /\ (length (decodePdfLiteralString s) <= length s)%nat.
Proof.
  split; [|split].
  - intros H. split; [apply PdfTextFacts.decodeLiteral_plain, H|].
    unfold decodePdfLiteralString. induction s as [|c t IH]; [reflexivity|].
    cbn [forallb] in H. apply andb_true_iff in H as [Hc Ht].
    cbn [app decodeLiteral_go]. rewrite Hc. f_equal. apply IH, Ht.
  - apply PdfTextFacts.decodeLiteral_escaped.
  - apply PdfTextFacts.length_decodePdfLiteralString.
Qed.

Lemma literal_string_decoded_witness :
  decodePdfLiteralString (lit "Hello World") = lit "Hello World".
Proof.
  exact (proj1 (proj1 (literal_string_decoded (lit "Hello World")) eq_refl)).
Defined.



(** X12.  Every string [extractLiteralStrings] keeps from a stream passes
    [isUsefulText]: it has six code units or more, one of them a letter or
    a digit, and it is cleaned up (no control character, no whitespace but
    U+0020). *)
Theorem extracted_strings_useful (P : Platform) (streamText : str) :
  Forall
    (fun r =>
       isUsefulText r = true /\ (6 <= length r)%nat
       /\ existsb is_alnum r = true /\ forallb is_clean r = true)
    (extractLiteralStrings P streamText).
Proof.
  eapply Forall_impl; [apply PdfTextFacts.extractLiteralStrings_kept|].
  intros r [Hu Hc]. split; [exact Hu|].
  split; [apply PdfTextFacts.isUsefulText_length, Hu|].
  split; [apply PdfTextFacts.isUsefulText_alnum, Hu | exact Hc].
Qed.

(** X13.  Whatever the bytes, the title and the excerpt that
    [extractPdfPreviewText] returns hold no control character (no line
    break, no tab) and no whitespace but U+0020, and the excerpt neither
    starts nor ends with whitespace. *)
Theorem preview_clean (P : Platform) (bytes : list N) (opts : Options) :
  forallb is_clean (title (extractPdfPreviewText P bytes opts)) = true
  /\ forallb is_clean (excerpt (extractPdfPreviewText P bytes opts)) = true
  /\ (forall c,
        head (excerpt (extractPdfPreviewText P bytes opts)) = Some c
        \/ last (excerpt (extractPdfPreviewText P bytes opts)) = Some c ->
        is_space c = false).
Proof.
  unfold extractPdfPreviewText. cbn [title excerpt]. split; [|split].
  - apply SlugFacts.forallb_firstn, PdfTextFacts.cleanupText_units.
  - apply PdfTextFacts.cleanupText_units.
  - intros c. apply PdfTextFacts.trim_ends.
Qed.

(** X14.  The title of the document information is found: when the text
    of the file holds [/Title], whitespace or none, and in parentheses a
    text [t] of 1 to 300 code units without a closing parenthesis, with no
    [/Title] before it, and the file holds no [<dc:title], the title
    returned is [t] decoded as a literal string, cleaned up and cut at
    200.  A file that holds neither [/Title] nor [<dc:title] has the empty
    title. *)
Theorem info_title_extracted (P : Platform) (bytes : list N)
    (pre ws t post : str) (opts : Options) :
  includes (lit "<dc:title") (latin1_decode bytes) = false ->
  (latin1_decode bytes = pre ++ lit "/Title" ++ ws ++ 40%N :: t ++ 41%N :: post ->
   includes (lit "/Title") pre = false ->
   forallb is_space ws = true ->
   t <> [] -> (length t <= 300)%nat ->
   forallb (fun c => negb (c =? 41)%N) t = true ->
   title (extractPdfPreviewText P bytes opts)
   = firstn 200 (cleanupText (decodePdfLiteralString t)))
  /\ (includes (lit "/Title") (latin1_decode bytes) = false ->
      title (extractPdfPreviewText P bytes opts) = []).
Proof.
  intros Hx.
  assert (Ex : extractXmpTitle (latin1_decode bytes) = []).
  { unfold extractXmpTitle, indexOf. rewrite drop_0. unfold includes in Hx.
    destruct (find_from (lit "<dc:title") (latin1_decode bytes) 0);
      [discriminate | reflexivity]. }
  unfold extractPdfPreviewText. cbn [title]. rewrite Ex.
  unfold or_else. cbn [is_empty]. split.
  - intros -> Hpre Hws Hne Hlen Ht.
    rewrite (TitleFacts.extractInfoTitle_found pre ws t post Hpre Hws Hne Hlen Ht).
    reflexivity.
  - intros Hn. unfold extractInfoTitle.
    rewrite (TitleFacts.first_match_none _ Hn). reflexivity.
Qed.

Lemma info_title_extracted_witness :
  title (extractPdfPreviewText bare_platform titled_pdf default_options)
  = lit "Annual Report 2024".
Proof.
  exact (proj1 (info_title_extracted bare_platform titled_pdf
                  (lines ["%PDF-1.4"; "1 0 obj"]%string ++ lit "<< ")
                  (lit " ") (lit "Annual Report 2024")
                  (lit " /Producer (pdfTeX) >>" ++ [10%N]
                   ++ lines ["endobj"; "%%EOF"]%string)
                  default_options eq_refl)
           eq_refl eq_refl eq_refl ltac:(discriminate) ltac:(cbn; lia) eq_refl).
Defined.

(** X15.  [decodeHtmlEntities] replaces [&amp;] first, so an ampersand it
    made can start another entity: text escaped twice is decoded twice. *)
Theorem entities_decoded_twice (s : str) :
  (strip_prefix N.eqb (lit "amp;") s = None ->
   decodeHtmlEntities (lit "&amp;" ++ s) = decodeHtmlEntities (lit "&" ++ s))
  /\ decodeHtmlEntities (lit "&amp;lt;b&amp;gt;") = lit "<b>".
Proof.
  split; [apply PdfTextFacts.decodeHtmlEntities_twice | reflexivity].
Qed.

Lemma entities_decoded_twice_witness :
  decodeHtmlEntities (lit "&amp;" ++ lit "lt;") = decodeHtmlEntities (lit "&" ++ lit "lt;").
Proof. exact (proj1 (entities_decoded_twice (lit "lt;")) eq_refl). Defined.



(** X18.  [stripExtension] gives the part of the name behind the last
    slash or backslash without its last extension: for [base.ext] and for
    [dir/base.ext] it gives [base], which is empty for a name such as
    [.bashrc]; a name with neither separator nor dot comes back as it is. *)
Theorem stripExtension_basename (dir base ext : str) (sep : N) :
  (sep = 92 \/ sep = 47)%N ->
  forallb (fun c => negb ((c =? 92)%N || (c =? 47)%N)) (base ++ 46%N :: ext) = true ->
  forallb (fun d => negb (d =? 46)%N) ext = true ->
  ext <> [] ->
  stripExtension (dir ++ sep :: base ++ 46%N :: ext) = base
  /\ stripExtension (base ++ 46%N :: ext) = base
  /\ (forallb (fun d => negb (d =? 46)%N) base = true ->
      stripExtension base = base).
Proof.
  intros Hsep Hplain Hext Hne. unfold stripExtension.
  assert (Hbase : forallb (fun c => negb ((c =? 92)%N || (c =? 47)%N)) base = true).
  { rewrite forallb_app in Hplain. apply andb_true_iff in Hplain as [H _].
    exact H. }
  split; [|split].
  - rewrite (WorkerFacts.afterLastSeparator_go_app dir sep _ [] Hsep Hplain).
    replace (or_else (base ++ 46%N :: ext) _) with (base ++ 46%N :: ext)
      by (destruct base; reflexivity).
    apply (WorkerFacts.dropExtension_app _ ext Hne Hext).
  - rewrite (WorkerFacts.afterLastSeparator_go_plain _ [] Hplain). cbn [app].
    replace (or_else (base ++ 46%N :: ext) _) with (base ++ 46%N :: ext)
      by (destruct base; reflexivity).
    apply (WorkerFacts.dropExtension_app _ ext Hne Hext).
  - intros Hdots.
    rewrite (WorkerFacts.afterLastSeparator_go_plain _ [] Hbase). cbn [app].
    unfold or_else. destruct (is_empty base);
      apply WorkerFacts.dropExtension_plain, Hdots.
Qed.

Lemma stripExtension_basename_witness :
  stripExtension (lit "C:\Users\me\Downloads" ++ 92%N :: lit "report.final" ++ 46%N :: lit "pdf")
  = lit "report.final".
Proof.
  exact (proj1 (stripExtension_basename (lit "C:\Users\me\Downloads")
                  (lit "report.final") (lit "pdf") 92
                  (or_introl eq_refl) eq_refl eq_refl ltac:(discriminate))).
Defined.



(** X20.  Without a token both flows return [null] at once: the failure
    is recorded in the history with the error of the missing token, the
    rate limiter is left as it was, and nothing is fetched and no model is
    asked. *)
Theorem unconfigured_recorded (W : World) (downloadItem : DownloadItem)
    (st : State) :
  hfToken (settings W) = [] ->
  (let run := renameImage W downloadItem st in
   fst run = Ok None
   /\ limiter (snd run) = limiter st
   /\ newest (snd run) = Some (failureEntry W TokenNotConfigured downloadItem image)
   /\ sparing isFetch 0 st (snd run)
   /\ sparing isModelCall 0 st (snd run))
  /\ (enablePdfRenaming (settings W) = true ->
      let run := renamePdf W downloadItem st in
      fst run = Ok None
      /\ limiter (snd run) = limiter st
      /\ newest (snd run) = Some (failureEntry W TokenNotConfigured downloadItem pdf)
      /\ sparing isFetch 0 st (snd run)
      /\ sparing isModelCall 0 st (snd run)).
Proof.
  intros Ht. split.
  - cbv zeta. rewrite (FlowFacts.renameImage_no_token W downloadItem st Ht).
    apply FlowFacts.recordFailure_run.
  - intros Hon. cbv zeta.
    rewrite (FlowFacts.renamePdf_no_token W downloadItem st Hon Ht).
    apply FlowFacts.recordFailure_run.
Qed.

Lemma unconfigured_recorded_witness :
  fst (renameImage (test_world DEFAULTS (lit "a white cat")) photo fresh_state)
  = Ok None.
Proof.
  exact (proj1 (proj1 (unconfigured_recorded
                         (test_world DEFAULTS (lit "a white cat")) photo
                         fresh_state eq_refl))).
Defined.

(** X21.  When the rate limiter refuses the call, both flows return
    [null]: the failure is recorded with the error of the limiter, whose
    number of seconds to wait is not negative, the limiter is left as it
    was, and nothing is fetched and no model is asked. *)
Theorem rate_limited_recorded (W : World) (downloadItem : DownloadItem)
    (st : State) (e : Error) :
  hfToken (settings W) <> [] ->
  fst (checkRateLimit (now W) (limiter st)) = Err e ->
  (exists seconds, e = RateLimitReached seconds /\ 0 <= seconds)
  /\ (let run := renameImage W downloadItem st in
      fst run = Ok None
      /\ limiter (snd run) = limiter st
      /\ newest (snd run) = Some (failureEntry W e downloadItem image)
      /\ sparing isFetch 0 st (snd run)
      /\ sparing isModelCall 0 st (snd run))
  /\ (enablePdfRenaming (settings W) = true ->
      let run := renamePdf W downloadItem st in
      fst run = Ok None
      /\ limiter (snd run) = limiter st
      /\ newest (snd run) = Some (failureEntry W e downloadItem pdf)
      /\ sparing isFetch 0 st (snd run)
      /\ sparing isModelCall 0 st (snd run)).
Proof.
  intros Ht He. split; [|split].
  - apply (FlowFacts.checkRateLimit_refused _ _ _ He).
  - cbv zeta. rewrite (FlowFacts.renameImage_refused W downloadItem st e Ht He).
    apply FlowFacts.recordFailure_run.
  - intros Hon. cbv zeta.
    rewrite (FlowFacts.renamePdf_refused W downloadItem st e Hon Ht He).
    apply FlowFacts.recordFailure_run.
Qed.

Lemma rate_limited_recorded_witness :
  newest (snd (renameImage (test_world test_settings (lit "a white cat")) photo
                 spent_state))
  = Some (failureEntry (test_world test_settings (lit "a white cat"))
            (RateLimitReached 60) photo image).
Proof.
  exact (proj1 (proj2 (proj2 (proj1 (proj2
           (rate_limited_recorded
              (test_world test_settings (lit "a white cat")) photo spent_state
              (RateLimitReached 60) ltac:(discriminate) eq_refl)))))).
Defined.

(** X22.  A file larger than [maxImageSize] is fetched and then given up:
    both flows return [null] and record the failure with the two sizes, no
    model is asked, and the call stays counted by the rate limiter. *)
Theorem oversized_recorded (W : World) (downloadItem : DownloadItem)
    (st : State) (status : Z) (body : list N) :
  hfToken (settings W) <> [] ->
  fst (checkRateLimit (now W) (limiter st)) = Ok tt ->
  fetch W (itemUrl downloadItem) = Response true status body ->
  maxImageSize (settings W) < Z.of_nat (length body) ->
  let e := FileTooLarge (Z.of_nat (length body)) (maxImageSize (settings W)) in
  (let run := renameImage W downloadItem st in
   fst run = Ok None
   /\ newest (snd run) = Some (failureEntry W e downloadItem image)
   /\ sparing isModelCall 0 st (snd run)
   /\ limiter (snd run) = snd (checkRateLimit (now W) (limiter st)))
  /\ (enablePdfRenaming (settings W) = true ->
      let run := renamePdf W downloadItem st in
      fst run = Ok None
      /\ newest (snd run) = Some (failureEntry W e downloadItem pdf)
      /\ sparing isModelCall 0 st (snd run)
      /\ limiter (snd run) = snd (checkRateLimit (now W) (limiter st))).
Proof.
  intros Ht Hr Hf Hsize e.
  assert (He : forall st0,
             fst (fetchFile W (itemUrl downloadItem) (maxImageSize (settings W)) st0)
             = Err e).
  { intros st0. rewrite (FlowFacts.fetchFile_too_large _ _ _ _ _ _ Hf Hsize).
    reflexivity. }
  split.
  - cbv zeta. unfold renameImage. cbv zeta.
    edestruct (FlowFacts.fetch_failure_recorded W isModelCall)
      as (st1 & E & Hs & Hl);
      [ | | | | exact Ht | exact Hr | exact He | ]; try reflexivity.
    rewrite E.
    destruct (FlowFacts.recordFailure_run W e downloadItem image st1)
      as (H1 & H2 & H3 & _ & H5).
    split; [exact H1|]. split; [exact H3|]. split; [|congruence].
    apply (FlowFacts.sparing_trans _ 0 0 _ _ _ Hs H5).
  - intros Hon. cbv zeta. unfold renamePdf. cbv zeta. 
    rewrite Hon. cbn [negb].
    edestruct (FlowFacts.fetch_failure_recorded W isModelCall)
      as (st1 & E & Hs & Hl);
      [ | | | | exact Ht | exact Hr | exact He | ]; try reflexivity.
    rewrite E.
    destruct (FlowFacts.recordFailure_run W e downloadItem pdf st1)
      as (H1 & H2 & H3 & _ & H5).
    split; [exact H1|]. split; [exact H3|]. split; [|congruence].
    apply (FlowFacts.sparing_trans _ 0 0 _ _ _ Hs H5).
Qed.

Lemma oversized_recorded_witness :
  newest (snd (renameImage (test_world two_byte_settings (lit "a white cat"))
                 photo fresh_state))
  = Some (failureEntry (test_world two_byte_settings (lit "a white cat"))
            (FileTooLarge 3 2) photo image).
Proof.
  exact (proj1 (proj2 (proj1
           (oversized_recorded
              (test_world two_byte_settings (lit "a white cat")) photo
              fresh_state 200 [255; 216; 255]%N ltac:(discriminate) eq_refl
              eq_refl ltac:(cbn; lia))))).
Defined.

(** X23.  With [skipSmallImages] on, an image of fewer bytes than
    [minImageSize] is fetched and let go: [renameImage] returns [null], no
    model is asked, and neither the history nor the stats are written; the
    call stays counted by the rate limiter. *)
Theorem small_image_skipped (W : World) (downloadItem : DownloadItem)
    (st : State) (status : Z) (body : list N) :
  hfToken (settings W) <> [] ->
  fst (checkRateLimit (now W) (limiter st)) = Ok tt ->
  fetch W (itemUrl downloadItem) = Response true status body ->
  Z.of_nat (length body) <= maxImageSize (settings W) ->
  skipSmallImages (settings W) = true ->
  Z.of_nat (length body) < minImageSize (settings W) ->
  let run := renameImage W downloadItem st in
  fst run = Ok None
  /\ quietly st (snd run)
  /\ sparing isModelCall 0 st (snd run)
  /\ limiter (snd run) = snd (checkRateLimit (now W) (limiter st)).
Proof.
  intros Ht Hr Hf Hsize Hskip Hsmall. cbv zeta.
  assert (Hs : (maxImageSize (settings W) <? Z.of_nat (length body)) = false)
    by (apply Z.ltb_ge; exact Hsize).
  destruct (SkipFacts.renameImage_skipped W downloadItem st status body
              Ht Hr Hf Hs Hskip Hsmall) as (st1 & E & Hq & Hm).
  pose proof (FlowFacts.renameImage_limiter W downloadItem st) as Hl.
  rewrite (FlowFacts.token_set _ Ht) in Hl.
  rewrite E in *. cbn [fst snd] in *. auto.
Qed.

Lemma small_image_skipped_witness :
  fst (renameImage (test_world skipping_settings (lit "a white cat")) photo
         fresh_state)
  = Ok None.
Proof.
  exact (proj1 (small_image_skipped
                  (test_world skipping_settings (lit "a white cat")) photo
                  fresh_state 200 [255; 216; 255]%N ltac:(discriminate) eq_refl
                  eq_refl ltac:(cbn; lia) eq_refl ltac:(cbn; lia))).
Defined.

(** X24.  One download costs at most one request of each kind: a flow
    fetches at most once and asks the model at most once, whatever the
    collaborators answer, and it puts exactly one call to the rate limiter,
    made when a token is set (and, for a PDF, the renaming is on), also
    when the download fails afterwards. *)
Theorem one_request_per_download (W : World) (downloadItem : DownloadItem)
    (st : State) :
  (let st' := snd (renameImage W downloadItem st) in
   sparing isFetch 1 st st' /\ sparing isModelCall 1 st st'
   /\ limiter st'
      = if is_empty (hfToken (settings W)) then limiter st
        else snd (checkRateLimit (now W) (limiter st)))
  /\ (let st' := snd (renamePdf W downloadItem st) in
      sparing isFetch 1 st st' /\ sparing isModelCall 1 st st'
      /\ limiter st'
         = if negb (enablePdfRenaming (settings W))
              || is_empty (hfToken (settings W))
           then limiter st
           else snd (checkRateLimit (now W) (limiter st)))
  /\ (let st' := snd (ImageBackground.renameImage W downloadItem st) in
      sparing isFetch 1 st st' /\ sparing isModelCall 1 st st').
Proof.
  cbv zeta.
  destruct (FlowFacts.renameImage_sparing W downloadItem) as [I1 I2].
  destruct (FlowFacts.renamePdf_sparing W downloadItem) as [P1 P2].
  destruct (FlowFacts.image_only_renameImage_sparing W downloadItem) as [O1 O2].
  repeat split;
    first [ apply I1 | apply I2 | apply P1 | apply P2 | apply O1 | apply O2
          | apply FlowFacts.renameImage_limiter
          | apply FlowFacts.renamePdf_limiter ].
Qed.

(** X25.  Whatever the model answers, a name the extension's flows return
    is made of code units of [[A-Za-z0-9_-]], a dot, and the extension: one
    of the image types (or [constructor] or [__proto__], which the lookup
    in [IMAGE_TYPES] lets through) for an image, [pdf] for a PDF.  It
    holds no slash and no backslash.  A name the image-only flow returns
    is a slug, a dot, and such an extension. *)
Theorem names_are_safe (W : World) (downloadItem : DownloadItem) (st : State)
    (name : str) :
  forallb hf_unit (today W) = true ->
  (fst (renameImage W downloadItem st) = Ok (Some name) ->
   (exists base ext,
      name = base ++ lit "." ++ ext
      /\ forallb hf_unit base = true /\ In ext imageExtensions)
   /\ forallb (fun c => negb ((c =? 92)%N || (c =? 47)%N)) name = true)
  /\ (fst (renamePdf W downloadItem st) = Ok (Some name) ->
      (exists base, name = base ++ lit ".pdf" /\ forallb hf_unit base = true)
      /\ forallb (fun c => negb ((c =? 92)%N || (c =? 47)%N)) name = true)
  /\ (slug_shape (today W) = true ->
      fst (ImageBackground.renameImage W downloadItem st) = Ok (Some name) ->
      exists base ext,
        name = base ++ lit "." ++ ext
        /\ slug_shape base = true /\ In ext imageExtensions).
Proof.
  intros Ht.
  assert (Hunit : forall s, forallb hf_unit s = true ->
                  forallb (fun c => negb ((c =? 92)%N || (c =? 47)%N)) s = true).
  { intros s Hs. rewrite forallb_forall in *. intros c Hc.
    specialize (Hs c Hc).
    destruct (c =? 92)%N eqn:E1;
      [apply N.eqb_eq in E1; subst c; discriminate|].
    destruct (c =? 47)%N eqn:E2;
      [apply N.eqb_eq in E2; subst c; discriminate|].
    reflexivity. }
  split; [|split]; [intros Hrun | intros Hrun | intros Hs Hrun].
  - pose proof (FlowFacts.renameImage_names W downloadItem Ht st) as H.
    rewrite Hrun in H. split; [exact H|].
    destruct H as (base & ext & -> & Hb & He).
    rewrite !forallb_app, (Hunit base Hb). cbn [andb lit].
    unfold imageExtensions, IMAGE_TYPES in He. cbn in He.
    repeat (destruct He as [<- | He]; [reflexivity|]). contradiction.
  - pose proof (FlowFacts.renamePdf_names W downloadItem Ht st) as H.
    rewrite Hrun in H. split; [exact H|].
    destruct H as (base & -> & Hb).
    rewrite !forallb_app, (Hunit base Hb). reflexivity.
  - pose proof (FlowFacts.image_only_renameImage_names W downloadItem Hs st) as H.
    rewrite Hrun in H. exact H.
Qed.

Lemma names_are_safe_witness :
  exists base ext,
    lit "white-cat-sitting-on.jpg" = base ++ lit "." ++ ext
    /\ forallb hf_unit base = true /\ In ext imageExtensions.
Proof.
  apply (proj1 (names_are_safe
                  (test_world test_settings (lit "a white cat sitting on floor"))
                  photo fresh_state (lit "white-cat-sitting-on.jpg") eq_refl)).
  vm_compute. reflexivity.
Defined.

(** X26.  The event hook reads the type of a download off the extension
    of its name without regard to case, before the URL and the MIME type:
    a name that ends in a dot and an image type (or in [.constructor] or
    [.__proto__], which the lookup in [IMAGE_TYPES] lets through) goes to
    the image flow, and one that ends in [.pdf] to the PDF flow unless the
    URL ends in an image type. *)
Theorem handled_by_extension (W : World) (pathname : str -> option str)
    (downloadItem : DownloadItem) (base ext : str) :
  lowers_ascii (toLowerCase W) ->
  forallb is_ascii (filename downloadItem) = true ->
  filename downloadItem = base ++ 46%N :: ext ->
  forallb (fun c => negb (c =? 46)%N) ext = true ->
  extFromName W downloadItem = map lower_unit ext
  /\ (In (map lower_unit ext) imageExtensions ->
      handle W pathname downloadItem = Some image)
  /\ (map lower_unit ext = lit "pdf" ->
      isImageType (extFromUrl W pathname downloadItem) = false ->
      handle W pathname downloadItem = Some pdf).
Proof.
  intros Hl Ha Hn Hext.
  pose proof (DispatchFacts.extFromName_lowered W downloadItem base ext
                Hl Ha Hn Hext) as He.
  split; [exact He|]. unfold handle, isImage, isPdf. rewrite He. split.
  - intros Hin. rewrite (DispatchFacts.isImageType_known _ Hin). reflexivity.
  - intros -> ->. reflexivity.
Qed.

Lemma handled_by_extension_witness :
  handle (test_world test_settings (lit "a white cat")) example_pathname
    loud_photo
  = Some image.
Proof.
  apply (proj1 (proj2 (handled_by_extension
                  (test_world test_settings (lit "a white cat"))
                  example_pathname loud_photo (lit "HOLIDAY") (lit "JPG")
                  ExampleFacts.ascii_toLowerCase_lowers eq_refl eq_refl eq_refl))).
  cbn. tauto.
Defined.


(** X28.  [shortenName] of the popup leaves a name of at most 35 code
    units as it is.  Of a longer name [base.ext] it keeps the first 30
    units of [base], three dots and [ext]; a longer name without a dot
    comes back whole behind three dots, three units longer than it was. *)
Theorem shortenName_shape (base ext : str) :
  forallb (fun c => negb (c =? 46)%N) ext = true ->
  ((length ext <= 35)%nat -> shortenName ext = ext)
  /\ ((35 < length ext)%nat -> shortenName ext = lit "..." ++ ext)
  /\ ((length (base ++ 46%N :: ext) <= 35)%nat ->
      shortenName (base ++ 46%N :: ext) = base ++ 46%N :: ext)
  /\ ((35 < length (base ++ 46%N :: ext))%nat ->
      shortenName (base ++ 46%N :: ext) = firstn 30 base ++ lit "..." ++ ext).
Proof.
  intros Hext. unfold shortenName. repeat split; intros Hlen.
  - apply Nat.leb_le in Hlen. rewrite Hlen. reflexivity.
  - apply Nat.leb_gt in Hlen. rewrite Hlen. cbv zeta.
    rewrite (PopupFacts.pop_plain 46 ext Hext).
    replace (length ext - (length ext + 1))%nat with 0%nat by lia.
    reflexivity.
  - apply Nat.leb_le in Hlen. rewrite Hlen. reflexivity.
  - apply Nat.leb_gt in Hlen. rewrite Hlen. cbv zeta.
    rewrite (PopupFacts.pop_extension 46 base ext Hext).
    rewrite length_app. cbn [length].
    replace (length base + S (length ext) - (length ext + 1))%nat
      with (length base) by lia.
    rewrite firstn_app, firstn_all, Nat.sub_diag. cbn [firstn].
    rewrite app_nil_r. reflexivity.
Qed.

Lemma shortenName_shape_witness :
  shortenName (lit "a-very-long-file-name-with-an-extension" ++ 46%N :: lit "jpeg")
  = firstn 30 (lit "a-very-long-file-name-with-an-extension") ++ lit "..."
    ++ lit "jpeg".
Proof.
  apply (proj2 (proj2 (proj2 (shortenName_shape
                  (lit "a-very-long-file-name-with-an-extension") (lit "jpeg")
                  eq_refl)))).
  cbn. lia.
Defined.
